(** * JPG thumbnail generator: a shallow embedding of [image-gui4-multi3.py]

    The definitions follow the source file top to bottom; the facts and the
    statements about the program come after them.

    - [pystr], [posixpath]: the string functions the program calls
      ([str.lower], [str.endswith], [str.replace], [os.path.basename],
      [dirname], [splitext], [join]). A Python string is the string of the
      bytes of its UTF-8 encoding.
    - [os]: the file system, a finite map from paths to files and
      directories, with [os.path.exists], reading, writing and [os.makedirs].
    - [Float64]: the double-precision arithmetic of the thumbnail size
      (Python [int / int], [int * float], [min], [int(float)]).
    - [Section Worker]: [process_single_file], over a file system that is
      threaded explicitly and over the functions of [piexif], [cv2] and
      [os.path.relpath] and the refusals of the operating system, which are
      taken as a parameter ([library]).
    - [Section Manager]: the scan loop of [App.start_processing],
      [App.process_results] and [App.run_single_process].
    - [Section Pool]: [App.run_multiprocessing]. The processes of the pool
      are observed between their calls to the file system and move in the
      order that a schedule gives.
    - [App] and what follows it: the widgets and variables of the window
      that the methods read or change, with [__init__],
      [toggle_cpu_scaler], the two folder dialogs, [check_queue] and
      [start_processing]. The layout of the window and the thread that
      [start_processing_thread] starts are not modelled: a press of the
      button is [start_processing] run to its end, and the timer runs
      [check_queue] after it.

    Python exceptions are values: a computation that may raise has type
    [exn + A], with [inl e] carrying the text of the exception ([str(e)]).
    Only exceptions of the class [Exception] are modelled, those the
    [except] clauses of the program catch. *)

From Stdlib Require Import ZArith NArith QArith Qround Qminmax Qpower.
From Stdlib Require Import String Ascii List Lia Lqa.
From Stdlib Require Floats Uint63.
From stdpp Require Import base option list gmap strings pretty.

Close Scope Q_scope.
Local Open Scope string_scope.

(** ** Exceptions *)

Definition exn := string.
Definition bytes := list Byte.byte.

Definition raise {A} (e : exn) : exn + A := inl e.
Definition ok {A} (a : A) : exn + A := inr a.

Definition bind_exn {A B} (m : exn + A) (k : A -> exn + B) : exn + B :=
  match m with
  | inl e => inl e
  | inr a => k a
  end.

Notation "'do' x <- m ; k" := (bind_exn m (fun x => k))
  (at level 10, x pattern, m at level 100, k at level 200).

(** ** Python string methods *)

Module pystr.

Definition lower_ascii (c : ascii) : ascii :=
  let n := N_of_ascii c in
  if ((65 <=? n) && (n <=? 90))%N then ascii_of_N (n + 32) else c.

(** [str.lower], on the letters that can matter to a comparison with an
    ASCII suffix. *)
Fixpoint lower (s : string) : string :=
  match s with
  | EmptyString => EmptyString
  | String c s' => String (lower_ascii c) (lower s')
  end.

Fixpoint startswith (s p : string) : bool :=
  match p, s with
  | EmptyString, _ => true
  | String _ _, EmptyString => false
  | String b p', String a s' => Ascii.eqb a b && startswith s' p'
  end.

(** [s.endswith(suffix)]: [s] is [suffix], or [suffix] ends what follows the
    first character of [s]. *)
Fixpoint endswith (s suffix : string) : bool :=
  String.eqb s suffix ||
  match s with
  | EmptyString => false
  | String _ s' => endswith s' suffix
  end.

(** [sub in s]: [s] has [sub] at some position. The strings are compared as
    the bytes of their UTF-8 encodings, where a match starts and ends on the
    boundaries of characters. *)
Fixpoint contains (s sub : string) : bool :=
  startswith s sub ||
  match s with
  | EmptyString => false
  | String _ s' => contains s' sub
  end.

(** [s.endswith((a, b))]: a tuple of suffixes. *)
Definition endswith_any (s : string) (suffixes : list string) : bool :=
  existsb (endswith s) suffixes.

Fixpoint replace_from (old new : string) (skip : nat) (s : string) : string :=
  match s with
  | EmptyString => EmptyString
  | String a s' =>
      match skip with
      | S k => replace_from old new k s'
      | O =>
          if startswith s old
          then new +:+ replace_from old new (String.length old - 1) s'
          else String a (replace_from old new 0 s')
      end
  end.

(** [s.replace(old, new)] for a non-empty [old]: every occurrence, scanning
    from the left, occurrences not overlapping. *)
Definition replace (s old new : string) : string := replace_from old new 0 s.

End pystr.

(** ** [os.path] (posixpath) *)

Module posixpath.

Definition sep : ascii := "/"%char.
Definition extsep : ascii := "."%char.

(** Split at the last occurrence of [c]: [rsplit c s = Some (l, r)] when
    [s = l ++ c :: r] and [c] does not occur in [r]. This is the pair
    [(p[:i], p[i+1:])] for [i = p.rfind(c)]. *)
Fixpoint rsplit (c : ascii) (s : string) : option (string * string) :=
  match s with
  | EmptyString => None
  | String a s' =>
      match rsplit c s' with
      | Some (l, r) => Some (String a l, r)
      | None => if Ascii.eqb a c then Some (EmptyString, s') else None
      end
  end.

Fixpoint all_char (c : ascii) (s : string) : bool :=
  match s with
  | EmptyString => true
  | String a s' => Ascii.eqb a c && all_char c s'
  end.

Fixpoint rstrip (c : ascii) (s : string) : string :=
  match s with
  | EmptyString => EmptyString
  | String a s' =>
      match rstrip c s' with
      | EmptyString => if Ascii.eqb a c then EmptyString else String a EmptyString
      | t => String a t
      end
  end.

Definition basename (p : string) : string :=
  match rsplit sep p with
  | Some (_, tail) => tail
  | None => p
  end.

Definition dirname (p : string) : string :=
  match rsplit sep p with
  | None => EmptyString
  | Some (h, _) =>
      let head := h +:+ "/" in
      if all_char sep head then head else rstrip sep head
  end.

(** [genericpath._splitext]: the extension starts at the last dot of the last
    component, unless only dots precede it there. *)
Definition splitext (p : string) : string * string :=
  let '(dir, base) :=
    match rsplit sep p with
    | Some (h, t) => (h +:+ "/", t)
    | None => (EmptyString, p)
    end in
  match rsplit extsep base with
  | None => (p, EmptyString)
  | Some (stem, e) =>
      if all_char extsep stem then (p, EmptyString)
      else (dir +:+ stem, String extsep e)
  end.

(** [os.path.join(a, b)] with two arguments. *)
Definition join (a b : string) : string :=
  if pystr.startswith b "/" then b
  else if (String.eqb a EmptyString || pystr.endswith a "/") then a +:+ b
  else a +:+ "/" +:+ b.

End posixpath.

(** ** The file system

    A file system maps a path to what is stored under that name. A path is
    identified with its text: two different strings are two different names.
    Directory containment and permissions are not tracked; what they can make
    the system refuse is an argument of the operations. *)

Inductive node :=
| File (content : bytes)
| Dir.

Abbreviation filesystem := (gmap string node).

Module os.

(** [os.path.exists] *)
Definition path_exists (fs : filesystem) (p : string) : bool :=
  bool_decide (is_Some (fs !! p)).

(** [os.path.isdir] *)
Definition isdir (fs : filesystem) (p : string) : bool :=
  match fs !! p with
  | Some Dir => true
  | _ => false
  end.

(** [open(p, 'rb').read()]. [refused] is the error the system answers with
    when it does not let the file be read, if it does so. *)
Definition read_file (refused : option exn) (fs : filesystem) (p : string)
  : exn + bytes :=
  match fs !! p with
  | Some (File b) =>
      match refused with
      | Some e => raise e
      | None => ok b
      end
  | Some Dir => raise ("[Errno 21] Is a directory: '" +:+ p +:+ "'")
  | None => raise ("[Errno 2] No such file or directory: '" +:+ p +:+ "'")
  end.

(** [open(p, 'wb').write(data)]: creates the file or truncates and replaces
    an existing one. [refused] is the error the system answers with when it
    does not let the file be written (a directory that is missing,
    permissions, a full disk), if it does so. *)
Definition write_file (refused : option exn) (fs : filesystem) (p : string)
    (data : bytes) : exn + filesystem :=
  match fs !! p with
  | Some Dir => raise ("[Errno 21] Is a directory: '" +:+ p +:+ "'")
  | _ =>
      match refused with
      | Some e => raise e
      | None => ok (<[p := File data]> fs)
      end
  end.

(** [os.makedirs(p, exist_ok=True)]: an existing directory is left as it is,
    a file of that name is an error ([exist_ok] only forgives a directory),
    a free name becomes a directory unless the system refuses. Leading
    directories are not recorded, containment not being tracked. *)
Definition makedirs (refused : option exn) (fs : filesystem) (p : string)
  : exn + filesystem :=
  match fs !! p with
  | Some Dir => ok fs
  | Some (File _) => raise ("[Errno 17] File exists: '" +:+ p +:+ "'")
  | None =>
      match refused with
      | Some e => raise e
      | None => ok (<[p := Dir]> fs)
      end
  end.

End os.

(** ** Double-precision arithmetic

    A finite double is modelled by the rational number it denotes. An
    operation computes the exact rational result and rounds it to 53
    significant bits, to nearest, ties to even, as IEEE 754 binary64 does; the
    exponent range is not limited (the sizes of a decoded image keep every
    value far from overflow and underflow). *)

Module Float64.

Local Open Scope Q_scope.

(** [pow2 e] is 2 to the power [e], for an exponent of either sign. *)
Definition pow2 (e : Z) : Q := 2 ^ e.

(** The exponent of the leading bit of a positive [x]:
    [pow2 (floor_log2 x) <= x < pow2 (floor_log2 x + 1)]. *)
Definition floor_log2 (x : Q) : Z :=
  let k := (Z.log2 (Qnum x) - Z.log2 (Zpos (Qden x)))%Z in
  if Qle_bool (pow2 k) x then k else (k - 1)%Z.

(** Nearest integer, ties to even. *)
Definition rne (y : Q) : Z :=
  let q := Qfloor y in
  match Qcompare (y - inject_Z q) (1 # 2) with
  | Lt => q
  | Gt => (q + 1)%Z
  | Eq => if Z.even q then q else (q + 1)%Z
  end.

Definition round_pos (x : Q) : Q :=
  let e := (floor_log2 x - 52)%Z in
  Qred (inject_Z (rne (x / pow2 e)) * pow2 e).

(** Rounding to the nearest double. *)
Definition round (x : Q) : Q :=
  match Qnum x with
  | Z0 => 0
  | Zpos _ => round_pos x
  | Zneg _ => - round_pos (- x)
  end.

(** [a / b] on Python integers: the correctly rounded quotient, or
    [ZeroDivisionError]. *)
Definition truediv (a b : N) : exn + Q :=
  match b with
  | N0 => raise "division by zero"
  | Npos p => ok (round (Z.of_N a # p))
  end.

(** [float(n)] *)
Definition of_int (n : Z) : Q := round (inject_Z n).

(** [x * y] on floats. *)
Definition mul (x y : Q) : Q := round (x * y).

(** [n * x] for an integer [n] and a float [x]: the integer is converted
    first. *)
Definition int_mul (n : Z) (x : Q) : Q := mul (of_int n) x.

(** [min(a, b)]: the first argument unless the second is smaller. *)
Definition min (a b : Q) : Q := if Qle_bool a b then a else b.

(** [int(x)]: truncation towards zero. *)
Definition to_int (x : Q) : Z :=
  if Qle_bool 0 x then Qfloor x else Qceiling x.

(** The unit roundoff of the format, 2^-53: one rounding changes a positive
    value by at most this fraction of it. *)
Definition u : Q := 1 # 9007199254740992.

(** A bound, 2^-40, on what three roundings can add to or take from a value
    of at most 160. *)
Definition delta : Q := 1 # 1099511627776.

End Float64.

(** ** Lines 40-43: the size of the thumbnail *)

Definition target_width : N := 160.
Definition target_height : N := 120.

(** [ratio = min(target_width / original_width, target_height / original_height)]
    [new_width, new_height = int(original_width * ratio), int(original_height * ratio)] *)
Definition thumbnail_size (original_width original_height : N) : exn + (Z * Z) :=
  do rw <- Float64.truediv target_width original_width;
  do rh <- Float64.truediv target_height original_height;
  let ratio := Float64.min rw rh in
  ok (Float64.to_int (Float64.int_mul (Z.of_N original_width) ratio),
      Float64.to_int (Float64.int_mul (Z.of_N original_height) ratio)).

(** The size as the specification words it, in exact arithmetic:
    [r = min(160/w, 120/h)], dimensions [floor(w * r)] by [floor(h * r)]. *)
Definition spec_thumbnail_size (w h : positive) : Z * Z :=
  let r := Qmin (160 # w) (120 # h) in
  (Qfloor (inject_Z (Zpos w) * r), Qfloor (inject_Z (Zpos h) * r)).

(** The scaling of lines 42-43 on the kernel's binary64 numbers, to compare
    [Float64] with: the products [w * ratio] and [h * ratio] as the rationals
    they denote ([None] for a result that is not a finite positive number or
    zero). *)

Module Hardware.

Definition value (f : PrimFloat.float) : option Q :=
  match FloatOps.Prim2SF f with
  | SpecFloat.S754_zero _ => Some 0%Q
  | SpecFloat.S754_finite false m e =>
      Some (Qred (inject_Z (Z.pos m) * Float64.pow2 e))
  | _ => None
  end.

Definition of_Z (z : Z) : PrimFloat.float :=
  PrimFloat.of_uint63 (Uint63.of_Z z).

Definition scaled (w h : positive) : option Q * option Q :=
  let rw := PrimFloat.div (of_Z 160) (of_Z (Z.pos w)) in
  let rh := PrimFloat.div (of_Z 120) (of_Z (Z.pos h)) in
  let ratio := if PrimFloat.leb rw rh then rw else rh in
  (value (PrimFloat.mul (of_Z (Z.pos w)) ratio),
   value (PrimFloat.mul (of_Z (Z.pos h)) ratio)).

End Hardware.

(** The same two products in the model. *)
Definition model_scaled (w h : positive) : Q * Q :=
  let ratio := Float64.min (Float64.round (160 # w)) (Float64.round (120 # h)) in
  (Float64.int_mul (Z.pos w) ratio, Float64.int_mul (Z.pos h) ratio).

Definition scaled_agree (w h : positive) : bool :=
  match Hardware.scaled w h, model_scaled w h with
  | (Some a, Some b), (a', b') => Qeq_bool a a' && Qeq_bool b b'
  | _, _ => false
  end.

(** ** The data of the worker *)

(** A task is the tuple built by the scan: [(full_path, output_root_folder,
    filename_format, conflict_resolution, root_folder, show_log)]. *)
Definition task : Type := string * string * string * string * string * bool.

Definition task_full_path (t : task) : string := t.1.1.1.1.1.
Definition task_conflict_resolution (t : task) : string := t.1.1.2.

(** A result is the tuple [(status, message)]. *)
Definition result : Type := string * string.

Definition SUCCESS : string := "SUCCESS".
Definition SKIPPED_EXISTS : string := "SKIPPED_EXISTS".
Definition FAILURE : string := "FAILURE".

(** The dictionary of [piexif]: the keys ["0th"], ["Exif"], ["GPS"], ["1st"]
    hold a table from tag numbers to values, the key ["thumbnail"] holds the
    bytes of the thumbnail or [None]. *)
Inductive tag_value :=
| TagInt (z : Z)
| TagBytes (b : bytes)
| TagInts (l : list Z).

Inductive exif_value :=
| Ifd (tags : gmap Z tag_value)
| Thumbnail (data : option bytes).

Abbreviation exif_container := (gmap string exif_value).

(** [piexif.ImageIFD.Orientation] *)
Definition Orientation : Z := 274.

(** Line 34: [{"0th": {}, "Exif": {}, "GPS": {}, "1st": {}, "thumbnail": None}] *)
Definition empty_exif : exif_container :=
  <["0th" := Ifd ∅]> (<["Exif" := Ifd ∅]> (<["GPS" := Ifd ∅]>
    (<["1st" := Ifd ∅]> (<["thumbnail" := Thumbnail None]> ∅)))).

(** A decoded image: [img.shape[:2]] is [(img_height, img_width)]. *)
Record image := {
  img_height : N;
  img_width : N;
  img_pixels : bytes
}.

(** The functions of [piexif], [cv2] and [os.path.relpath] that the program
    calls, and what the operating system refuses: the error, if any, it has
    against reading or writing a file or making a directory of a given name
    in a given state. They are not part of the repository; the worker is defined over
    any implementation of them. *)
Record library := {
  piexif_load : bytes -> exn + exif_container;
  piexif_dump : exif_container -> exn + bytes;
  piexif_insert : bytes -> bytes -> exn + bytes;
  cv2_imdecode : bytes -> exn + option image;
  cv2_resize : image -> Z * Z -> exn + image;
  cv2_imencode : string -> image -> exn + (bool * bytes);
  os_path_relpath : string -> string -> exn + string;
  os_refuses_read : filesystem -> string -> option exn;
  os_refuses_write : filesystem -> string -> option exn;
  os_refuses_mkdir : filesystem -> string -> option exn
}.

(** ** 1. The worker ([process_single_file]) *)

Section Worker.

Variable L : library.

(** Lines 31-34: a failure of [piexif.load] is replaced by the empty
    dictionary. *)
Definition load_exif (original_bytes : bytes) : exif_container :=
  match piexif_load L original_bytes with
  | inr exif_dict => exif_dict
  | inl _ => empty_exif
  end.

(** Lines 50-53. *)
Definition ensure_orientation (exif_dict : exif_container)
  : exn + exif_container :=
  let exif_dict :=
    match exif_dict !! "0th" with
    | None => <["0th" := Ifd ∅]> exif_dict
    | Some _ => exif_dict
    end in
  match exif_dict !! "0th" with
  | Some (Ifd ifd) =>
      match ifd !! Orientation with
      | None => ok (<["0th" := Ifd (<[Orientation := TagInt 0]> ifd)]> exif_dict)
      | Some _ => ok exif_dict
      end
  | _ => raise "argument of type 'NoneType' is not iterable"
  end.

(** Line 79: [f"{name_part} ({counter}){ext_part}"]. *)
Definition candidate (name_part ext_part : string) (counter : N) : string :=
  name_part +:+ " (" +:+ pretty counter +:+ ")" +:+ ext_part.

(** The loop of lines 78-83; [fuel] bounds the number of names that are
    tried. *)
Fixpoint rename_loop (fuel : nat) (fs : filesystem)
    (name_part ext_part : string) (counter : N) : option string :=
  match fuel with
  | O => None
  | S fuel' =>
      let new_output_path := candidate name_part ext_part counter in
      if negb (os.path_exists fs new_output_path)
      then Some new_output_path
      else rename_loop fuel' fs name_part ext_part (counter + 1)
  end.

(** Lines 72-83: the result is either an early [return] or the path to
    write. The loop is run with one more step than there are names in the
    file system, which always suffices ([rename_loop_total]). *)
Definition resolve_conflict (fs : filesystem) (output_path new_filename
    conflict_resolution : string) : result + string :=
  if os.path_exists fs output_path then
    if String.eqb conflict_resolution "skip" then
      inl (SKIPPED_EXISTS, "已跳过 (文件已存在): " +:+ new_filename)
    else if String.eqb conflict_resolution "rename" then
      let '(name_part, ext_part) := posixpath.splitext output_path in
      match rename_loop (S (size fs)) fs name_part ext_part 2 with
      | Some new_output_path => inr new_output_path
      | None => inr output_path
      end
    else inr output_path
  else inr output_path.

(** Lines 36-48: decode, size, resize, encode. The value is an early
    [return] or the bytes of the thumbnail. *)
Definition make_thumbnail (filename : string) (original_bytes : bytes)
  : exn + (result + bytes) :=
  do img <- cv2_imdecode L original_bytes;
  match img with
  | None => ok (inl (FAILURE, "失败 (无法解码): " +:+ filename))
  | Some img =>
      do size <- thumbnail_size (img_width img) (img_height img);
      do thumb <- cv2_resize L img size;
      do enc <- cv2_imencode L ".jpg" thumb;
      let '(success, thumb_buf) := enc in
      if negb success
      then ok (inl (FAILURE, "失败 (编码缩略图失败): " +:+ filename))
      else ok (inr thumb_buf)
  end.

(** Lines 50-60: the new EXIF block and the bytes of the output file. *)
Definition embed_thumbnail (original_bytes : bytes)
    (exif_dict : exif_container)
    (thumb_buf : bytes) : exn + bytes :=
  do exif_dict <- ensure_orientation exif_dict;
  let exif_dict := <["thumbnail" := Thumbnail (Some thumb_buf)]> exif_dict in
  do exif_bytes <- piexif_dump L exif_dict;
  piexif_insert L exif_bytes original_bytes.

(** Lines 62-64. *)
Definition output_filename (filename filename_format : string) : string :=
  let '(name, ext) := posixpath.splitext filename in
  let new_filename_base := pystr.replace filename_format "{Filename}" name in
  new_filename_base +:+ ext.

(** Lines 66-68. *)
Definition output_folder (full_path output_root_folder root_folder : string)
  : exn + string :=
  let current_folder := posixpath.dirname full_path in
  do relative_path <- os_path_relpath L current_folder root_folder;
  ok (posixpath.join output_root_folder relative_path).

(** Lines 28-70: everything up to the conflict check. The value is the file
    system after [os.makedirs] and either the exception that left the block,
    an early [return], or [(output_bytes, new_filename, output_path)]. *)
Definition prepare_output (fs : filesystem) (args : task)
  : filesystem * (exn + (result + bytes * string * string)) :=
  let '(full_path, output_root_folder, filename_format, conflict_resolution,
        root_folder, _) := args in
  let filename := posixpath.basename full_path in
  match os.read_file (os_refuses_read L fs full_path) fs full_path with
  | inl e => (fs, inl e)
  | inr original_bytes =>
  let exif_dict := load_exif original_bytes in
  match make_thumbnail filename original_bytes with
  | inl e => (fs, inl e)
  | inr (inl early) => (fs, inr (inl early))
  | inr (inr thumb_buf) =>
  match embed_thumbnail original_bytes exif_dict thumb_buf with
  | inl e => (fs, inl e)
  | inr output_bytes =>
  let new_filename := output_filename filename filename_format in
  match output_folder full_path output_root_folder root_folder with
  | inl e => (fs, inl e)
  | inr output_folder_for_this_file =>
  match os.makedirs (os_refuses_mkdir L fs output_folder_for_this_file)
                    fs output_folder_for_this_file with
  | inl e => (fs, inl e)
  | inr fs1 =>
  let output_path := posixpath.join output_folder_for_this_file new_filename in
  (fs1, inr (inr (output_bytes, new_filename, output_path)))
  end end end end end.

(** Line 88: [f"已处理: {filename} -> {os.path.basename(output_path)}"] *)
Definition success_message (filename output_path : string) : string :=
  "已处理: " +:+ filename +:+ " -> " +:+ posixpath.basename output_path.

(** Line 91: [f"失败: {filename} ({e})"] *)
Definition failure_message (filename : string) (e : exn) : string :=
  "失败: " +:+ filename +:+ " (" +:+ e +:+ ")".

(** Lines 72-88: the conflict check and the write. *)
Definition write_output (fs1 : filesystem) (filename conflict_resolution : string)
    (output_bytes : bytes) (new_filename output_path : string)
  : filesystem * (exn + result) :=
  match resolve_conflict fs1 output_path new_filename conflict_resolution with
  | inl early => (fs1, inr early)
  | inr output_path =>
      match os.write_file (os_refuses_write L fs1 output_path)
                          fs1 output_path output_bytes with
      | inl e => (fs1, inl e)
      | inr fs2 => (fs2, inr (SUCCESS, success_message filename output_path))
      end
  end.

(** Lines 28-88, the body of the [try]: the new file system and either the
    exception that left the block or the returned tuple. *)
Definition process_single_file_try (fs : filesystem) (args : task)
  : filesystem * (exn + result) :=
  let '(full_path, _, _, conflict_resolution, _, _) := args in
  let filename := posixpath.basename full_path in
  match prepare_output fs args with
  | (fs1, inl e) => (fs1, inl e)
  | (fs1, inr (inl early)) => (fs1, inr early)
  | (fs1, inr (inr (output_bytes, new_filename, output_path))) =>
      write_output fs1 filename conflict_resolution output_bytes new_filename
                   output_path
  end.

(** Lines 19-91: [except Exception as e] turns the exception into a
    ["FAILURE"] tuple. *)
Definition process_single_file (fs : filesystem) (args : task)
  : filesystem * result :=
  let filename := posixpath.basename (task_full_path args) in
  match process_single_file_try fs args with
  | (fs', inr r) => (fs', r)
  | (fs', inl e) => (fs', (FAILURE, failure_message filename e))
  end.

End Worker.

(** ** 2. The manager ([App]) *)

(** What [status_queue.put] receives: a line of text, or the summary block
    with its four counts (the elapsed time printed with it is left out). *)
Inductive message :=
| Line (text : string)
| Summary (processed skipped_thumb skipped_exists failed : nat).

Record counters := {
  processed_count : nat;
  skipped_exists_count : nat;
  failed_count : nat
}.

Section Manager.

Variable L : library.

(** Lines 207-208: [piexif.load(f.read())] on the opened file. *)
Definition scan_load (fs : filesystem) (full_path : string)
  : exn + exif_container :=
  do data <- os.read_file (os_refuses_read L fs full_path) fs full_path;
  piexif_load L data.

(** Lines 206-216, for one file: [true] when one of the two [tasks.append] is
    reached (the dictionary has no thumbnail, or the bare [except] caught
    something), [false] when [skipped_thumb_count] is incremented. *)
Definition needs_thumbnail (fs : filesystem) (full_path : string) : bool :=
  match scan_load fs full_path with
  | inr exif_dict =>
      match exif_dict !! "thumbnail" with
      | None | Some (Thumbnail None) => true
      | Some _ => false
      end
  | inl _ => true
  end.

(** Lines 203-216: the inner loop over the file names of one folder. *)
Definition scan_folder (fs : filesystem)
    (output_path filename_format conflict_resolution input_path : string)
    (show_log : bool) (current_folder : string) (filenames : list string)
    (acc : list task * nat) : list task * nat :=
  fold_left
    (fun '(tasks, skipped_thumb_count) filename =>
       if pystr.endswith_any (pystr.lower filename) [".jpg"; ".jpeg"] then
         let full_path := posixpath.join current_folder filename in
         if needs_thumbnail fs full_path
         then ((tasks ++ [(full_path, output_path, filename_format,
                           conflict_resolution, input_path, show_log)])%list,
               skipped_thumb_count)
         else (tasks, S skipped_thumb_count)
       else (tasks, skipped_thumb_count))
    filenames acc.

(** Lines 200-216: [walk] is what [os.walk(input_path)] yields, the triples
    [(current_folder, dirnames, filenames)]. *)
Definition scan (fs : filesystem) (walk : list (string * list string * list string))
    (output_path filename_format conflict_resolution input_path : string)
    (show_log : bool) : list task * nat :=
  fold_left
    (fun acc '(current_folder, _, filenames) =>
       scan_folder fs output_path filename_format conflict_resolution
                   input_path show_log current_folder filenames acc)
    walk ([], O).

(** Lines 232-244: the loop over the results. *)
Definition count_result (show_log : bool) (acc : counters * list message)
    (r : result) : counters * list message :=
  let '(c, queue) := acc in
  let '(status, message) := r in
  let c :=
    if String.eqb status "SUCCESS" then
      {| processed_count := S (processed_count c);
         skipped_exists_count := skipped_exists_count c;
         failed_count := failed_count c |}
    else if String.eqb status "SKIPPED_EXISTS" then
      {| processed_count := processed_count c;
         skipped_exists_count := S (skipped_exists_count c);
         failed_count := failed_count c |}
    else if String.eqb status "FAILURE" then
      {| processed_count := processed_count c;
         skipped_exists_count := skipped_exists_count c;
         failed_count := S (failed_count c) |}
    else c in
  let queue :=
    if show_log || String.eqb status "FAILURE"
    then (queue ++ [Line message])%list else queue in
  (c, queue).

(** Lines 231-256. *)
Definition process_results (show_log : bool) (results : list result)
    (skipped_thumb_count : nat) : counters * list message :=
  let '(c, queue) :=
    fold_left (count_result show_log) results
      ({| processed_count := 0; skipped_exists_count := 0; failed_count := 0 |},
       []) in
  (c, (queue ++ [Summary (processed_count c) skipped_thumb_count
                         (skipped_exists_count c) (failed_count c)])%list).

(** Line 267: the generator [(process_single_file(task) for task in tasks)],
    each call starting from the file system the previous one left. *)
Fixpoint run_tasks (fs : filesystem) (tasks : list task)
  : filesystem * list result :=
  match tasks with
  | [] => (fs, [])
  | task :: tasks' =>
      let '(fs1, r) := process_single_file L fs task in
      let '(fs2, rs) := run_tasks fs1 tasks' in
      (fs2, r :: rs)
  end.

(** Lines 266-268. *)
Definition run_single_process (show_log : bool) (fs : filesystem)
    (tasks : list task) (skipped_thumb_count : nat)
  : filesystem * (counters * list message) :=
  let '(fs', results) := run_tasks fs tasks in
  (fs', process_results show_log results skipped_thumb_count).

End Manager.

(** ** 3. The process pool ([App.run_multiprocessing])

    [multiprocessing.Pool] runs [process_single_file] in several processes at
    once, on one file system. A process is then observed between its calls
    to the file system: [worker] says which call comes next and holds the
    local variables that are still needed, [worker_step] makes that call and
    runs the code up to the next one. Each call is atomic (the opening of a
    file and the reading or writing of its bytes count as one call); the
    calls of different processes interleave in any order. *)

Inductive worker :=
| AtRead (args : task)
| AtMakedirs (args : task) (output_bytes : bytes)
    (new_filename output_folder_for_this_file : string)
| AtExists (args : task) (output_bytes : bytes) (new_filename output_path : string)
| AtRenameExists (args : task) (output_bytes : bytes) (name_part ext_part : string)
    (counter : N)
| AtWrite (args : task) (output_bytes : bytes) (output_path : string)
| Returned (r : result).

(** What [pool.imap_unordered(process_single_file, tasks)] is made of: the
    tasks not yet handed out, the processes of the pool (idle, or inside a
    call of [process_single_file]), and the results that the iterator has
    yielded, in the order it yielded them. *)
Record pool := {
  pending : list task;
  processes : list (option worker);
  delivered : list result
}.

Section Pool.

Variable L : library.

(** Line 91, in a process of the pool. *)
Definition failed (args : task) (e : exn) : worker :=
  Returned (FAILURE, failure_message (posixpath.basename (task_full_path args)) e).

(** [process_single_file] from one call to the file system to the next:
    line 28 (with lines 29-68), line 69 (with line 70), line 72 (with lines
    73-77), line 80 (with lines 79-83), line 85 (with lines 86-88). *)
Definition worker_step (fs : filesystem) (w : worker) : filesystem * worker :=
  match w with
  | AtRead args =>
      let '(full_path, output_root_folder, filename_format, _, root_folder, _) :=
        args in
      let filename := posixpath.basename full_path in
      match os.read_file (os_refuses_read L fs full_path) fs full_path with
      | inl e => (fs, failed args e)
      | inr original_bytes =>
      let exif_dict := load_exif L original_bytes in
      match make_thumbnail L filename original_bytes with
      | inl e => (fs, failed args e)
      | inr (inl early) => (fs, Returned early)
      | inr (inr thumb_buf) =>
      match embed_thumbnail L original_bytes exif_dict thumb_buf with
      | inl e => (fs, failed args e)
      | inr output_bytes =>
      let new_filename := output_filename filename filename_format in
      match output_folder L full_path output_root_folder root_folder with
      | inl e => (fs, failed args e)
      | inr output_folder_for_this_file =>
          (fs, AtMakedirs args output_bytes new_filename
                          output_folder_for_this_file)
      end end end end
  | AtMakedirs args output_bytes new_filename output_folder_for_this_file =>
      match os.makedirs (os_refuses_mkdir L fs output_folder_for_this_file)
                        fs output_folder_for_this_file with
      | inl e => (fs, failed args e)
      | inr fs1 =>
          (fs1, AtExists args output_bytes new_filename
                  (posixpath.join output_folder_for_this_file new_filename))
      end
  | AtExists args output_bytes new_filename output_path =>
      if os.path_exists fs output_path then
        if String.eqb (task_conflict_resolution args) "skip" then
          (fs, Returned (SKIPPED_EXISTS, "已跳过 (文件已存在): " +:+ new_filename))
        else if String.eqb (task_conflict_resolution args) "rename" then
          let '(name_part, ext_part) := posixpath.splitext output_path in
          (fs, AtRenameExists args output_bytes name_part ext_part 2)
        else (fs, AtWrite args output_bytes output_path)
      else (fs, AtWrite args output_bytes output_path)
  | AtRenameExists args output_bytes name_part ext_part counter =>
      let new_output_path := candidate name_part ext_part counter in
      if negb (os.path_exists fs new_output_path)
      then (fs, AtWrite args output_bytes new_output_path)
      else (fs, AtRenameExists args output_bytes name_part ext_part (counter + 1))
  | AtWrite args output_bytes output_path =>
      match os.write_file (os_refuses_write L fs output_path)
                          fs output_path output_bytes with
      | inl e => (fs, failed args e)
      | inr fs2 =>
          (fs2, Returned (SUCCESS,
                          success_message
                            (posixpath.basename (task_full_path args)) output_path))
      end
  | Returned r => (fs, Returned r)
  end.

(** [multiprocessing.Pool(processes=num_processes)] with the iterator of
    line 261 on [tasks]. *)
Definition pool_start (num_processes : nat) (tasks : list task) : pool :=
  {| pending := tasks; processes := replicate num_processes None; delivered := [] |}.

(** One move of process [i]: an idle process takes the next task, a process
    inside [process_single_file] makes its next call to the file system, a
    process that has returned hands its result to the iterator and is idle
    again. *)
Definition pool_step (i : nat) (st : filesystem * pool) : filesystem * pool :=
  let '(fs, p) := st in
  match processes p !! i with
  | None => st
  | Some None =>
      match pending p with
      | [] => st
      | task :: tasks' =>
          (fs, {| pending := tasks';
                  processes := <[i := Some (AtRead task)]> (processes p);
                  delivered := delivered p |})
      end
  | Some (Some (Returned r)) =>
      (fs, {| pending := pending p;
              processes := <[i := None]> (processes p);
              delivered := (delivered p ++ [r])%list |})
  | Some (Some w) =>
      let '(fs', w') := worker_step fs w in
      (fs', {| pending := pending p;
               processes := <[i := Some w']> (processes p);
               delivered := delivered p |})
  end.

(** The pool under a schedule: the list of the processes that move, in the
    order in which they do. *)
Definition pool_run (schedule : list nat) (st : filesystem * pool)
  : filesystem * pool :=
  fold_left (fun st i => pool_step i st) schedule st.

(** The iterator is exhausted: every task was handed out and every result
    was yielded. *)
Definition pool_finished (p : pool) : bool :=
  match pending p with
  | [] => forallb (fun process : option worker =>
                     match process with None => true | Some _ => false end)
                  (processes p)
  | _ :: _ => false
  end.

(** Lines 258-264. [pool_error] is the exception that the creation of the
    pool raises, if it does; [multiprocessing.Pool] itself refuses a number
    of processes below one. What is returned is the file system and the
    messages put once the processes have moved as [schedule] says: the
    summary is among them when the iterator was exhausted. *)
Definition run_multiprocessing (pool_error : option exn) (schedule : list nat)
    (show_log : bool) (fs : filesystem) (tasks : list task)
    (skipped_thumb_count : nat) (num_processes : Z)
  : filesystem * list message :=
  let pool_error :=
    if (num_processes <? 1)%Z
    then Some "Number of processes must be at least 1"
    else pool_error in
  match pool_error with
  | Some e => (fs, [Line ("!!! 多进程错误: " +:+ e +:+ " !!!")])
  | None =>
      let '(fs', p) :=
        pool_run schedule (fs, pool_start (Z.to_nat num_processes) tasks) in
      if pool_finished p
      then (fs', (process_results show_log (delivered p) skipped_thumb_count).2)
      else (fs', (fold_left (count_result show_log) (delivered p)
                    ({| processed_count := 0; skipped_exists_count := 0;
                        failed_count := 0 |}, [])).2)
  end.

End Pool.

(** ** 4. The window ([App]) *)

(** [tk.NORMAL] and [tk.DISABLED]. *)
Inductive widget_state := NORMAL | DISABLED.

(** The widgets and variables of [App] that the methods read or change. *)
Record App := {
  input_path_label : string;
  output_path_label : string;
  filename_format_entry : string;
  conflict_resolution_var : string;
  use_multiprocessing_var : bool;
  cpu_count_var : Z;
  cpu_scaler_to : Z;
  cpu_scaler_state : widget_state;
  show_log_var : bool;
  start_button_state : widget_state;
  start_button_text : string;
  status_text : string;
  status_queue : list string
}.

(** [input_path_label.config(text=...)] *)
Definition set_input_path_label (text : string) (a : App) : App :=
  {| input_path_label := text;
     output_path_label := output_path_label a;
     filename_format_entry := filename_format_entry a;
     conflict_resolution_var := conflict_resolution_var a;
     use_multiprocessing_var := use_multiprocessing_var a;
     cpu_count_var := cpu_count_var a;
     cpu_scaler_to := cpu_scaler_to a;
     cpu_scaler_state := cpu_scaler_state a;
     show_log_var := show_log_var a;
     start_button_state := start_button_state a;
     start_button_text := start_button_text a;
     status_text := status_text a;
     status_queue := status_queue a |}.

(** [output_path_label.config(text=...)] *)
Definition set_output_path_label (text : string) (a : App) : App :=
  {| input_path_label := input_path_label a;
     output_path_label := text;
     filename_format_entry := filename_format_entry a;
     conflict_resolution_var := conflict_resolution_var a;
     use_multiprocessing_var := use_multiprocessing_var a;
     cpu_count_var := cpu_count_var a;
     cpu_scaler_to := cpu_scaler_to a;
     cpu_scaler_state := cpu_scaler_state a;
     show_log_var := show_log_var a;
     start_button_state := start_button_state a;
     start_button_text := start_button_text a;
     status_text := status_text a;
     status_queue := status_queue a |}.

(** [cpu_scaler.config(state=...)] *)
Definition set_cpu_scaler_state (state : widget_state) (a : App) : App :=
  {| input_path_label := input_path_label a;
     output_path_label := output_path_label a;
     filename_format_entry := filename_format_entry a;
     conflict_resolution_var := conflict_resolution_var a;
     use_multiprocessing_var := use_multiprocessing_var a;
     cpu_count_var := cpu_count_var a;
     cpu_scaler_to := cpu_scaler_to a;
     cpu_scaler_state := state;
     show_log_var := show_log_var a;
     start_button_state := start_button_state a;
     start_button_text := start_button_text a;
     status_text := status_text a;
     status_queue := status_queue a |}.

(** [start_button.config(state=..., text=...)] *)
Definition set_start_button (state : widget_state) (text : string) (a : App) : App :=
  {| input_path_label := input_path_label a;
     output_path_label := output_path_label a;
     filename_format_entry := filename_format_entry a;
     conflict_resolution_var := conflict_resolution_var a;
     use_multiprocessing_var := use_multiprocessing_var a;
     cpu_count_var := cpu_count_var a;
     cpu_scaler_to := cpu_scaler_to a;
     cpu_scaler_state := cpu_scaler_state a;
     show_log_var := show_log_var a;
     start_button_state := state;
     start_button_text := text;
     status_text := status_text a;
     status_queue := status_queue a |}.

(** [start_button.config(text=...)] *)
Definition set_start_button_text (text : string) (a : App) : App :=
  {| input_path_label := input_path_label a;
     output_path_label := output_path_label a;
     filename_format_entry := filename_format_entry a;
     conflict_resolution_var := conflict_resolution_var a;
     use_multiprocessing_var := use_multiprocessing_var a;
     cpu_count_var := cpu_count_var a;
     cpu_scaler_to := cpu_scaler_to a;
     cpu_scaler_state := cpu_scaler_state a;
     show_log_var := show_log_var a;
     start_button_state := start_button_state a;
     start_button_text := text;
     status_text := status_text a;
     status_queue := status_queue a |}.

(** The content of the log window after an insertion or a deletion. *)
Definition set_status_text (text : string) (a : App) : App :=
  {| input_path_label := input_path_label a;
     output_path_label := output_path_label a;
     filename_format_entry := filename_format_entry a;
     conflict_resolution_var := conflict_resolution_var a;
     use_multiprocessing_var := use_multiprocessing_var a;
     cpu_count_var := cpu_count_var a;
     cpu_scaler_to := cpu_scaler_to a;
     cpu_scaler_state := cpu_scaler_state a;
     show_log_var := show_log_var a;
     start_button_state := start_button_state a;
     start_button_text := start_button_text a;
     status_text := text;
     status_queue := status_queue a |}.

(** The queue after a [put] or a [get]. *)
Definition set_status_queue (queue : list string) (a : App) : App :=
  {| input_path_label := input_path_label a;
     output_path_label := output_path_label a;
     filename_format_entry := filename_format_entry a;
     conflict_resolution_var := conflict_resolution_var a;
     use_multiprocessing_var := use_multiprocessing_var a;
     cpu_count_var := cpu_count_var a;
     cpu_scaler_to := cpu_scaler_to a;
     cpu_scaler_state := cpu_scaler_state a;
     show_log_var := show_log_var a;
     start_button_state := start_button_state a;
     start_button_text := start_button_text a;
     status_text := status_text a;
     status_queue := queue |}.

(** [status_queue.put(message)] *)
Definition put (message : string) (a : App) : App :=
  set_status_queue (status_queue a ++ [message])%list a.

Definition newline : string := String "010"%char EmptyString.

(** Lines 247-255. [duration] is the text of [{duration:.3f}]. *)
Definition summary_text (duration : string)
    (processed_count skipped_thumb_count skipped_exists_count failed_count : nat)
  : string :=
  newline +:+ "--- 所有文件处理完毕 ---" +:+ newline +:+ newline +:+
  "总结:" +:+ newline +:+
  "  - 已处理: " +:+ pretty processed_count +:+ " 个文件" +:+ newline +:+
  "  - 已跳过 (已有缩略图): " +:+ pretty skipped_thumb_count +:+ " 个文件" +:+ newline +:+
  "  - 已跳过 (输出文件已存在): " +:+ pretty skipped_exists_count +:+ " 个文件" +:+ newline +:+
  "  - 失败: " +:+ pretty failed_count +:+ " 个文件" +:+ newline +:+
  "  - 总耗时: " +:+ duration +:+ " 秒".

(** The string that [status_queue.put] receives. *)
Definition message_text (duration : string) (m : message) : string :=
  match m with
  | Line text => text
  | Summary processed skipped_thumb skipped_exists failed =>
      summary_text duration processed skipped_thumb skipped_exists failed
  end.

(** Lines 169-170. *)
Definition toggle_cpu_scaler (a : App) : App :=
  set_cpu_scaler_state (if use_multiprocessing_var a then NORMAL else DISABLED) a.

(** Lines 99-167: the window as [__init__] leaves it. [cpu_count] is what
    [os.cpu_count()] returns. *)
Definition init (cpu_count : option N) : App :=
  let max_cpus :=
    match cpu_count with
    | Some n => if (n =? 0)%N then 1%Z else Z.of_N n
    | None => 1%Z
    end in
  let default_cpus := Z.min 8 max_cpus in
  toggle_cpu_scaler
    {| input_path_label := "尚未选择";
       output_path_label := "尚未选择";
       filename_format_entry := "{Filename}-thumb";
       conflict_resolution_var := "skip";
       use_multiprocessing_var := true;
       cpu_count_var := default_cpus;
       cpu_scaler_to := max_cpus;
       cpu_scaler_state := NORMAL;
       show_log_var := false;
       start_button_state := NORMAL;
       start_button_text := "开始处理";
       status_text := "";
       status_queue := [] |}.

(** Lines 172-174. [folder_path] is what [filedialog.askdirectory] returns:
    the empty string when the dialog is cancelled. *)
Definition select_input_folder (folder_path : string) (a : App) : App :=
  if String.eqb folder_path "" then a else set_input_path_label folder_path a.

(** Lines 176-178. *)
Definition select_output_folder (folder_path : string) (a : App) : App :=
  if String.eqb folder_path "" then a else set_output_path_label folder_path a.

(** Lines 270-281: one run of the timer's callback. Line 282 schedules the
    next one. *)
Definition check_queue (a : App) : App :=
  match status_queue a with
  | [] => a
  | message :: queue =>
      let a := set_status_queue queue a in
      let a := set_status_text (status_text a +:+ message +:+ newline) a in
      if pystr.contains message "所有文件处理完毕"
         || pystr.startswith message "!!!"
         || pystr.startswith message "错误:"
      then set_start_button NORMAL "开始处理" a
      else a
  end.

Section StartProcessing.

Variable L : library.

(** Lines 183-229. [walk] is what [os.walk(input_path)] yields, [pool_error]
    and [schedule] are those of [run_multiprocessing], [duration] is the text
    of the elapsed time in the summary. *)
Definition start_processing
    (walk : list (string * list string * list string))
    (pool_error : option exn) (schedule : list nat) (duration : string)
    (fs : filesystem) (a : App) : filesystem * App :=
  let input_path := input_path_label a in
  let output_path := output_path_label a in
  let filename_format := filename_format_entry a in
  let conflict_resolution := conflict_resolution_var a in
  let show_log := show_log_var a in
  if negb (os.isdir fs input_path) || negb (os.isdir fs output_path) then
    (fs, put "错误: 请输入有效的输入和输出文件夹路径。" a)
  else
    let a := set_start_button DISABLED "正在扫描文件..." a in
    let a := set_status_text "" a in
    let '(tasks, skipped_thumb_count) :=
      scan L fs walk output_path filename_format conflict_resolution input_path
           show_log in
    let a :=
      put ("扫描完成，发现 " +:+ pretty (length tasks) +:+ " 个文件需要处理，" +:+
           pretty skipped_thumb_count +:+ " 个文件因已有缩略图被跳过。") a in
    let a := set_start_button_text "正在处理中..." a in
    let use_mp := use_multiprocessing_var a in
    let num_processes := cpu_count_var a in
    let '(fs', messages) :=
      if use_mp then
        run_multiprocessing L pool_error schedule (show_log_var a) fs tasks
                            skipped_thumb_count num_processes
      else
        let '(fs', (_, messages)) :=
          run_single_process L (show_log_var a) fs tasks skipped_thumb_count in
        (fs', messages) in
    (fs', fold_left (fun a m => put (message_text duration m) a) messages a).

End StartProcessing.

(** The timer: [n] runs of [check_queue]. *)
Definition ticks (n : nat) (a : App) : App := Nat.iter n check_queue a.

(** ** Notions used in the statements *)

Definition valid_status (s : string) : Prop :=
  s = SUCCESS \/ s = SKIPPED_EXISTS \/ s = FAILURE.

(** [exif_dict.get("thumbnail") is not None] *)
Definition thumbnail_present (exif_dict : exif_container) : Prop :=
  exists v, exif_dict !! "thumbnail" = Some v /\ v <> Thumbnail None.

(** The file names of a walk, each with its folder, in the order of the two
    loops. *)
Definition walk_files (walk : list (string * list string * list string))
  : list (string * string) :=
  flat_map (fun '(current_folder, _, filenames) =>
              map (fun filename => (current_folder, filename)) filenames) walk.

(** The test of line 204. *)
Definition is_jpg_name (filename : string) : bool :=
  pystr.endswith_any (pystr.lower filename) [".jpg"; ".jpeg"].

(** The library with another [piexif.load]. *)
Definition with_load (L : library)
    (load : bytes -> exn + exif_container) : library :=
  {| piexif_load := load; piexif_dump := piexif_dump L;
     piexif_insert := piexif_insert L; cv2_imdecode := cv2_imdecode L;
     cv2_resize := cv2_resize L; cv2_imencode := cv2_imencode L;
     os_path_relpath := os_path_relpath L;
     os_refuses_read := os_refuses_read L;
     os_refuses_write := os_refuses_write L;
     os_refuses_mkdir := os_refuses_mkdir L |}.

(** The system lets every file be read and written and every directory be
    made. *)
Definition os_never_refuses (L : library) : Prop :=
  forall fs p,
    os_refuses_read L fs p = None /\ os_refuses_write L fs p = None /\
    os_refuses_mkdir L fs p = None.

(** The status of a second run under ["skip"], given the status of the
    first. *)
Definition second_status (s : string) : string :=
  if String.eqb s FAILURE then FAILURE else SKIPPED_EXISTS.

(** The number of results with a given status. *)
Definition count_status (s : string) (results : list result) : nat :=
  length (filter (fun r : result => r.1 = s) results).

(** The name written by the [k]-th run under ["rename"] when the destination
    and its numbered variants are free at the start: the destination itself,
    then the candidates 2, 3, ... *)
Definition nth_name (output_path : string) (k : nat) : string :=
  match k with
  | 0 | 1 => output_path
  | _ => candidate (posixpath.splitext output_path).1
                   (posixpath.splitext output_path).2 (N.of_nat k)
  end.

(** [fs1] with the first [n] of these names holding [output_bytes]. *)
Fixpoint after_runs (fs1 : filesystem) (output_path : string)
    (output_bytes : bytes) (n : nat) : filesystem :=
  match n with
  | O => fs1
  | S m => <[nth_name output_path (S m) := File output_bytes]>
             (after_runs fs1 output_path output_bytes m)
  end.

(** ** Notions used in the statements about the window *)

(** The test of line 278. *)
Definition ends_run (message : string) : bool :=
  pystr.contains message "所有文件处理完毕"
  || pystr.startswith message "!!!"
  || pystr.startswith message "错误:".

(** What the log window shows of a list of messages: each one followed by a
    newline. *)
Definition log_lines (messages : list string) : string :=
  fold_right (fun message rest => message +:+ newline +:+ rest) "" messages.

(** The message of line 219. *)
Definition scan_report (tasks skipped_thumb_count : nat) : string :=
  "扫描完成，发现 " +:+ pretty tasks +:+ " 个文件需要处理，" +:+
  pretty skipped_thumb_count +:+ " 个文件因已有缩略图被跳过。".

(** ** Notions used in the statements about the pool *)

Section PoolNotions.

Variable L : library.

(** Lines 85-91 from the write on. *)
Definition write_and_return (fs : filesystem) (args : task) (output_bytes : bytes)
    (output_path : string) : filesystem * result :=
  let filename := posixpath.basename (task_full_path args) in
  match os.write_file (os_refuses_write L fs output_path)
                      fs output_path output_bytes with
  | inl e => (fs, (FAILURE, failure_message filename e))
  | inr fs2 => (fs2, (SUCCESS, success_message filename output_path))
  end.

(** Lines 72-91 from the conflict check on. *)
Definition check_and_return (fs : filesystem) (args : task) (output_bytes : bytes)
    (new_filename output_path : string) : filesystem * result :=
  let filename := posixpath.basename (task_full_path args) in
  match write_output L fs filename (task_conflict_resolution args) output_bytes
                     new_filename output_path with
  | (fs', inr r) => (fs', r)
  | (fs', inl e) => (fs', (FAILURE, failure_message filename e))
  end.

(** What a process returns, and the file system it leaves, when it runs
    from where it is to its [return] with no other process moving. *)
Definition worker_finish (fs : filesystem) (w : worker) : filesystem * result :=
  match w with
  | AtRead args => process_single_file L fs args
  | AtMakedirs args output_bytes new_filename output_folder_for_this_file =>
      match os.makedirs (os_refuses_mkdir L fs output_folder_for_this_file)
                        fs output_folder_for_this_file with
      | inl e =>
          (fs, (FAILURE,
                failure_message (posixpath.basename (task_full_path args)) e))
      | inr fs1 =>
          check_and_return fs1 args output_bytes new_filename
            (posixpath.join output_folder_for_this_file new_filename)
      end
  | AtExists args output_bytes new_filename output_path =>
      check_and_return fs args output_bytes new_filename output_path
  | AtRenameExists args output_bytes name_part ext_part counter =>
      match rename_loop (S (size fs)) fs name_part ext_part counter with
      | Some new_output_path => write_and_return fs args output_bytes new_output_path
      | None =>
          write_and_return fs args output_bytes
                           (candidate name_part ext_part counter)
      end
  | AtWrite args output_bytes output_path =>
      write_and_return fs args output_bytes output_path
  | Returned r => (fs, r)
  end.

End PoolNotions.

(** A process is busy from the task it took to the result it hands over. *)
Definition busy (process : option worker) : bool :=
  match process with
  | Some _ => true
  | None => false
  end.

(** The policies under which the program looks before it writes. *)
Definition careful (t : task) : Prop :=
  task_conflict_resolution t = "skip" \/ task_conflict_resolution t = "rename".

(** Only ASCII characters. *)
Fixpoint ascii_only (s : string) : bool :=
  match s with
  | EmptyString => true
  | String c s' => (N_of_ascii c <? 128)%N && ascii_only s'
  end.

(** What the user has set in the window. *)
Definition settings (a : App)
  : string * string * string * string * bool * Z * bool :=
  (input_path_label a, output_path_label a, filename_format_entry a,
   conflict_resolution_var a, use_multiprocessing_var a, cpu_count_var a,
   show_log_var a).

(** [t] and [m] agree as far as the shorter one goes. *)
Definition agree (t m : string) : bool := pystr.startswith t m || pystr.startswith m t.

(** No occurrence of [m] can start inside [c], whatever follows [c]. *)
Fixpoint clear_of (c m : string) : bool :=
  match c with
  | EmptyString => true
  | String x c' => negb (agree c m) && clear_of c' m
  end.

(** ** A small library to run the definitions on

    A stand-in for [piexif] and [cv2] on a miniature file format: the first
    byte says what EXIF the file carries ([01]: EXIF without thumbnail,
    [02]: EXIF with a thumbnail, [03]: EXIF with Orientation 6 and no
    thumbnail, anything else: no readable EXIF), the second and third bytes
    are the width and the height, the rest is the pixel data. It is used for
    the concrete runs below and for nothing else. *)

Module Sample.

Import Byte.

Definition byte_of_Z (z : Z) : byte :=
  match Byte.of_N (Z.to_N z) with
  | Some b => b
  | None => x00
  end.

Definition load (data : bytes) : exn + exif_container :=
  match data with
  | x01 :: _ => ok empty_exif
  | x02 :: _ => ok (<["thumbnail" := Thumbnail (Some [xff; xd8])]> empty_exif)
  | x03 :: _ =>
      ok (<["0th" := Ifd (<[Orientation := TagInt 6]> ∅)]> empty_exif)
  | _ => raise "Given data isn't JPEG."
  end.

Definition dump (exif_dict : exif_container) : exn + bytes :=
  match exif_dict !! "thumbnail" with
  | Some (Thumbnail (Some _)) => ok [x02]
  | _ => ok [x01]
  end.

Definition insert (exif image : bytes) : exn + bytes :=
  match exif, image with
  | e :: _, _ :: rest => ok (e :: rest)
  | [], _ => raise "Given data is not exif data"
  | _, [] => raise "Given file is neither JPEG nor TIFF."
  end.

Definition imdecode (data : bytes) : exn + option image :=
  match data with
  | _ :: w :: h :: pixels =>
      ok (Some {| img_height := Byte.to_N h; img_width := Byte.to_N w;
                  img_pixels := pixels |})
  | _ => ok None
  end.

Definition resize (img : image) (size : Z * Z) : exn + image :=
  let '(new_width, new_height) := size in
  if ((0 <? new_width) && (0 <? new_height))%Z
  then ok {| img_height := Z.to_N new_height; img_width := Z.to_N new_width;
             img_pixels := [] |}
  else raise "(-215:Assertion failed) !dsize.empty() in function 'resize'".

Definition imencode (ext : string) (img : image) : exn + (bool * bytes) :=
  ok (true, [byte_of_Z (Z.of_N (img_width img));
             byte_of_Z (Z.of_N (img_height img))]).

Definition relpath (path start : string) : exn + string :=
  if String.eqb path start then ok "." else ok path.

Definition lib : library :=
  {| piexif_load := load; piexif_dump := dump; piexif_insert := insert;
     cv2_imdecode := imdecode; cv2_resize := resize; cv2_imencode := imencode;
     os_path_relpath := relpath;
     os_refuses_read := fun _ _ => None;
     os_refuses_write := fun _ _ => None;
     os_refuses_mkdir := fun _ _ => None |}.

(** The same on a system where the folder [out] cannot be written to. *)
Definition lib_read_only : library :=
  {| piexif_load := load; piexif_dump := dump; piexif_insert := insert;
     cv2_imdecode := imdecode; cv2_resize := resize; cv2_imencode := imencode;
     os_path_relpath := relpath;
     os_refuses_read := fun _ _ => None;
     os_refuses_write := fun _ p =>
       if pystr.startswith p "out/"
       then Some ("[Errno 13] Permission denied: '" +:+ p +:+ "'")
       else None;
     os_refuses_mkdir := fun _ _ => None |}.

(** What [insert] leaves alone: everything after the EXIF byte. *)
Definition pixel_data (data : bytes) : bytes := tail data.

(** A 40 by 30 picture with EXIF and no thumbnail. *)
Definition picture : bytes := [x01; x28; x1e; xaa; xbb; xcc].

(** The same picture without readable EXIF. *)
Definition picture_no_exif : bytes := [x00; x28; x1e; xaa; xbb; xcc].

(** The same picture with Orientation 6. *)
Definition picture_rotated : bytes := [x03; x28; x1e; xaa; xbb; xcc].

(** A file that is not an image. *)
Definition garbage : bytes := [x00].

Definition task_for (full_path conflict_resolution : string) : task :=
  (full_path, "out", "{Filename}-thumb", conflict_resolution, "in", false).

(** A file system with three inputs and an empty output folder. *)
Definition fs0 : filesystem :=
  <["in/a.jpg" := File picture]>
    (<["in/b.jpg" := File picture_rotated]>
       (<["in/c.jpg" := File picture_no_exif]>
          (<["in" := Dir]> (<["out" := Dir]> ∅)))).

(** The same with the destination of ["in/a.jpg"] already there. *)
Definition fs_taken : filesystem :=
  <["out/./a-thumb.jpg" := File garbage]> (<["out/." := Dir]> fs0).

(** Two tasks whose template has no placeholder: both map to
    ["out/./thumb.jpg"]. *)
Definition colliding_tasks : list task :=
  [("in/a.jpg", "out", "thumb", "skip", "in", false);
   ("in/b.jpg", "out", "thumb", "skip", "in", false)].

(** The three inputs as [os.walk] yields them, with a file that is no
    picture. *)
Definition walk : list (string * list string * list string) :=
  [("in", [], ["a.jpg"; "b.jpg"; "c.jpg"; "notes.txt"])].

(** The window with the two folders chosen and the pool switched off. *)
Definition window_single : App :=
  {| input_path_label := "in";
     output_path_label := "out";
     filename_format_entry := "{Filename}-thumb";
     conflict_resolution_var := "skip";
     use_multiprocessing_var := false;
     cpu_count_var := 4;
     cpu_scaler_to := 4;
     cpu_scaler_state := DISABLED;
     show_log_var := false;
     start_button_state := NORMAL;
     start_button_text := "开始处理";
     status_text := "";
     status_queue := [] |}.

(** The same with a pool of two processes. *)
Definition window_pool : App :=
  {| input_path_label := "in";
     output_path_label := "out";
     filename_format_entry := "{Filename}-thumb";
     conflict_resolution_var := "skip";
     use_multiprocessing_var := true;
     cpu_count_var := 2;
     cpu_scaler_to := 4;
     cpu_scaler_state := NORMAL;
     show_log_var := false;
     start_button_state := NORMAL;
     start_button_text := "开始处理";
     status_text := "";
     status_queue := [] |}.

(** Two processes that move in turn, twelve times each. *)
Definition in_turn : list nat := concat (replicate 12 [0; 1]).

End Sample.

(** * Facts

    ** Rounding *)

Module Float64Facts.

Import Float64.
Local Open Scope Q_scope.

Lemma pow2_pos e : 0 < pow2 e.
Proof. unfold pow2. apply Qpower_0_lt. reflexivity. Qed.

Lemma pow2_add a b : pow2 (a + b) == pow2 a * pow2 b.
Proof. unfold pow2. apply Qpower_plus. discriminate. Qed.

Lemma pow2_inject e : (0 <= e)%Z -> pow2 e == inject_Z (2 ^ e).
Proof. intros H. unfold pow2. rewrite Zpower_Qpower by assumption. reflexivity. Qed.

Lemma log2_bounds (n : Z) :
  (0 < n)%Z -> pow2 (Z.log2 n) <= inject_Z n /\ inject_Z n < pow2 (Z.log2 n + 1).
Proof.
  intros Hn. destruct (Z.log2_spec n Hn) as [H1 H2].
  pose proof (Z.log2_nonneg n) as H0.
  rewrite !pow2_inject by lia. split.
  - rewrite <- Zle_Qle. exact H1.
  - rewrite <- Zlt_Qlt. replace (Z.log2 n + 1)%Z with (Z.succ (Z.log2 n)) by lia. exact H2.
Qed.

(** [floor_log2] brackets a positive number between two powers of 2. *)
Lemma floor_log2_spec x :
  0 < x -> pow2 (floor_log2 x) <= x /\ x < pow2 (floor_log2 x + 1).
Proof.
  intros Hx. destruct x as [n d].
  assert (Hn : (0 < n)%Z). { unfold Qlt in Hx. simpl in Hx. lia. }
  unfold floor_log2. cbn [Qnum Qden].
  set (a := Z.log2 n). set (b := Z.log2 (Z.pos d)).
  destruct (log2_bounds n Hn) as [Ha1 Ha2].
  destruct (log2_bounds (Z.pos d) eq_refl) as [Hb1 Hb2].
  fold a in Ha1, Ha2. fold b in Hb1, Hb2.
  assert (Hx' : (n # d) * inject_Z (Z.pos d) == inject_Z n).
  { unfold Qeq, Qmult, inject_Z; simpl. lia. }
  pose proof (pow2_add (a - b) b) as E1. replace (a - b + b)%Z with a in E1 by lia.
  pose proof (pow2_add a 1) as E2.
  pose proof (pow2_add b 1) as E3.
  pose proof (pow2_add (a - b - 1) 1) as E4. replace (a - b - 1 + 1)%Z with (a - b)%Z in E4 by lia.
  pose proof (pow2_add (a - b) 1) as E5.
  change (pow2 1) with 2 in *.
  pose proof (pow2_pos (a - b)) as P1. pose proof (pow2_pos b) as P2.
  pose proof (pow2_pos a) as P3. pose proof (pow2_pos (a - b - 1)) as P4.
  set (X := n # d) in *. set (D := inject_Z (Z.pos d)) in *. set (N := inject_Z n) in *.
  destruct (Qle_bool (pow2 (a - b)) X) eqn:Hc.
  - apply Qle_bool_iff in Hc. split; [exact Hc|].
    rewrite E5. nra.
  - assert (Hlt : X < pow2 (a - b)).
    { apply Qnot_le_lt. intros H. apply Qle_bool_iff in H. congruence. }
    replace (a - b - 1 + 1)%Z with (a - b)%Z by lia. split; [|exact Hlt].
    nra.
Qed.

(** The nearest integer is within a half. *)
Lemma rne_spec y :
  inject_Z (rne y) - (1 # 2) <= y /\ y <= inject_Z (rne y) + (1 # 2).
Proof.
  unfold rne. pose proof (Qfloor_le y) as H1. pose proof (Qlt_floor y) as H2.
  rewrite inject_Z_plus in H2. change (inject_Z 1) with 1 in H2.
  set (q := Qfloor y) in *.
  destruct (Qcompare_spec (y - inject_Z q) (1 # 2)) as [E|E|E].
  - destruct (Z.even q); [|rewrite inject_Z_plus; change (inject_Z 1) with 1]; lra.
  - lra.
  - rewrite inject_Z_plus; change (inject_Z 1) with 1. lra.
Qed.

(** One rounding: a relative error of at most [u]. *)
Lemma round_pos_spec x :
  0 < x -> x * (1 - u) <= round_pos x /\ round_pos x <= x * (1 + u).
Proof.
  intros Hx. unfold round_pos.
  destruct (floor_log2_spec x Hx) as [H1 _].
  set (e := (floor_log2 x - 52)%Z) in *.
  replace (floor_log2 x) with (e + 52)%Z in H1 by (unfold e; lia).
  rewrite pow2_add in H1.
  assert (E52 : pow2 52 == 4503599627370496) by reflexivity.
  rewrite E52 in H1.
  pose proof (pow2_pos e) as Pe.
  destruct (rne_spec (x / pow2 e)) as [R1 R2].
  rewrite Qred_correct.
  set (m := inject_Z (rne (x / pow2 e))) in *.
  assert (Ey : x / pow2 e * pow2 e == x).
  { field. intros H. rewrite H in Pe. inversion Pe. }
  set (y := x / pow2 e) in *. set (P := pow2 e) in *.
  unfold u. split; nra.
Qed.

Lemma round_spec x :
  0 < x -> x * (1 - u) <= round x /\ round x <= x * (1 + u).
Proof.
  intros Hx. unfold round. destruct x as [n d]. cbn [Qnum].
  destruct n; try (exfalso; unfold Qlt in Hx; simpl in Hx; lia).
  apply round_pos_spec. exact Hx.
Qed.

Lemma min_spec a b : (Float64.min a b == a /\ a <= b) \/ (Float64.min a b == b /\ b <= a).
Proof.
  unfold Float64.min. destruct (Qle_bool a b) eqn:E.
  - left. split; [reflexivity|]. now apply Qle_bool_iff.
  - right. split; [reflexivity|]. apply Qlt_le_weak, Qnot_le_lt. intros H.
    apply Qle_bool_iff in H. congruence.
Qed.

(** Three roundings (the ratio, the integer, the product) move a product of
    at most 160 by less than [delta]. *)
Lemma int_mul_spec (n : Z) (r ratio : Q) :
  (0 < n)%Z -> 0 < r -> r * (1 - u) <= ratio -> ratio <= r * (1 + u) ->
  inject_Z n * r <= 160 ->
  inject_Z n * r - delta <= int_mul n ratio /\ int_mul n ratio <= inject_Z n * r + delta.
Proof.
  intros Hn Hr H1 H2 Ht. unfold int_mul, mul, of_int.
  assert (Hn' : 0 < inject_Z n). { change 0 with (inject_Z 0). rewrite <- Zlt_Qlt. exact Hn. }
  destruct (round_spec (inject_Z n) Hn') as [W1 W2].
  set (wf := round (inject_Z n)) in *. set (N := inject_Z n) in *.
  assert (Hwf : 0 < wf). { unfold u in W1. nra. }
  assert (Hratio : 0 < ratio). { unfold u in H1. nra. }
  assert (Hp : 0 < wf * ratio) by nra.
  destruct (round_spec (wf * ratio) Hp) as [P1 P2].
  set (p := wf * ratio) in *. set (rp := round p) in *.
  set (t := N * r) in *.
  assert (Ht0 : 0 < t) by (unfold t; nra).
  assert (B1 : t * ((1 - u) * (1 - u)) <= p).
  { unfold p, t. unfold u in *. nra. }
  assert (B2 : p <= t * ((1 + u) * (1 + u))).
  { unfold p, t. unfold u in *. nra. }
  unfold u, delta in *. split; nra.
Qed.

(** Within [delta] of a fraction whose denominator is at most 2^31, the floor
    does not pass the fraction and stays within one of it: between two such
    fractions that differ there is more than [delta]. *)
Lemma floor_near (x : Q) (N : Z) (D : positive) :
  (Z.pos D <= 2147483648)%Z ->
  (N # D) - delta <= x -> x <= (N # D) + delta ->
  inject_Z (Qfloor x) <= N # D /\ N # D <= inject_Z (Qfloor x) + 1.
Proof.
  intros HD H1 H2.
  pose proof (Qfloor_le x) as F1. pose proof (Qlt_floor x) as F2.
  rewrite inject_Z_plus in F2. change (inject_Z 1) with 1 in F2.
  set (v := Qfloor x) in *.
  assert (HD' : inject_Z (Z.pos D) <= 2147483648).
  { change 2147483648 with (inject_Z 2147483648). rewrite <- Zle_Qle. exact HD. }
  assert (E : (N # D) * inject_Z (Z.pos D) == inject_Z N).
  { unfold Qeq, Qmult, inject_Z; simpl. lia. }
  assert (HDpos : 0 < inject_Z (Z.pos D)) by reflexivity.
  split.
  - destruct (Qlt_le_dec (N # D) (inject_Z v)) as [Hlt|]; [exfalso|assumption].
    assert (Hz : (N < v * Z.pos D)%Z).
    { unfold Qlt, inject_Z in Hlt. simpl in Hlt. lia. }
    assert (Hz' : inject_Z N + 1 <= inject_Z v * inject_Z (Z.pos D)).
    { rewrite <- inject_Z_mult. change 1 with (inject_Z 1). rewrite <- inject_Z_plus.
      rewrite <- Zle_Qle. lia. }
    unfold delta in *. set (d := inject_Z (Z.pos D)) in *. set (q := N # D) in *.
    set (iv := inject_Z v) in *. set (iN := inject_Z N) in *. nra.
  - destruct (Qlt_le_dec (inject_Z v + 1) (N # D)) as [Hlt|]; [exfalso|assumption].
    assert (Hz : ((v + 1) * Z.pos D < N)%Z).
    { unfold Qlt, inject_Z, Qplus in Hlt. simpl in Hlt. lia. }
    assert (Hz' : (inject_Z v + 1) * inject_Z (Z.pos D) + 1 <= inject_Z N).
    { change 1 with (inject_Z 1). rewrite <- inject_Z_plus, <- inject_Z_mult, <- inject_Z_plus.
      rewrite <- Zle_Qle. lia. }
    unfold delta in *. set (d := inject_Z (Z.pos D)) in *. set (q := N # D) in *.
    set (iv := inject_Z v) in *. set (iN := inject_Z N) in *. nra.
Qed.

Lemma int_mul_pos (n : Z) (ratio : Q) : (0 < n)%Z -> 0 < ratio -> 0 < int_mul n ratio.
Proof.
  intros Hn Hr. unfold int_mul, mul, of_int.
  assert (Hn' : 0 < inject_Z n). { change 0 with (inject_Z 0). rewrite <- Zlt_Qlt. exact Hn. }
  destruct (round_spec (inject_Z n) Hn') as [W1 _].
  set (wf := round (inject_Z n)) in *.
  assert (Hwf : 0 < wf). { unfold u in W1. nra. }
  assert (Hp : 0 < wf * ratio) by nra.
  destruct (round_spec (wf * ratio) Hp) as [P1 _].
  unfold u in P1. nra.
Qed.

Lemma to_int_pos x : 0 < x -> to_int x = Qfloor x.
Proof.
  intros H. unfold to_int.
  destruct (Qle_bool 0 x) eqn:E; [reflexivity|].
  exfalso. apply Qlt_le_weak, Qle_bool_iff in H. congruence.
Qed.

(** One dimension: [n] scaled by the ratio computed in floating point, against
    [n * r] for the exact ratio [r], a fraction with a denominator below 2^31. *)
Lemma scaled_dimension (n : Z) (r ratio : Q) (N : Z) (D : positive) :
  (0 < n)%Z -> 0 < r -> r * (1 - u) <= ratio -> ratio <= r * (1 + u) ->
  inject_Z n * r <= 160 -> inject_Z n * r == N # D -> (Z.pos D <= 2147483648)%Z ->
  let v := to_int (int_mul n ratio) in
  inject_Z v <= inject_Z n * r /\ inject_Z n * r <= inject_Z v + 1.
Proof.
  intros Hn Hr H1 H2 Ht E HD v.
  assert (Hratio : 0 < ratio). { unfold u in H1. nra. }
  destruct (int_mul_spec n r ratio Hn Hr H1 H2 Ht) as [B1 B2].
  subst v. rewrite to_int_pos by (apply int_mul_pos; assumption).
  rewrite E in *. apply floor_near; assumption.
Qed.

(** An integer within one below [t] is the floor of [t] or one less. *)
Lemma floor_between (v : Z) (t : Q) :
  inject_Z v <= t -> t <= inject_Z v + 1 -> (Qfloor t - 1 <= v <= Qfloor t)%Z.
Proof.
  intros H1 H2. split.
  - apply Qfloor_resp_le in H2.
    change 1 with (inject_Z 1) in H2. rewrite <- inject_Z_plus, Qfloor_Z in H2. lia.
  - apply Qfloor_resp_le in H1. rewrite Qfloor_Z in H1. exact H1.
Qed.

(** The ratio of line 42 against the exact [min(160/w, 120/h)]. *)
Lemma ratio_spec (w h : positive) :
  let r := Qmin (160 # w) (120 # h) in
  let ratio := Float64.min (round (160 # w)) (round (120 # h)) in
  0 < r /\ r * (1 - u) <= ratio /\ ratio <= r * (1 + u).
Proof.
  intros r ratio.
  assert (Ha : 0 < 160 # w) by reflexivity. assert (Hb : 0 < 120 # h) by reflexivity.
  destruct (round_spec _ Ha) as [A1 A2]. destruct (round_spec _ Hb) as [B1 B2].
  assert (Hr : 0 < r).
  { unfold r. destruct (Q.min_spec (160 # w) (120 # h)) as [[_ E]|[_ E]]; rewrite E; assumption. }
  split; [exact Hr|].
  pose proof (Q.le_min_l (160 # w) (120 # h)) as L1.
  pose proof (Q.le_min_r (160 # w) (120 # h)) as L2. fold r in L1, L2.
  assert (Hr' : r == (160 # w) \/ r == (120 # h)).
  { unfold r. destruct (Q.min_spec (160 # w) (120 # h)) as [[_ E]|[_ E]]; auto. }
  set (a := 160 # w) in *. set (b := 120 # h) in *.
  set (ra := round a) in *. set (rb := round b) in *.
  unfold u in *.
  destruct (min_spec ra rb) as [[E Hle]|[E Hle]]; fold ratio in E; rewrite E;
    destruct Hr' as [Er|Er]; split; nra.
Qed.

End Float64Facts.

(** The model and the kernel's floating-point unit give the same products for
    every size up to 64 by 64 and for a list of larger sizes, those of the
    examples below among them. *)
Example scaled_agrees_with_hardware :
  forallb (fun w => forallb (scaled_agree w) (map Pos.of_nat (seq 1 64)))
          (map Pos.of_nat (seq 1 64)) = true /\
  forallb (fun size : positive * positive => scaled_agree size.1 size.2)
    [(4000, 3000); (1920, 1080); (6000, 4000); (4032, 3024); (65535, 65535);
     (7479, 7434); (52155, 56915); (1, 65535); (65535, 1); (2147483647, 1);
     (1, 2147483647); (2147483647, 2147483647)]%positive = true.
Proof. split; vm_compute; reflexivity. Qed.

(** ** Strings and paths *)

Example basename_ex : posixpath.basename "in/sub/IMG_1.JPG" = "IMG_1.JPG".
Proof. reflexivity. Qed.

Example dirname_ex : posixpath.dirname "in/sub/IMG_1.JPG" = "in/sub".
Proof. reflexivity. Qed.

Example splitext_ex : posixpath.splitext "out/a.b/x.tar.gz" = ("out/a.b/x.tar", ".gz").
Proof. reflexivity. Qed.

Example splitext_hidden : posixpath.splitext "out/.profile" = ("out/.profile", "").
Proof. reflexivity. Qed.

Example splitext_noext : posixpath.splitext "out.d/readme" = ("out.d/readme", "").
Proof. reflexivity. Qed.

Example join_ex : posixpath.join "out" "." = "out/.".
Proof. reflexivity. Qed.

Example replace_ex :
  pystr.replace "{Filename}-thumb" "{Filename}" "IMG_1" = "IMG_1-thumb".
Proof. reflexivity. Qed.

Example endswith_ex :
  pystr.endswith_any (pystr.lower "IMG_1.JPG") [".jpg"; ".jpeg"] = true.
Proof. reflexivity. Qed.

Lemma string_length_app (a b : string) :
  String.length (a +:+ b) = (String.length a + String.length b)%nat.
Proof. induction a as [|c a IH]; simpl; [reflexivity | f_equal; exact IH]. Qed.

Lemma string_app_cons (x : ascii) (a b : string) : String x a +:+ b = String x (a +:+ b).
Proof. reflexivity. Qed.

Lemma string_app_assoc (a b c : string) : (a +:+ b) +:+ c = a +:+ (b +:+ c).
Proof.
  induction a as [|x a IH]; [reflexivity|].
  rewrite !string_app_cons. f_equal. exact IH.
Qed.

Lemma string_app_inj_r (a b t : string) : a +:+ t = b +:+ t -> a = b.
Proof.
  revert b. induction a as [|x a IH]; intros [|y b] H.
  - reflexivity.
  - apply (f_equal String.length) in H. rewrite !string_length_app in H. simpl in H. lia.
  - apply (f_equal String.length) in H. rewrite !string_length_app in H. simpl in H. lia.
  - rewrite !string_app_cons in H. injection H as -> H. f_equal. now apply IH.
Qed.

Lemma endswith_spec (s suffix : string) :
  pystr.endswith s suffix = true <-> exists prefix, s = prefix +:+ suffix.
Proof.
  induction s as [|a s IH].
  - cbn [pystr.endswith]. rewrite orb_false_r, String.eqb_eq. split.
    + intros <-. by exists "".
    + intros [[|b prefix] H]; [exact H | discriminate].
  - cbn [pystr.endswith]. rewrite orb_true_iff, String.eqb_eq, IH. split.
    + intros [<- | [prefix ->]]; [by exists "" | by exists (String a prefix)].
    + intros [[|b prefix] H]; [by left|]. right. exists prefix.
      rewrite string_app_cons in H. by injection H.
Qed.

Lemma lower_app (a b : string) :
  pystr.lower (a +:+ b) = pystr.lower a +:+ pystr.lower b.
Proof.
  induction a as [|x a IH]; [reflexivity|].
  rewrite string_app_cons. cbn [pystr.lower]. rewrite string_app_cons. by f_equal.
Qed.

Lemma lower_app_inv (s a b : string) :
  pystr.lower s = a +:+ b ->
  exists a' b', s = a' +:+ b' /\ pystr.lower a' = a /\ pystr.lower b' = b.
Proof.
  revert s. induction a as [|x a IH]; intros s H.
  - by exists "", s.
  - destruct s as [|y s]; [discriminate|].
    cbn [pystr.lower] in H. rewrite string_app_cons in H. injection H as <- H.
    destruct (IH s H) as (a' & b' & -> & <- & <-).
    by exists (String y a'), b'.
Qed.

(** The test of line 204: the name ends in an extension that is [.jpg] or
    [.jpeg] once its letters are put in lower case. *)
Lemma is_jpg_name_spec (filename : string) :
  is_jpg_name filename = true <->
  exists stem ext, filename = stem +:+ ext /\
    (pystr.lower ext = ".jpg" \/ pystr.lower ext = ".jpeg").
Proof.
  unfold is_jpg_name, pystr.endswith_any. cbn [existsb].
  rewrite orb_false_r, orb_true_iff, !endswith_spec. split.
  - intros [[prefix H] | [prefix H]]; apply lower_app_inv in H as (stem & ext & -> & _ & He);
      exists stem, ext; auto.
  - intros (stem & ext & -> & [He | He]); [left | right];
      exists (pystr.lower stem); by rewrite lower_app, He.
Qed.

Lemma candidate_inj name_part ext_part : Inj (=) (=) (candidate name_part ext_part).
Proof.
  intros j k H. unfold candidate in H.
  apply String.app_inj in H. apply (String.app_inj " (") in H.
  rewrite <- !string_app_assoc in H. apply string_app_inj_r in H. apply string_app_inj_r in H.
  now apply pretty_N_inj in H.
Qed.

Lemma candidate_neq name_part ext_part k :
  candidate name_part ext_part k <> name_part +:+ ext_part.
Proof.
  unfold candidate. intros H. apply String.app_inj in H.
  apply (f_equal String.length) in H. rewrite !string_length_app in H. simpl in H. lia.
Qed.

Lemma path_exists_true (fs : gmap string node) p :
  os.path_exists fs p = true <-> is_Some (fs !! p).
Proof. unfold os.path_exists. apply bool_decide_eq_true. Qed.

Lemma path_exists_false (fs : gmap string node) p :
  os.path_exists fs p = false <-> fs !! p = None.
Proof.
  unfold os.path_exists. rewrite bool_decide_eq_false. symmetry. apply eq_None_not_Some.
Qed.

(** What the loop returns: the first free candidate from [counter] on. *)
Lemma rename_loop_Some fuel (fs : gmap string node) name_part ext_part counter p :
  rename_loop fuel fs name_part ext_part counter = Some p ->
  exists k, (counter <= k)%N /\ p = candidate name_part ext_part k /\
            fs !! p = None /\
            forall j, (counter <= j < k)%N ->
                      is_Some (fs !! candidate name_part ext_part j).
Proof.
  revert counter. induction fuel as [|fuel IH]; intros counter H; [discriminate|].
  simpl in H.
  destruct (os.path_exists fs (candidate name_part ext_part counter)) eqn:E; simpl in H.
  - apply IH in H as (k & Hk & -> & Hfree & Hbusy). exists k.
    split; [lia|]. split; [reflexivity|]. split; [exact Hfree|].
    intros j Hj. destruct (decide (j = counter)) as [->|Hne].
    + now apply path_exists_true.
    + apply Hbusy. lia.
  - injection H as <-. exists counter. split; [lia|]. split; [reflexivity|].
    split; [now apply path_exists_false|]. intros j Hj. lia.
Qed.

(** The loop ends: with [fuel] above the number of names of a map that holds
    every candidate the file system holds, a free candidate is found. *)
Lemma rename_loop_finds fuel (fs m : gmap string node) name_part ext_part counter :
  (forall j, (counter <= j)%N -> is_Some (fs !! candidate name_part ext_part j) ->
             is_Some (m !! candidate name_part ext_part j)) ->
  size m < fuel ->
  is_Some (rename_loop fuel fs name_part ext_part counter).
Proof.
  revert m counter. induction fuel as [|fuel IH]; intros m counter Hm Hsize; [lia|].
  simpl.
  destruct (os.path_exists fs (candidate name_part ext_part counter)) eqn:E; simpl.
  - apply path_exists_true in E.
    assert (Hin : is_Some (m !! candidate name_part ext_part counter)) by (apply Hm; [lia|done]).
    apply (IH (delete (candidate name_part ext_part counter) m)).
    + intros j Hj Hfs. rewrite lookup_delete_ne.
      * apply Hm; [lia|done].
      * intros Heq. apply candidate_inj in Heq. lia.
    + rewrite map_size_delete_Some by done.
      pose proof (map_size_ne_0_lookup_2 m _ Hin). lia.
  - eauto.
Qed.

Lemma rename_loop_total (fs : gmap string node) name_part ext_part :
  is_Some (rename_loop (S (size fs)) fs name_part ext_part 2).
Proof. apply (rename_loop_finds _ fs fs); [auto | lia]. Qed.

Lemma rename_loop_more_fuel fuel fuel' (fs : gmap string node) name_part ext_part counter p :
  rename_loop fuel fs name_part ext_part counter = Some p -> fuel <= fuel' ->
  rename_loop fuel' fs name_part ext_part counter = Some p.
Proof.
  revert fuel' counter. induction fuel as [|fuel IH]; intros fuel' counter H Hle; [discriminate|].
  destruct fuel' as [|fuel']; [lia|]. simpl in *.
  destruct (negb _); [exact H|]. apply IH; [exact H | lia].
Qed.

(** ** The worker *)

Section PrepareFacts.
Variable L : library.

Lemma read_file_inr refused (fs : gmap string node) p b :
  os.read_file refused fs p = inr b <-> fs !! p = Some (File b) /\ refused = None.
Proof.
  unfold os.read_file. destruct (fs !! p) as [[c|]|], refused; split;
    try (intros H; discriminate H); try (intros [H1 H2]; discriminate).
  - intros [= <-]. done.
  - by intros [[= <-] _].
Qed.

Lemma read_file_mono refused (fs fs' : gmap string node) p :
  is_Some (fs !! p) -> fs ⊆ fs' ->
  os.read_file refused fs' p = os.read_file refused fs p.
Proof.
  intros [n Hn] Hsub. unfold os.read_file.
  rewrite (lookup_weaken _ _ _ _ Hn Hsub), Hn. reflexivity.
Qed.

Lemma makedirs_inr refused (fs fs1 : gmap string node) p :
  os.makedirs refused fs p = inr fs1 ->
  fs ⊆ fs1 /\ fs1 !! p = Some Dir /\
  (fs1 = fs \/ (fs !! p = None /\ fs1 = <[p := Dir]> fs)).
Proof.
  unfold os.makedirs.
  destruct (fs !! p) as [[c|]|] eqn:E, refused; intros H; inversion H; subst.
  - split; [done|]. split; [done|]. by left.
  - split; [done|]. split; [done|]. by left.
  - split; [by apply insert_subseteq|]. split; [by rewrite lookup_insert_eq|]. by right.
Qed.

Lemma makedirs_inl refused (fs : gmap string node) p e :
  os.makedirs refused fs p = inl e ->
  (exists c, fs !! p = Some (File c)) \/ (fs !! p = None /\ refused = Some e).
Proof.
  unfold os.makedirs.
  destruct (fs !! p) as [[c|]|] eqn:E, refused; intros H; inversion H; eauto.
Qed.

(** Where the system refuses nothing, making a directory again in a larger
    file system has the same outcome and changes nothing. *)
Lemma makedirs_mono (fs fs1 fs' : gmap string node) p r :
  os.makedirs None fs p = r ->
  match r with inr fs1 => fs1 ⊆ fs' | inl _ => fs ⊆ fs' end ->
  os.makedirs None fs' p = match r with inr _ => inr fs' | inl e => inl e end.
Proof.
  intros <- Hsub. destruct (os.makedirs None fs p) as [e|fs2] eqn:E.
  - destruct (makedirs_inl _ _ _ _ E) as [[c Hc]|[_ [=]]]. unfold os.makedirs in *.
    rewrite (lookup_weaken _ _ _ _ Hc Hsub). rewrite Hc in E. exact E.
  - destruct (makedirs_inr _ _ _ _ E) as (_ & Hd & _). unfold os.makedirs.
    rewrite (lookup_weaken _ _ _ _ Hd Hsub). reflexivity.
Qed.

Local Ltac unchanged_case :=
  intros [= <- <-]; split; [reflexivity|]; split; [by left | intros; reflexivity].

(** [prepare_output] only adds a directory. *)
Lemma prepare_output_fs fs args fs1 r :
  prepare_output L fs args = (fs1, r) ->
  fs ⊆ fs1 /\
  (fs1 = fs \/ exists folder, fs !! folder = None /\ fs1 = <[folder := Dir]> fs) /\
  ((forall x, r <> inr (inr x)) -> fs1 = fs).
Proof.
  destruct args as [[[[[full_path out_root] fmt] pol] root] show].
  unfold prepare_output; cbv beta iota zeta.
  destruct (os.read_file _ fs full_path) as [e|ob]; [unchanged_case |].
  destruct (make_thumbnail L _ ob) as [e|[early|tb]];
    try (unchanged_case).
  destruct (embed_thumbnail L ob _ tb) as [e|outb];
    try (unchanged_case).
  destruct (output_folder L full_path out_root root) as [e|folder];
    try (unchanged_case).
  destruct (os.makedirs _ fs folder) as [e|fs2] eqn:E;
    try (unchanged_case).
  intros [= <- <-]. destruct (makedirs_inr _ _ _ _ E) as (Hs & _ & [->|[Hn ->]]).
  - split; [done|]. split; [by left|]. done.
  - split; [done|]. split; [right; eauto|]. intros Hx. exfalso. by eapply Hx.
Qed.

(** Once the input file is there, and where the system refuses nothing,
    [prepare_output] gives the same value in every larger file system, and
    leaves it as it is. *)
Lemma prepare_output_mono fs args fs1 r fs' :
  os_never_refuses L ->
  is_Some (fs !! task_full_path args) ->
  prepare_output L fs args = (fs1, r) -> fs1 ⊆ fs' ->
  prepare_output L fs' args = (fs', r).
Proof.
  destruct args as [[[[[full_path out_root] fmt] pol] root] show].
  unfold task_full_path; cbn [fst].
  intros Hos Hin H Hsub. pose proof (prepare_output_fs _ _ _ _ H) as (Hs1 & _ & _).
  assert (Hs : fs ⊆ fs') by (etrans; eassumption).
  revert H. unfold prepare_output; cbv beta iota zeta.
  rewrite !(proj1 (Hos _ _)).
  rewrite (read_file_mono None fs fs' full_path Hin Hs).
  destruct (os.read_file None fs full_path) as [e|ob]; [by intros [= <- <-]|].
  destruct (make_thumbnail L _ ob) as [e|[early|tb]]; try by intros [= <- <-].
  destruct (embed_thumbnail L ob _ tb) as [e|outb]; try by intros [= <- <-].
  destruct (output_folder L full_path out_root root) as [e|folder]; try by intros [= <- <-].
  rewrite !(proj2 (proj2 (Hos _ _))).
  destruct (os.makedirs None fs folder) as [e|fs2] eqn:E; intros [= <- <-].
  - rewrite (makedirs_mono fs fs fs' folder _ E Hs). reflexivity.
  - rewrite (makedirs_mono fs fs2 fs' folder _ E Hsub). reflexivity.
Qed.

Lemma prepare_output_reads fs args fs1 x :
  prepare_output L fs args = (fs1, inr (inr x)) ->
  exists original_bytes, fs !! task_full_path args = Some (File original_bytes).
Proof.
  destruct args as [[[[[full_path out_root] fmt] pol] root] show].
  unfold task_full_path; cbn [fst].
  unfold prepare_output; cbv beta iota zeta.
  destruct (os.read_file _ fs full_path) as [e|ob] eqn:E; [by intros [= <- <-]|].
  intros _. exists ob. by apply read_file_inr in E as [? _].
Qed.

Lemma prepare_output_stable fs args fs1 x fs' :
  os_never_refuses L ->
  prepare_output L fs args = (fs1, inr (inr x)) -> fs1 ⊆ fs' ->
  prepare_output L fs' args = (fs', inr (inr x)).
Proof.
  intros Hos H Hsub. destruct (prepare_output_reads _ _ _ _ H) as [ob Hob].
  eapply prepare_output_mono; [exact Hos | | exact H | exact Hsub]. by rewrite Hob.
Qed.

End PrepareFacts.

Section StatusFacts.
Variable L : library.

Lemma make_thumbnail_early filename original_bytes r :
  make_thumbnail L filename original_bytes = inr (inl r) -> r.1 = FAILURE.
Proof.
  unfold make_thumbnail, bind_exn.
  destruct (cv2_imdecode L original_bytes) as [e|[img|]]; try discriminate.
  - destruct (thumbnail_size _ _) as [e|size]; try discriminate.
    destruct (cv2_resize L img size) as [e|thumb]; try discriminate.
    destruct (cv2_imencode L _ thumb) as [e|[success buf]]; try discriminate.
    destruct success; simpl; [discriminate|]. by intros [= <-].
  - by intros [= <-].
Qed.

Lemma prepare_output_early fs args fs1 r :
  prepare_output L fs args = (fs1, inr (inl r)) -> r.1 = FAILURE.
Proof.
  destruct args as [[[[[full_path out_root] fmt] pol] root] show].
  unfold prepare_output; cbv beta iota zeta.
  destruct (os.read_file _ fs full_path) as [e|ob]; [discriminate|].
  destruct (make_thumbnail L _ ob) as [e|[early|tb]] eqn:E; try discriminate.
  - intros [= <- <-]. by eapply make_thumbnail_early.
  - destruct (embed_thumbnail L ob _ tb) as [e|outb]; try discriminate.
    destruct (output_folder L full_path out_root root) as [e|folder]; try discriminate.
    destruct (os.makedirs _ fs folder) as [e|fs2]; discriminate.
Qed.

Lemma resolve_conflict_free (fs : gmap string node) output_path new_filename pol :
  fs !! output_path = None ->
  resolve_conflict fs output_path new_filename pol = inr output_path.
Proof.
  intros H. unfold resolve_conflict. apply path_exists_false in H. by rewrite H.
Qed.

Lemma resolve_conflict_skip (fs : gmap string node) output_path new_filename :
  is_Some (fs !! output_path) ->
  resolve_conflict fs output_path new_filename "skip"
  = inl (SKIPPED_EXISTS, "已跳过 (文件已存在): " +:+ new_filename).
Proof.
  intros H. unfold resolve_conflict. apply path_exists_true in H. by rewrite H.
Qed.

Lemma resolve_conflict_other (fs : gmap string node) output_path new_filename pol :
  pol <> "skip" -> pol <> "rename" ->
  resolve_conflict fs output_path new_filename pol = inr output_path.
Proof.
  intros H1 H2. unfold resolve_conflict.
  apply String.eqb_neq in H1. apply String.eqb_neq in H2. rewrite H1, H2.
  by destruct (os.path_exists fs output_path).
Qed.

Lemma resolve_conflict_rename (fs : gmap string node) output_path new_filename :
  is_Some (fs !! output_path) ->
  exists k, (2 <= k)%N /\
    let '(name_part, ext_part) := posixpath.splitext output_path in
    resolve_conflict fs output_path new_filename "rename"
    = inr (candidate name_part ext_part k) /\
    fs !! candidate name_part ext_part k = None /\
    forall j, (2 <= j < k)%N -> is_Some (fs !! candidate name_part ext_part j).
Proof.
  intros H. unfold resolve_conflict. apply path_exists_true in H. rewrite H.
  change (String.eqb "rename" "skip") with false.
  change (String.eqb "rename" "rename") with true. cbv beta iota.
  destruct (posixpath.splitext output_path) as [name_part ext_part].
  destruct (rename_loop_total fs name_part ext_part) as [p Hp]. rewrite Hp.
  destruct (rename_loop_Some _ _ _ _ _ _ Hp) as (k & Hk & -> & Hfree & Hbusy).
  exists k. split; [exact Hk|]. split; [reflexivity|]. split; [exact Hfree|exact Hbusy].
Qed.

Lemma resolve_conflict_early (fs : gmap string node) output_path new_filename pol r :
  resolve_conflict fs output_path new_filename pol = inl r ->
  r.1 = SKIPPED_EXISTS /\ pol = "skip" /\ is_Some (fs !! output_path).
Proof.
  unfold resolve_conflict. destruct (os.path_exists fs output_path) eqn:E; [|discriminate].
  destruct (String.eqb pol "skip") eqn:E1.
  - intros [= <-]. apply String.eqb_eq in E1. apply path_exists_true in E. done.
  - destruct (String.eqb pol "rename"); [|discriminate].
    destruct (posixpath.splitext output_path) as [np ep].
    destruct (rename_loop _ _ _ _ _); discriminate.
Qed.

Lemma write_file_inr refused (fs fs2 : gmap string node) p data :
  os.write_file refused fs p data = inr fs2 ->
  fs2 = <[p := File data]> fs /\ fs !! p <> Some Dir /\ refused = None.
Proof.
  unfold os.write_file.
  destruct (fs !! p) as [[c|]|], refused; intros H; inversion H; done.
Qed.

Lemma write_file_ok (fs : gmap string node) p data :
  fs !! p <> Some Dir -> os.write_file None fs p data = inr (<[p := File data]> fs).
Proof. unfold os.write_file. destruct (fs !! p) as [[c|]|]; done. Qed.

(** A write that fails leaves the file system as it was. *)
Lemma write_output_fails fs1 filename pol ob nf op fs2 e :
  write_output L fs1 filename pol ob nf op = (fs2, inl e) -> fs2 = fs1.
Proof.
  unfold write_output.
  destruct (resolve_conflict fs1 op nf pol) as [early|target] eqn:E.
  - discriminate.
  - destruct (os.write_file _ fs1 target ob); by intros [= <- <-].
Qed.

Lemma write_output_status fs1 filename pol ob nf op fs2 r :
  write_output L fs1 filename pol ob nf op = (fs2, inr r) ->
  r.1 = SUCCESS \/ r.1 = SKIPPED_EXISTS.
Proof.
  unfold write_output.
  destruct (resolve_conflict fs1 op nf pol) as [early|target] eqn:E.
  - intros [= <- <-]. right. by apply resolve_conflict_early in E as [? _].
  - destruct (os.write_file _ fs1 target ob); intros [= <- <-]. by left.
Qed.

Lemma process_single_file_status fs args :
  valid_status (process_single_file L fs args).2.1.
Proof.
  unfold process_single_file, process_single_file_try.
  destruct args as [[[[[full_path out_root] fmt] pol] root] show]; cbv beta iota zeta.
  destruct (prepare_output L fs _) as [fs1 [e|[early|[[ob nf] op]]]] eqn:E.
  - right; right; reflexivity.
  - right; right. by eapply prepare_output_early.
  - destruct (write_output L fs1 _ pol ob nf op) as [fs2 [e|r]] eqn:E2.
    + right; right; reflexivity.
    + cbn [fst snd]. apply write_output_status in E2 as [H|H]; rewrite H;
        [by left | by right; left].
Qed.

End StatusFacts.

Lemma rsplit_app c s l r : posixpath.rsplit c s = Some (l, r) -> s = l +:+ String c r.
Proof.
  revert l. induction s as [|a s IH]; intros l H; [discriminate|].
  simpl in H. destruct (posixpath.rsplit c s) as [[l' r']|].
  - injection H as <- <-. rewrite string_app_cons. f_equal. by apply IH.
  - destruct (Ascii.eqb a c) eqn:E; [|discriminate].
    injection H as <- <-. apply Ascii.eqb_eq in E. by subst.
Qed.

Lemma splitext_app p a b : posixpath.splitext p = (a, b) -> p = a +:+ b.
Proof.
  unfold posixpath.splitext.
  assert (Hnil : forall s : string, s = s +:+ "").
  { induction s as [|x s IH]; [reflexivity|]. rewrite string_app_cons. by f_equal. }
  destruct (posixpath.rsplit posixpath.sep p) as [[h t]|] eqn:E1.
  - apply rsplit_app in E1.
    destruct (posixpath.rsplit posixpath.extsep t) as [[stem e]|] eqn:E2.
    + destruct (posixpath.all_char posixpath.extsep stem).
      * intros [= <- <-]. apply Hnil.
      * intros [= <- <-]. apply rsplit_app in E2. subst t. rewrite E1.
        rewrite !string_app_assoc. reflexivity.
    + intros [= <- <-]. apply Hnil.
  - destruct (posixpath.rsplit posixpath.extsep p) as [[stem e]|] eqn:E2.
    + destruct (posixpath.all_char posixpath.extsep stem).
      * intros [= <- <-]. apply Hnil.
      * intros [= <- <-]. apply rsplit_app in E2. exact E2.
    + intros [= <- <-]. apply Hnil.
Qed.

Lemma candidate_not_path p name_part ext_part k :
  posixpath.splitext p = (name_part, ext_part) -> candidate name_part ext_part k <> p.
Proof. intros H. apply splitext_app in H. subst p. apply candidate_neq. Qed.

Section StepFacts.
Variable L : library.

Lemma process_single_file_prepared fs full_path out_root fmt pol root show fs1 ob nf op :
  prepare_output L fs (full_path, out_root, fmt, pol, root, show)
  = (fs1, inr (inr (ob, nf, op))) ->
  process_single_file L fs (full_path, out_root, fmt, pol, root, show)
  = match write_output L fs1 (posixpath.basename full_path) pol ob nf op with
    | (fs2, inr r) => (fs2, r)
    | (fs2, inl e) =>
        (fs2, (FAILURE, failure_message (posixpath.basename full_path) e))
    end.
Proof.
  intros H. unfold process_single_file, process_single_file_try. rewrite H. reflexivity.
Qed.

Lemma process_single_file_not_prepared fs args fs1 r :
  prepare_output L fs args = (fs1, r) -> (forall x, r <> inr (inr x)) ->
  exists message, process_single_file L fs args = (fs, (FAILURE, message)).
Proof.
  intros H Hr. pose proof (prepare_output_fs L _ _ _ _ H) as (_ & _ & Hfs).
  specialize (Hfs Hr). subst fs1.
  unfold process_single_file, process_single_file_try.
  destruct args as [[[[[full_path out_root] fmt] pol] root] show]. rewrite H.
  destruct r as [e|[[st msg]|x]].
  - eauto.
  - apply prepare_output_early in H. simpl in H. subst st. eauto.
  - exfalso. by eapply Hr.
Qed.

(** Under ["rename"] the name chosen is free: the destination, or the first
    free numbered name. *)
Lemma rename_target (fs1 : gmap string node) nf op :
  exists target,
    fs1 !! target = None /\
    resolve_conflict fs1 op nf "rename" = inr target /\
    (fs1 !! op = None -> target = op) /\
    (is_Some (fs1 !! op) ->
     exists k, (2 <= k)%N /\
       target = candidate (posixpath.splitext op).1 (posixpath.splitext op).2 k /\
       forall j, (2 <= j < k)%N ->
         is_Some (fs1 !! candidate (posixpath.splitext op).1 (posixpath.splitext op).2 j)).
Proof.
  destruct (fs1 !! op) as [n|] eqn:Hop.
  - destruct (resolve_conflict_rename fs1 op nf (mk_is_Some _ _ Hop)) as (k & Hk & Hres).
    destruct (posixpath.splitext op) as [np ep]. destruct Hres as (Hres & Hfree & Hbusy).
    exists (candidate np ep k).
    split; [exact Hfree|]. split; [exact Hres|]. split; [discriminate|].
    intros _. exists k. cbn [fst snd]. done.
  - exists op. split; [exact Hop|].
    split; [exact (resolve_conflict_free fs1 op nf _ Hop)|].
    split; [done|]. intros [? ?]. done.
Qed.

(** One run under ["rename"] that reaches the conflict check and whose write
    the system does not refuse writes one name that was free. *)
Lemma rename_step fs full_path out_root fmt root show fs1 ob nf op :
  os_never_refuses L ->
  prepare_output L fs (full_path, out_root, fmt, "rename", root, show)
  = (fs1, inr (inr (ob, nf, op))) ->
  exists target,
    fs1 !! target = None /\
    process_single_file L fs (full_path, out_root, fmt, "rename", root, show)
    = (<[target := File ob]> fs1,
       (SUCCESS, success_message (posixpath.basename full_path) target)) /\
    (fs1 !! op = None -> target = op) /\
    (is_Some (fs1 !! op) ->
     exists k, (2 <= k)%N /\
       target = candidate (posixpath.splitext op).1 (posixpath.splitext op).2 k /\
       forall j, (2 <= j < k)%N ->
         is_Some (fs1 !! candidate (posixpath.splitext op).1 (posixpath.splitext op).2 j)).
Proof.
  intros Hos Hprep.
  rewrite (process_single_file_prepared _ _ _ _ _ _ _ _ _ _ _ Hprep).
  unfold write_output.
  destruct (rename_target fs1 nf op) as (target & Hfree & Hres & Hrest).
  exists target. rewrite Hres, (proj1 (proj2 (Hos _ _))).
  rewrite write_file_ok by (rewrite Hfree; discriminate).
  split; [exact Hfree|]. split; [reflexivity|]. exact Hrest.
Qed.

(** Under ["skip"] and ["rename"] the name that is written is free. *)
Lemma resolve_conflict_inr_free (fs1 : gmap string node) op nf pol target :
  pol = "skip" \/ pol = "rename" ->
  resolve_conflict fs1 op nf pol = inr target -> fs1 !! target = None.
Proof.
  intros Hpol H. destruct (fs1 !! op) as [n|] eqn:Hop.
  - destruct Hpol as [-> | ->].
    + rewrite resolve_conflict_skip in H by eauto. discriminate.
    + destruct (rename_target fs1 nf op) as (t' & Hfree & Hres & _).
      rewrite Hres in H. by injection H as <-.
  - rewrite (resolve_conflict_free _ _ _ _ Hop) in H. by injection H as <-.
Qed.

(** Under ["skip"] and ["rename"] nothing that exists is changed, whatever
    the system refuses. *)
Lemma process_single_file_keeps fs t fs' r :
  task_conflict_resolution t = "skip" \/ task_conflict_resolution t = "rename" ->
  process_single_file L fs t = (fs', r) -> fs ⊆ fs'.
Proof.
  destruct t as [[[[[full_path out_root] fmt] pol] root] show].
  unfold task_conflict_resolution; cbn [fst snd]. intros Hpol H.
  destruct (prepare_output L fs (full_path, out_root, fmt, pol, root, show))
    as [fs1 res] eqn:Hprep.
  pose proof (prepare_output_fs L _ _ _ _ Hprep) as (Hsub & _ & _).
  destruct res as [e|[early|[[ob nf] op]]].
  - destruct (process_single_file_not_prepared _ _ _ _ Hprep) as [m Hm]; [done|].
    rewrite Hm in H. by injection H as <- _.
  - destruct (process_single_file_not_prepared _ _ _ _ Hprep) as [m Hm]; [done|].
    rewrite Hm in H. by injection H as <- _.
  - rewrite (process_single_file_prepared _ _ _ _ _ _ _ _ _ _ _ Hprep) in H.
    unfold write_output in H.
    destruct (resolve_conflict fs1 op nf pol) as [early|target] eqn:Hres.
    + by injection H as <- _.
    + pose proof (resolve_conflict_inr_free _ _ _ _ _ Hpol Hres) as Hfree.
      destruct (os.write_file _ fs1 target ob) as [e|fs2] eqn:Hw.
      * by injection H as <- _.
      * apply write_file_inr in Hw as (-> & _ & _). injection H as <- _.
        etrans; [exact Hsub|]. by apply insert_subseteq.
Qed.

Lemma run_tasks_keeps tasks : forall fs fs' rs,
  Forall (fun t => task_conflict_resolution t = "skip" \/
                   task_conflict_resolution t = "rename") tasks ->
  run_tasks L fs tasks = (fs', rs) -> fs ⊆ fs'.
Proof.
  induction tasks as [|t tasks IH]; intros fs fs' rs Hall Hrun.
  - by injection Hrun as <- _.
  - cbn [run_tasks] in Hrun.
    destruct (process_single_file L fs t) as [fsa r] eqn:E1.
    destruct (run_tasks L fsa tasks) as [fsb rs'] eqn:E2.
    injection Hrun as <- _. apply Forall_cons in Hall as [Hpol Hall].
    etrans; [by eapply process_single_file_keeps | by eapply IH].
Qed.

End StepFacts.

Lemma ensure_orientation_spec (d d' : gmap string exif_value) :
  ensure_orientation d = inr d' ->
  exists ifd', d' !! "0th" = Some (Ifd ifd') /\
    (forall key, key <> "0th" -> d' !! key = d !! key) /\
    match d !! "0th" with
    | None => ifd' = <[Orientation := TagInt 0]> ∅
    | Some (Ifd ifd) =>
        match ifd !! Orientation with
        | Some _ => ifd' = ifd
        | None => ifd' = <[Orientation := TagInt 0]> ifd
        end
    | Some (Thumbnail _) => False
    end.
Proof.
  unfold ensure_orientation.
  destruct (d !! "0th") as [[ifd|t]|] eqn:E.
  - rewrite E. destruct (ifd !! Orientation) eqn:EO; intros [= <-].
    + exists ifd. split; [exact E|]. split; done.
    + eexists. split; [by rewrite lookup_insert_eq|].
      split; [|reflexivity]. intros key Hk. by rewrite lookup_insert_ne.
  - rewrite E. discriminate.
  - rewrite lookup_insert_eq. rewrite lookup_empty. intros [= <-].
    eexists. split; [by rewrite lookup_insert_eq|].
    split; [|reflexivity]. intros key Hk. by rewrite !lookup_insert_ne.
Qed.

Section EmbedFacts.
Variable L : library.

Lemma embed_thumbnail_inv original_bytes exif_dict thumb_buf output_bytes :
  embed_thumbnail L original_bytes exif_dict thumb_buf = inr output_bytes ->
  exists exif_dict' exif_bytes,
    ensure_orientation exif_dict = inr exif_dict' /\
    piexif_dump L (<["thumbnail" := Thumbnail (Some thumb_buf)]> exif_dict')
    = inr exif_bytes /\
    piexif_insert L exif_bytes original_bytes = inr output_bytes.
Proof.
  unfold embed_thumbnail, bind_exn.
  destruct (ensure_orientation exif_dict) as [e|d']; [discriminate|].
  destruct (piexif_dump L _) as [e|eb] eqn:E; [discriminate|].
  intros H. exists d', eb. done.
Qed.

Lemma prepare_output_inv fs full_path out_root fmt pol root show fs1 ob nf op :
  prepare_output L fs (full_path, out_root, fmt, pol, root, show)
  = (fs1, inr (inr (ob, nf, op))) ->
  exists original_bytes thumb_buf folder,
    fs !! full_path = Some (File original_bytes) /\
    make_thumbnail L (posixpath.basename full_path) original_bytes
    = inr (inr thumb_buf) /\
    embed_thumbnail L original_bytes (load_exif L original_bytes) thumb_buf = inr ob /\
    output_folder L full_path out_root root = inr folder /\
    os.makedirs (os_refuses_mkdir L fs folder) fs folder = inr fs1 /\
    nf = output_filename (posixpath.basename full_path) fmt /\
    op = posixpath.join folder nf.
Proof.
  unfold prepare_output; cbv beta iota zeta.
  destruct (os.read_file _ fs full_path) as [e|original] eqn:E1; [discriminate|].
  destruct (make_thumbnail L _ original) as [e|[early|tb]] eqn:E2; try discriminate.
  destruct (embed_thumbnail L original _ tb) as [e|outb] eqn:E3; try discriminate.
  destruct (output_folder L full_path out_root root) as [e|folder] eqn:E4; try discriminate.
  destruct (os.makedirs _ fs folder) as [e|fs2] eqn:E5; try discriminate.
  intros [= <- <- <- <-]. exists original, tb, folder.
  apply read_file_inr in E1 as [E1 _]. done.
Qed.

Lemma process_single_file_success fs full_path out_root fmt pol root show fs' message :
  process_single_file L fs (full_path, out_root, fmt, pol, root, show)
  = (fs', (SUCCESS, message)) ->
  exists fs1 ob nf op target,
    prepare_output L fs (full_path, out_root, fmt, pol, root, show)
    = (fs1, inr (inr (ob, nf, op))) /\
    resolve_conflict fs1 op nf pol = inr target /\
    fs1 !! target <> Some Dir /\
    fs' = <[target := File ob]> fs1 /\
    message = success_message (posixpath.basename full_path) target.
Proof.
  intros H.
  destruct (prepare_output L fs (full_path, out_root, fmt, pol, root, show))
    as [fs1 res] eqn:Hprep.
  destruct res as [e|[early|[[ob nf] op]]].
  - destruct (process_single_file_not_prepared L _ _ _ _ Hprep) as [m Hm]; [done|].
    rewrite Hm in H. discriminate.
  - destruct (process_single_file_not_prepared L _ _ _ _ Hprep) as [m Hm]; [done|].
    rewrite Hm in H. discriminate.
  - rewrite (process_single_file_prepared L _ _ _ _ _ _ _ _ _ _ _ Hprep) in H.
    unfold write_output in H.
    destruct (resolve_conflict fs1 op nf pol) as [early|target] eqn:Hres.
    + apply resolve_conflict_early in Hres as (Hst & _). injection H as _ ->.
      discriminate.
    + destruct (os.write_file _ fs1 target ob) as [e|fs2] eqn:Hw; [discriminate|].
      apply write_file_inr in Hw as (-> & Hnd & _). injection H as <- <-.
      exists fs1, ob, nf, op, target. done.
Qed.

(** A failing [piexif.load] and a [piexif.load] that returns the empty
    dictionary cannot be told apart. *)
Lemma prepare_output_with_load fs args original_bytes load :
  fs !! task_full_path args = Some (File original_bytes) ->
  load_exif L original_bytes = load_exif (with_load L load) original_bytes ->
  prepare_output L fs args = prepare_output (with_load L load) fs args.
Proof.
  destruct args as [[[[[full_path out_root] fmt] pol] root] show].
  unfold task_full_path; cbn [fst]. intros Hfile Hload.
  unfold prepare_output; cbv beta iota zeta.
  change (os_refuses_read (with_load L load)) with (os_refuses_read L).
  destruct (os.read_file _ fs full_path) as [e|ob] eqn:E; [reflexivity|].
  apply read_file_inr in E as [E _]. rewrite Hfile in E. injection E as <-.
  rewrite <- Hload. reflexivity.
Qed.

End EmbedFacts.

(** ** Repeated runs *)

Lemma nth_name_inj op i j :
  1 <= i -> 1 <= j -> nth_name op i = nth_name op j -> i = j.
Proof.
  intros Hi Hj H. unfold nth_name in H.
  destruct (posixpath.splitext op) as [np ep] eqn:E. cbn [fst snd] in H.
  destruct i as [|[|i]], j as [|[|j]]; try lia.
  - symmetry in H. by apply (candidate_not_path _ _ _ _ E) in H.
  - by apply (candidate_not_path _ _ _ _ E) in H.
  - apply candidate_inj in H. lia.
Qed.

Lemma after_runs_lookup_name fs1 op ob n k :
  1 <= k <= n -> after_runs fs1 op ob n !! nth_name op k = Some (File ob).
Proof.
  induction n as [|n IH]; intros Hk; [lia|].
  cbn [after_runs]. destruct (decide (k = S n)) as [->|Hne].
  - by rewrite lookup_insert_eq.
  - rewrite lookup_insert_ne.
    + apply IH. lia.
    + intros Heq. apply nth_name_inj in Heq; lia.
Qed.

Lemma after_runs_lookup_other fs1 op ob n p :
  (forall k, 1 <= k <= n -> p <> nth_name op k) ->
  after_runs fs1 op ob n !! p = fs1 !! p.
Proof.
  induction n as [|n IH]; intros Hp; [reflexivity|].
  cbn [after_runs]. rewrite lookup_insert_ne.
  - apply IH. intros k Hk. apply Hp. lia.
  - intros Heq. apply (Hp (S n)); [lia | by symmetry].
Qed.

Lemma after_runs_subseteq fs1 op ob n :
  (forall k, 1 <= k -> fs1 !! nth_name op k = None) ->
  fs1 ⊆ after_runs fs1 op ob n.
Proof.
  intros Hfree. apply map_subseteq_spec. intros p x Hp.
  rewrite after_runs_lookup_other; [exact Hp|].
  intros k Hk ->. rewrite Hfree in Hp by lia. discriminate.
Qed.

Section RenameRuns.
Variable L : library.
Hypothesis Hos : os_never_refuses L.
Variables (full_path out_root fmt root : string) (show : bool).
Let the_task : task := (full_path, out_root, fmt, "rename", root, show).
Variables (fs0 fs1 : gmap string node) (ob : bytes) (nf op : string).
Hypothesis Hprep : prepare_output L fs0 the_task = (fs1, inr (inr (ob, nf, op))).
Hypothesis Hfree : forall k, 1 <= k -> fs1 !! nth_name op k = None.

Let nth_result (k : nat) : result :=
  (SUCCESS, success_message (posixpath.basename full_path) (nth_name op k)).

Lemma rename_run_next i :
  1 <= i ->
  process_single_file L (after_runs fs1 op ob i) the_task
  = (after_runs fs1 op ob (S i), nth_result (S i)).
Proof.
  intros Hi.
  pose proof (prepare_output_stable L _ _ _ _ _ Hos Hprep
                (after_runs_subseteq fs1 op ob i Hfree)) as Hprep'.
  destruct (rename_step L _ _ _ _ _ _ _ _ _ _ Hos Hprep')
    as (target & Htfree & Hrun & _ & Hbusy).
  assert (Hop : is_Some (after_runs fs1 op ob i !! op)).
  { exists (File ob). apply (after_runs_lookup_name fs1 op ob i 1). lia. }
  destruct (Hbusy Hop) as (k & Hk & Htarget & Hall).
  assert (Hname : forall j, 2 <= j ->
            candidate (posixpath.splitext op).1 (posixpath.splitext op).2 (N.of_nat j)
            = nth_name op j).
  { intros [|[|j]] Hj; try lia. reflexivity. }
  assert (Ek : k = N.of_nat (S i)).
  { destruct (decide (N.to_nat k <= i)) as [Hle|Hgt].
    - exfalso. rewrite Htarget in Htfree.
      replace k with (N.of_nat (N.to_nat k)) in Htfree by apply N2Nat.id.
      rewrite Hname in Htfree by lia.
      rewrite after_runs_lookup_name in Htfree by lia. discriminate.
    - destruct (decide (N.to_nat k = S i)) as [He|Hne]; [lia|]. exfalso.
      destruct (Hall (N.of_nat (S i))) as [x Hx]; [lia|].
      rewrite Hname in Hx by lia.
      rewrite after_runs_lookup_other in Hx.
      + rewrite Hfree in Hx by lia. discriminate.
      + intros j Hj Heq. apply nth_name_inj in Heq; lia. }
  unfold the_task. rewrite Hrun. subst k. rewrite Hname in Htarget by lia.
  subst target. reflexivity.
Qed.

Lemma rename_runs_from i n :
  1 <= i ->
  run_tasks L (after_runs fs1 op ob i) (replicate n the_task)
  = (after_runs fs1 op ob (i + n), nth_result <$> seq (S i) n).
Proof.
  revert i. induction n as [|n IH]; intros i Hi.
  - simpl. by rewrite Nat.add_0_r.
  - cbn [replicate run_tasks]. rewrite rename_run_next by exact Hi.
    rewrite IH by lia. replace (S i + n) with (i + S n) by lia. reflexivity.
Qed.

Lemma rename_first_run :
  process_single_file L fs0 the_task = (after_runs fs1 op ob 1, nth_result 1).
Proof.
  destruct (rename_step L _ _ _ _ _ _ _ _ _ _ Hos Hprep)
    as (target & _ & Hrun & Hfirst & _).
  unfold the_task. rewrite Hrun. rewrite (Hfirst (Hfree 1 (le_n 1))). reflexivity.
Qed.

Lemma rename_runs n :
  run_tasks L fs0 (replicate (S n) the_task)
  = (after_runs fs1 op ob (S n), nth_result <$> seq 1 (S n)).
Proof.
  cbn [replicate run_tasks]. rewrite rename_first_run.
  rewrite rename_runs_from by lia. reflexivity.
Qed.

Lemma nth_names_NoDup n : NoDup (nth_name op <$> seq 1 n).
Proof.
  apply NoDup_fmap_2_strong; [|apply NoDup_seq].
  intros i j Hi Hj. apply elem_of_seq in Hi. apply elem_of_seq in Hj.
  apply nth_name_inj; lia.
Qed.

End RenameRuns.

Section SkipRuns.
Variable L : library.
Hypothesis Hos : os_never_refuses L.

Lemma skip_prepared fs full_path out_root fmt root show fs1 ob nf op :
  prepare_output L fs (full_path, out_root, fmt, "skip", root, show)
  = (fs1, inr (inr (ob, nf, op))) ->
  is_Some (fs1 !! op) ->
  process_single_file L fs (full_path, out_root, fmt, "skip", root, show)
  = (fs1, (SKIPPED_EXISTS, "已跳过 (文件已存在): " +:+ nf)).
Proof.
  intros Hprep Hop.
  rewrite (process_single_file_prepared _ _ _ _ _ _ _ _ _ _ _ _ Hprep).
  unfold write_output. by rewrite resolve_conflict_skip.
Qed.

Lemma skip_step fs t fs' r :
  task_conflict_resolution t = "skip" ->
  is_Some (fs !! task_full_path t) ->
  process_single_file L fs t = (fs', r) ->
  fs ⊆ fs' /\
  forall fs'', fs' ⊆ fs'' ->
    exists message,
      process_single_file L fs'' t = (fs'', (second_status r.1, message)).
Proof.
  destruct t as [[[[[full_path out_root] fmt] pol] root] show].
  unfold task_conflict_resolution, task_full_path; cbn [fst snd].
  intros -> Hin Hrun.
  destruct (prepare_output L fs (full_path, out_root, fmt, "skip", root, show))
    as [fs1 res] eqn:Hprep.
  pose proof (prepare_output_fs L _ _ _ _ Hprep) as (Hsub & _ & _).
  assert (Hfail : (forall x, res <> inr (inr x)) ->
    fs ⊆ fs' /\ forall fs'', fs' ⊆ fs'' -> exists message,
      process_single_file L fs'' (full_path, out_root, fmt, "skip", root, show)
      = (fs'', (second_status r.1, message))).
  { intros Hres.
    destruct (process_single_file_not_prepared L _ _ _ _ Hprep Hres) as [m Hm].
    rewrite Hm in Hrun. injection Hrun as <- <-. split; [done|].
    intros fs'' Hsub''.
    pose proof (prepare_output_fs L _ _ _ _ Hprep) as (_ & _ & Hsame).
    specialize (Hsame Hres). subst fs1.
    pose proof (prepare_output_mono L fs (full_path, out_root, fmt, "skip", root, show)
                  fs res fs'' Hos Hin Hprep Hsub'') as Hprep''.
    destruct (process_single_file_not_prepared L _ _ _ _ Hprep'' Hres) as [m' Hm'].
    exists m'. exact Hm'. }
  destruct res as [e|[early|[[ob nf] op]]]; [by apply Hfail | by apply Hfail |].
  clear Hfail. destruct (fs1 !! op) as [n|] eqn:Hop.
  - rewrite (skip_prepared _ _ _ _ _ _ _ _ _ _ Hprep) in Hrun by eauto.
    injection Hrun as <- <-. split; [exact Hsub|]. intros fs'' Hsub''.
    pose proof (prepare_output_stable L _ _ _ _ _ Hos Hprep Hsub'') as Hprep''.
    eexists. apply (skip_prepared _ _ _ _ _ _ _ _ _ _ Hprep'').
    exists n. by eapply lookup_weaken.
  - rewrite (process_single_file_prepared L _ _ _ _ _ _ _ _ _ _ _ Hprep) in Hrun.
    unfold write_output in Hrun. rewrite (resolve_conflict_free _ _ _ _ Hop) in Hrun.
    rewrite (proj1 (proj2 (Hos _ _))) in Hrun.
    rewrite write_file_ok in Hrun by (rewrite Hop; discriminate).
    injection Hrun as <- <-. split.
    + etrans; [exact Hsub|]. by apply insert_subseteq.
    + intros fs'' Hsub''.
      assert (Hsub1 : fs1 ⊆ fs'').
      { etrans; [|exact Hsub'']. by apply insert_subseteq. }
      pose proof (prepare_output_stable L _ _ _ _ _ Hos Hprep Hsub1) as Hprep''.
      eexists. apply (skip_prepared _ _ _ _ _ _ _ _ _ _ Hprep'').
      exists (File ob). eapply lookup_weaken; [|exact Hsub'']. by rewrite lookup_insert_eq.
Qed.

Lemma skip_runs tasks : forall fs fs1 rs,
  Forall (fun t => task_conflict_resolution t = "skip" /\
                   is_Some (fs !! task_full_path t)) tasks ->
  run_tasks L fs tasks = (fs1, rs) ->
  fs ⊆ fs1 /\
  forall fs'', fs1 ⊆ fs'' ->
    exists rs2, run_tasks L fs'' tasks = (fs'', rs2) /\
                Forall2 (fun r r2 : result => r2.1 = second_status r.1) rs rs2.
Proof.
  induction tasks as [|t tasks IH]; intros fs fs1 rs Hall Hrun.
  - injection Hrun as <- <-. split; [done|]. intros fs'' _. exists []. split; [done|constructor].
  - cbn [run_tasks] in Hrun.
    destruct (process_single_file L fs t) as [fsa r] eqn:E1.
    destruct (run_tasks L fsa tasks) as [fsb rs'] eqn:E2.
    injection Hrun as <- <-.
    apply Forall_cons in Hall as [[Hpol Hin] Hall].
    destruct (skip_step _ _ _ _ Hpol Hin E1) as [Hsub1 Hagain].
    assert (Hall' : Forall (fun t => task_conflict_resolution t = "skip" /\
                                     is_Some (fsa !! task_full_path t)) tasks).
    { eapply Forall_impl; [exact Hall|]. intros t' [? [n Hn]]. split; [done|].
      exists n. by eapply lookup_weaken. }
    destruct (IH _ _ _ Hall' E2) as [Hsub2 Hagain2].
    split; [by etrans|].
    intros fs'' Hsub''.
    destruct (Hagain fs'') as [m Hm]; [by etrans|].
    destruct (Hagain2 fs'' Hsub'') as (rs2 & Hrs2 & Hrel).
    exists ((second_status r.1, m) :: rs2). split.
    + cbn [run_tasks]. rewrite Hm, Hrs2. reflexivity.
    + constructor; [reflexivity | exact Hrel].
Qed.

End SkipRuns.

(** Counting *)

Ltac decide_status :=
  unfold SUCCESS, SKIPPED_EXISTS, FAILURE in *;
  repeat match goal with
         | |- context [decide (?a = ?b)] =>
             first [ rewrite (decide_True (P := a = b)) by reflexivity
                   | rewrite (decide_False (P := a = b)) by discriminate ]
         end.

Lemma count_status_cons s (r : result) rs :
  count_status s (r :: rs)
  = (if decide (r.1 = s) then 1 else 0) + count_status s rs.
Proof.
  unfold count_status. rewrite filter_cons. destruct (decide (r.1 = s)); reflexivity.
Qed.

Lemma fold_count_result show rs : forall c q,
  (fold_left (count_result show) rs (c, q)).1
  = {| processed_count := processed_count c + count_status SUCCESS rs;
       skipped_exists_count := skipped_exists_count c + count_status SKIPPED_EXISTS rs;
       failed_count := failed_count c + count_status FAILURE rs |}.
Proof.
  induction rs as [|[status message] rs IH]; intros c q.
  - unfold count_status. rewrite !filter_nil. cbn. rewrite !Nat.add_0_r. by destruct c.
  - cbn [fold_left]. unfold count_result at 2.
    rewrite !count_status_cons. cbn [fst].
    destruct (String.eqb status "SUCCESS") eqn:E1.
    { apply String.eqb_eq in E1. subst status. rewrite IH. cbn. decide_status.
      f_equal; lia. }
    destruct (String.eqb status "SKIPPED_EXISTS") eqn:E2.
    { apply String.eqb_eq in E2. subst status. rewrite IH. cbn. decide_status.
      f_equal; lia. }
    destruct (String.eqb status "FAILURE") eqn:E3.
    { apply String.eqb_eq in E3. subst status. rewrite IH. cbn. decide_status.
      f_equal; lia. }
    apply String.eqb_neq in E1, E2, E3. rewrite IH.
    rewrite !decide_False by done. f_equal; lia.
Qed.

Lemma process_results_counters show rs k :
  (process_results show rs k).1
  = {| processed_count := count_status SUCCESS rs;
       skipped_exists_count := count_status SKIPPED_EXISTS rs;
       failed_count := count_status FAILURE rs |}.
Proof.
  unfold process_results.
  pose proof (fold_count_result show rs
    {| processed_count := 0; skipped_exists_count := 0; failed_count := 0 |} []) as H.
  destruct (fold_left _ _ _) as [c q]. cbn [fst] in *. exact H.
Qed.

Lemma count_status_total rs :
  Forall (fun r : result => valid_status r.1) rs ->
  count_status SUCCESS rs + count_status SKIPPED_EXISTS rs + count_status FAILURE rs
  = length rs.
Proof.
  induction 1 as [|r rs Hr _ IH]; [reflexivity|].
  rewrite !count_status_cons. cbn [length].
  destruct Hr as [Hr|[Hr|Hr]]; rewrite Hr; decide_status; lia.
Qed.

Lemma count_status_perm s rs rs' : rs ≡ₚ rs' -> count_status s rs = count_status s rs'.
Proof. intros H. unfold count_status. by rewrite H. Qed.

Lemma second_run_counts rs rs2 :
  Forall (fun r : result => valid_status r.1) rs ->
  Forall2 (fun r r2 : result => r2.1 = second_status r.1) rs rs2 ->
  count_status SUCCESS rs2 = 0 /\
  count_status SKIPPED_EXISTS rs2 = count_status SUCCESS rs + count_status SKIPPED_EXISTS rs /\
  count_status FAILURE rs2 = count_status FAILURE rs.
Proof.
  intros Hv H. induction H as [|r r2 rs rs2 Hr _ IH]; [done|].
  apply Forall_cons in Hv as [Hv1 Hv]. destruct (IH Hv) as (I1 & I2 & I3).
  rewrite !count_status_cons, I1, I2, I3, Hr.
  destruct Hv1 as [E|[E|E]]; rewrite E; unfold second_status; cbn; decide_status; lia.
Qed.

(** ** The scan *)

Section ScanFacts.
Variable L : library.
Variables (fs : gmap string node) (output_path filename_format
  conflict_resolution input_path : string) (show_log : bool).

Let make_task (entry : string * string) : task :=
  (posixpath.join entry.1 entry.2, output_path, filename_format,
   conflict_resolution, input_path, show_log).

Let enqueued (entry : string * string) : bool :=
  is_jpg_name entry.2 && needs_thumbnail L fs (posixpath.join entry.1 entry.2).

Let pre_skipped (entry : string * string) : bool :=
  is_jpg_name entry.2 && negb (needs_thumbnail L fs (posixpath.join entry.1 entry.2)).

Lemma scan_folder_spec current_folder filenames tasks skipped :
  scan_folder L fs output_path filename_format conflict_resolution input_path
              show_log current_folder filenames (tasks, skipped)
  = ((tasks ++ map make_task
        (List.filter enqueued (map (fun f => (current_folder, f)) filenames)))%list,
     skipped + length (List.filter pre_skipped
                         (map (fun f => (current_folder, f)) filenames))).
Proof.
  unfold scan_folder. revert tasks skipped.
  induction filenames as [|f filenames IH]; intros tasks skipped.
  - cbn. by rewrite app_nil_r, Nat.add_0_r.
  - cbn [fold_left map List.filter].
    unfold enqueued at 1, pre_skipped at 1, is_jpg_name. cbn [fst snd].
    destruct (pystr.endswith_any (pystr.lower f) _); cbn [andb].
    + destruct (needs_thumbnail L fs (posixpath.join current_folder f)); cbn [negb].
      * rewrite IH. cbn [map]. by rewrite <- app_assoc.
      * rewrite IH. cbn [length]. f_equal. lia.
    + by rewrite IH.
Qed.

Lemma scan_spec walk :
  scan L fs walk output_path filename_format conflict_resolution input_path show_log
  = (map make_task (List.filter enqueued (walk_files walk)),
     length (List.filter pre_skipped (walk_files walk))).
Proof.
  unfold scan.
  change (@nil task, 0) with
    ((@nil task ++ map make_task (List.filter enqueued (walk_files [])))%list,
     length (List.filter pre_skipped (walk_files []))).
  assert (H : forall walk0 tasks skipped,
    fold_left (fun acc '(current_folder, _, filenames) =>
       scan_folder L fs output_path filename_format conflict_resolution
                   input_path show_log current_folder filenames acc) walk0 (tasks, skipped)
    = ((tasks ++ map make_task (List.filter enqueued (walk_files walk0)))%list,
       skipped + length (List.filter pre_skipped (walk_files walk0)))).
  { induction walk0 as [|[[folder dirs] files] walk0 IH]; intros tasks skipped.
    - cbn. by rewrite app_nil_r, Nat.add_0_r.
    - cbn [fold_left]. rewrite scan_folder_spec, IH.
      cbn [walk_files flat_map]. fold (walk_files walk0).
      rewrite !List.filter_app, map_app, length_app, <- app_assoc. f_equal. lia. }
  apply (H walk [] 0).
Qed.

Lemma needs_thumbnail_true p :
  needs_thumbnail L fs p = true <->
  (exists e, scan_load L fs p = inl e) \/
  (exists exif_dict, scan_load L fs p = inr exif_dict /\ ~ thumbnail_present exif_dict).
Proof.
  unfold needs_thumbnail, thumbnail_present.
  destruct (scan_load L fs p) as [e|d]; [split; eauto|].
  destruct (d !! "thumbnail") as [[t|[b|]]|] eqn:E; split; intros H; try done.
  - destruct H as [[e He]|(d' & [= <-] & Hd)]; [done|].
    exfalso. apply Hd. rewrite E. eexists. split; done.
  - destruct H as [[e He]|(d' & [= <-] & Hd)]; [done|].
    exfalso. apply Hd. rewrite E. eexists. split; done.
  - right. exists d. split; [done|]. rewrite E. intros (v & [= <-] & Hv). done.
  - right. exists d. split; [done|]. rewrite E. intros (v & [=] & Hv).
Qed.

Lemma needs_thumbnail_false p :
  needs_thumbnail L fs p = false <->
  exists exif_dict, scan_load L fs p = inr exif_dict /\ thumbnail_present exif_dict.
Proof.
  unfold needs_thumbnail, thumbnail_present.
  destruct (scan_load L fs p) as [e|d].
  { split; [done|]. by intros (d & ? & _). }
  destruct (d !! "thumbnail") as [[t|[b|]]|] eqn:E; split; intros H; try done.
  - exists d. split; [done|]. rewrite E. eexists; split; done.
  - exists d. split; [done|]. rewrite E. eexists; split; done.
  - destruct H as (d' & [= <-] & v & Hv & Hne). rewrite E in Hv. by injection Hv as <-.
  - destruct H as (d' & [= <-] & v & Hv & Hne). rewrite E in Hv. done.
Qed.

End ScanFacts.

(** ** The sample library *)

Lemma sample_insert_keeps_pixel_data exif image out :
  Sample.insert exif image = inr out -> Sample.pixel_data out = Sample.pixel_data image.
Proof.
  unfold Sample.insert, Sample.pixel_data.
  destruct exif as [|e exif], image as [|i image]; try discriminate.
  by intros [= <-].
Qed.

Lemma sample_never_refuses : os_never_refuses Sample.lib.
Proof. intros fs p. repeat split; reflexivity. Qed.

Lemma run_tasks_valid L tasks : forall fs,
  Forall (fun r : result => valid_status r.1) (run_tasks L fs tasks).2 /\
  length (run_tasks L fs tasks).2 = length tasks.
Proof.
  induction tasks as [|t tasks IH]; intros fs; [split; [constructor|reflexivity]|].
  cbn [run_tasks]. pose proof (process_single_file_status L fs t) as Hs.
  destruct (process_single_file L fs t) as [fs1 r].
  destruct (IH fs1) as [H1 H2]. destruct (run_tasks L fs1 tasks) as [fs2 rs].
  cbn [fst snd] in *. split; [by constructor | cbn [length]; by rewrite H2].
Qed.


(** * The claims *)

Section WorkerClaims.

Variable L : library.

(** C1: [process_single_file] always returns a tuple whose status is one of
    the three, an exception that leaves the [try] block becomes the
    ["FAILURE"] tuple with its text, and the renaming loop inside always
    ends: it finds its name within one step more than there are names in the
    file system, whatever the bound given to it beyond that. *)
Theorem process_single_file_total fs args :
  exists fs' status message,
    process_single_file L fs args = (fs', (status, message)) /\
    valid_status status /\
    (forall fs1 e, process_single_file_try L fs args = (fs1, inl e) ->
       fs' = fs1 /\ status = FAILURE /\
       message = failure_message (posixpath.basename (task_full_path args)) e) /\
    (forall (fs1 : gmap string node) name_part ext_part,
       exists new_output_path,
         forall fuel, S (size fs1) <= fuel ->
           rename_loop fuel fs1 name_part ext_part 2 = Some new_output_path).
Proof.
  destruct (process_single_file L fs args) as [fs' [status message]] eqn:E.
  exists fs', status, message. split; [reflexivity|]. split.
  - pose proof (process_single_file_status L fs args) as H. by rewrite E in H.
  - split.
    + intros fs1 e H. unfold process_single_file in E. rewrite H in E.
      by injection E as <- <- <-.
    + intros fs1 name_part ext_part.
      destruct (rename_loop_total fs1 name_part ext_part) as [p Hp].
      exists p. intros fuel Hfuel. by eapply rename_loop_more_fuel.
Qed.

(** C2: a successful run writes, under one name, the bytes that
    [piexif.insert] made from the unchanged bytes of the input, so whatever
    part of a file [piexif.insert] leaves alone (its pixel data) is the same
    in the output and in the input; no other file changes. *)
Theorem pixel_data_preserved (pixel_data : bytes -> bytes) :
  (forall exif image out,
      piexif_insert L exif image = inr out -> pixel_data out = pixel_data image) ->
  forall fs full_path out_root fmt pol root show fs' message,
  process_single_file L fs (full_path, out_root, fmt, pol, root, show)
  = (fs', (SUCCESS, message)) ->
  exists original_bytes output_bytes target,
    fs !! full_path = Some (File original_bytes) /\
    fs' !! target = Some (File output_bytes) /\
    message = success_message (posixpath.basename full_path) target /\
    pixel_data output_bytes = pixel_data original_bytes /\
    forall p, p <> target ->
      fs' !! p = fs !! p \/ (fs !! p = None /\ fs' !! p = Some Dir).
Proof.
  intros Hframe fs full_path out_root fmt pol root show fs' message Hrun.
  destruct (process_single_file_success L _ _ _ _ _ _ _ _ _ Hrun)
    as (fs1 & ob & nf & op & target & Hprep & _ & _ & -> & ->).
  destruct (prepare_output_inv L _ _ _ _ _ _ _ _ _ _ _ Hprep)
    as (original & tb & folder & Hfile & _ & Hembed & _ & Hmk & _ & _).
  destruct (embed_thumbnail_inv L _ _ _ _ Hembed) as (d' & eb & _ & _ & Hins).
  exists original, ob, target. split; [exact Hfile|].
  split; [by rewrite lookup_insert_eq|]. split; [reflexivity|].
  split; [by eapply Hframe|].
  intros p Hp. rewrite lookup_insert_ne by done.
  destruct (makedirs_inr _ _ _ _ Hmk) as (_ & _ & [->|[Hnone ->]]); [by left|].
  destruct (decide (p = folder)) as [->|Hne].
  - right. by rewrite lookup_insert_eq.
  - left. by rewrite lookup_insert_ne.
Qed.

End WorkerClaims.

Section ThumbnailSize.

Import Float64 Float64Facts.
Local Open Scope Q_scope.

(** C3, as amended: for a width and a height below 2^31 the size computed
    in double precision is, in each dimension, the floor of the exact scaled
    dimension or one less, hence at most 160 by 120 and within one pixel of
    the exact scaled dimension [d * min(160/w, 120/h)]. *)
Theorem thumbnail_size_within_one_pixel (w h : positive) :
  (Z.pos w < 2 ^ 31)%Z -> (Z.pos h < 2 ^ 31)%Z ->
  exists nw nh : Z,
    thumbnail_size (Npos w) (Npos h) = inr (nw, nh) /\
    let '(ew, eh) := spec_thumbnail_size w h in
    (ew - 1 <= nw <= ew)%Z /\ (ew <= 160)%Z /\
    (eh - 1 <= nh <= eh)%Z /\ (eh <= 120)%Z /\
    (nw <= 160)%Z /\ (nh <= 120)%Z /\
    let r := Qmin (160 # w) (120 # h) in
    (inject_Z nw <= inject_Z (Z.pos w) * r <= inject_Z nw + 1) /\
    (inject_Z nh <= inject_Z (Z.pos h) * r <= inject_Z nh + 1).
Proof.
  intros Hw Hh. eexists _, _. split; [reflexivity|].
  cbn [spec_thumbnail_size]. unfold spec_thumbnail_size.
  destruct (ratio_spec w h) as (Hr & R1 & R2).
  set (r := Qmin (160 # w) (120 # h)) in *.
  change (Z.of_N target_width # w) with (160 # w).
  change (Z.of_N target_height # h) with (120 # h).
  set (ratio := Float64.min (round (160 # w)) (round (120 # h))) in *.
  change (Z.of_N (N.pos w)) with (Z.pos w). change (Z.of_N (N.pos h)) with (Z.pos h).
  assert (Ea : inject_Z (Z.pos w) * (160 # w) == 160).
  { unfold Qeq, Qmult, inject_Z; simpl. lia. }
  assert (Eb : inject_Z (Z.pos h) * (120 # h) == 120).
  { unfold Qeq, Qmult, inject_Z; simpl. lia. }
  assert (Eab : inject_Z (Z.pos w) * (120 # h) == (Z.pos w * 120) # h).
  { unfold Qeq, Qmult, inject_Z; simpl. lia. }
  assert (Eba : inject_Z (Z.pos h) * (160 # w) == (Z.pos h * 160) # w).
  { unfold Qeq, Qmult, inject_Z; simpl. lia. }
  pose proof (Q.le_min_l (160 # w) (120 # h)) as L1.
  pose proof (Q.le_min_r (160 # w) (120 # h)) as L2. fold r in L1, L2.
  assert (Pw : 0 < inject_Z (Z.pos w)) by reflexivity.
  assert (Ph : 0 < inject_Z (Z.pos h)) by reflexivity.
  assert (Tw : inject_Z (Z.pos w) * r <= 160) by (rewrite <- Ea; nra).
  assert (Th : inject_Z (Z.pos h) * r <= 120) by (rewrite <- Eb; nra).
  assert (Hr' : r == (160 # w) \/ r == (120 # h)).
  { unfold r. destruct (Q.min_spec (160 # w) (120 # h)) as [[_ E]|[_ E]]; auto. }
  assert (Dw : exists N D, inject_Z (Z.pos w) * r == N # D /\ (Z.pos D <= 2147483648)%Z).
  { destruct Hr' as [E|E].
    - exists 160%Z, 1%positive. split; [rewrite E; exact Ea | lia].
    - exists (Z.pos w * 120)%Z, h. split; [rewrite E; exact Eab | lia]. }
  assert (Dh : exists N D, inject_Z (Z.pos h) * r == N # D /\ (Z.pos D <= 2147483648)%Z).
  { destruct Hr' as [E|E].
    - exists (Z.pos h * 160)%Z, w. split; [rewrite E; exact Eba | lia].
    - exists 120%Z, 1%positive. split; [rewrite E; exact Eb | lia]. }
  destruct Dw as (Nw & Dw & Ew & HDw). destruct Dh as (Nh & Dh & Eh & HDh).
  assert (Th' : inject_Z (Z.pos h) * r <= 160) by lra.
  destruct (scaled_dimension (Z.pos w) r ratio Nw Dw eq_refl Hr R1 R2 Tw Ew HDw) as [W1 W2].
  destruct (scaled_dimension (Z.pos h) r ratio Nh Dh eq_refl Hr R1 R2 Th' Eh HDh) as [H1 H2].
  pose proof (floor_between _ _ W1 W2) as FW. pose proof (floor_between _ _ H1 H2) as FH.
  assert (Fw160 : (Qfloor (inject_Z (Z.pos w) * r) <= 160)%Z).
  { apply Qfloor_resp_le in Tw. exact Tw. }
  assert (Fh120 : (Qfloor (inject_Z (Z.pos h) * r) <= 120)%Z).
  { apply Qfloor_resp_le in Th. exact Th. }
  repeat split; try tauto; lia.
Qed.

End ThumbnailSize.

Section Claims.

Variable L : library.


(** C5: when [piexif.load] fails on the bytes of the input, the empty
    dictionary takes the place of the parsed one and the run is, step for
    step, the run of a library whose [piexif.load] returns the empty
    dictionary: the failure to parse does not by itself decide the result. *)
Theorem exif_parse_failure_recovered fs args original_bytes e :
  fs !! task_full_path args = Some (File original_bytes) ->
  piexif_load L original_bytes = inl e ->
  load_exif L original_bytes = empty_exif /\
  process_single_file L fs args
  = process_single_file (with_load L (fun _ => ok empty_exif)) fs args.
Proof.
  intros Hfile Hload.
  assert (Hempty : load_exif L original_bytes = empty_exif).
  { unfold load_exif. by rewrite Hload. }
  split; [exact Hempty|].
  assert (Hprep : prepare_output L fs args
                  = prepare_output (with_load L (fun _ => ok empty_exif)) fs args).
  { eapply prepare_output_with_load; [exact Hfile|]. by rewrite Hempty. }
  unfold process_single_file, process_single_file_try.
  destruct args as [[[[[full_path out_root] fmt] pol] root] show].
  rewrite <- Hprep. reflexivity.
Qed.




(** C9: any policy other than ["skip"] and ["rename"] falls through to the
    write, whatever is at the destination; a file there is replaced, unless
    the system refuses the write. *)
Theorem overwrite_is_fall_through fs full_path out_root fmt pol root show
    fs1 ob nf op old :
  pol <> "skip" -> pol <> "rename" ->
  prepare_output L fs (full_path, out_root, fmt, pol, root, show)
  = (fs1, inr (inr (ob, nf, op))) ->
  fs1 !! op = Some (File old) ->
  os_refuses_write L fs1 op = None ->
  resolve_conflict fs1 op nf pol = inr op /\
  process_single_file L fs (full_path, out_root, fmt, pol, root, show)
  = (<[op := File ob]> fs1,
     (SUCCESS, success_message (posixpath.basename full_path) op)).
Proof.
  intros H1 H2 Hprep Hold Hperm.
  pose proof (resolve_conflict_other fs1 op nf pol H1 H2) as Hres.
  split; [exact Hres|].
  rewrite (process_single_file_prepared L _ _ _ _ _ _ _ _ _ _ _ Hprep).
  unfold write_output. rewrite Hres, Hperm.
  rewrite write_file_ok by (rewrite Hold; discriminate). reflexivity.
Qed.

(** C10: every result of [process_single_file] carries one of the three
    statuses, so the three counters of [process_results] add up to the number
    of results, in whatever order they arrive; for the sequential run this is
    the number of tasks. *)
Theorem counters_account_for_every_task (show_log : bool) (skipped_thumb_count : nat)
    (runs : list (gmap string node * task)) (arrived : list result) :
  arrived ≡ₚ (fun run : gmap string node * task =>
                (process_single_file L run.1 run.2).2) <$> runs ->
  Forall (fun r : result => valid_status r.1) arrived /\
  (let c := (process_results show_log arrived skipped_thumb_count).1 in
   processed_count c + skipped_exists_count c + failed_count c = length runs /\
   c = (process_results show_log
          ((fun run : gmap string node * task =>
              (process_single_file L run.1 run.2).2) <$> runs)
          skipped_thumb_count).1) /\
  forall fs tasks,
    let c := (run_single_process L show_log fs tasks skipped_thumb_count).2.1 in
    processed_count c + skipped_exists_count c + failed_count c = length tasks.
Proof.
  intros Hperm.
  assert (Hvalid : Forall (fun r : result => valid_status r.1)
            ((fun run : gmap string node * task =>
                (process_single_file L run.1 run.2).2) <$> runs)).
  { apply Forall_fmap, Forall_forall. intros [fs t] _. apply process_single_file_status. }
  assert (Hvalid' : Forall (fun r : result => valid_status r.1) arrived).
  { by rewrite Hperm. }
  split; [exact Hvalid'|]. split.
  - cbv zeta. rewrite !process_results_counters.
    cbn [processed_count skipped_exists_count failed_count]. split.
    + rewrite count_status_total by exact Hvalid'.
      by rewrite Hperm, length_fmap.
    + by rewrite !(count_status_perm _ _ _ Hperm).
  - intros fs tasks. cbv zeta. unfold run_single_process.
    pose proof (run_tasks_valid L tasks fs) as [Hv Hlen].
    destruct (run_tasks L fs tasks) as [fs1 rs]. cbn [fst snd] in *.
    rewrite process_results_counters.
    cbn [processed_count skipped_exists_count failed_count].
    by rewrite count_status_total.
Qed.

End Claims.

(** ** Concrete runs *)

Import Byte.

Lemma pixel_data_preserved_witness :
  exists original_bytes output_bytes target,
    Sample.fs0 !! "in/a.jpg" = Some (File original_bytes) /\
    (process_single_file Sample.lib Sample.fs0 (Sample.task_for "in/a.jpg" "skip")).1 !! target
    = Some (File output_bytes) /\
    (process_single_file Sample.lib Sample.fs0 (Sample.task_for "in/a.jpg" "skip")).2.2
    = success_message (posixpath.basename "in/a.jpg") target /\
    Sample.pixel_data output_bytes = Sample.pixel_data original_bytes /\
    forall p, p <> target ->
      (process_single_file Sample.lib Sample.fs0 (Sample.task_for "in/a.jpg" "skip")).1 !! p
      = Sample.fs0 !! p \/
      (Sample.fs0 !! p = None /\
       (process_single_file Sample.lib Sample.fs0 (Sample.task_for "in/a.jpg" "skip")).1 !! p = Some Dir).
Proof.
  apply (pixel_data_preserved Sample.lib Sample.pixel_data
           sample_insert_keeps_pixel_data Sample.fs0
           "in/a.jpg" "out" "{Filename}-thumb" "skip" "in" false).
  vm_compute. reflexivity.
Defined.

Lemma thumbnail_size_not_exact_floor :
  thumbnail_size 11 11 = inr (119%Z, 119%Z) /\
  spec_thumbnail_size 11 11 = (120%Z, 120%Z) /\
  thumbnail_size 7479 7434 = inr (120%Z, 119%Z) /\
  spec_thumbnail_size 7479 7434 = (120%Z, 120%Z).
Proof. repeat split; vm_compute; reflexivity. Qed.

Lemma thumbnail_size_within_one_pixel_witness :
  exists nw nh : Z,
    thumbnail_size 7479 7434 = inr (nw, nh) /\
    let '(ew, eh) := spec_thumbnail_size 7479 7434 in
    (ew - 1 <= nw <= ew)%Z /\ (ew <= 160)%Z /\
    (eh - 1 <= nh <= eh)%Z /\ (eh <= 120)%Z /\
    (nw <= 160)%Z /\ (nh <= 120)%Z /\
    let r := Qmin (160 # 7479) (120 # 7434) in
    (inject_Z nw <= inject_Z 7479 * r /\ inject_Z 7479 * r <= inject_Z nw + 1)%Q /\
    (inject_Z nh <= inject_Z 7434 * r /\ inject_Z 7434 * r <= inject_Z nh + 1)%Q.
Proof. apply (thumbnail_size_within_one_pixel 7479 7434); reflexivity. Defined.


Lemma exif_parse_failure_recovered_witness :
  load_exif Sample.lib Sample.picture_no_exif = empty_exif /\
  process_single_file Sample.lib Sample.fs0 (Sample.task_for "in/c.jpg" "skip")
  = process_single_file (with_load Sample.lib (fun _ => ok empty_exif)) Sample.fs0
      (Sample.task_for "in/c.jpg" "skip").
Proof.
  apply (exif_parse_failure_recovered Sample.lib Sample.fs0
           (Sample.task_for "in/c.jpg" "skip") Sample.picture_no_exif
           "Given data isn't JPEG."); vm_compute; reflexivity.
Defined.

Lemma sample_names_free k :
  1 <= k ->
  (<["out/." := Dir]> Sample.fs0 : gmap string node)
    !! nth_name "out/./a-thumb.jpg" k = None.
Proof.
  intros Hk. destruct k as [|[|k]]; [lia | vm_compute; reflexivity |].
  unfold nth_name. change (posixpath.splitext "out/./a-thumb.jpg")
    with ("out/./a-thumb", ".jpg"). cbn [fst snd]. unfold candidate, Sample.fs0.
  repeat (rewrite lookup_insert_ne by discriminate). apply lookup_empty.
Qed.




Lemma overwrite_is_fall_through_witness :
  resolve_conflict Sample.fs_taken "out/./a-thumb.jpg" "a-thumb.jpg" "overwrite"
  = inr "out/./a-thumb.jpg" /\
  process_single_file Sample.lib Sample.fs_taken
    ("in/a.jpg", "out", "{Filename}-thumb", "overwrite", "in", false)
  = (<["out/./a-thumb.jpg" := File [x02; x28; x1e; xaa; xbb; xcc]]> Sample.fs_taken,
     (SUCCESS, success_message (posixpath.basename "in/a.jpg") "out/./a-thumb.jpg")).
Proof.
  apply (overwrite_is_fall_through Sample.lib Sample.fs_taken
           "in/a.jpg" "out" "{Filename}-thumb" "overwrite" "in" false
           Sample.fs_taken [x02; x28; x1e; xaa; xbb; xcc] "a-thumb.jpg"
           "out/./a-thumb.jpg" Sample.garbage);
    first [ discriminate | vm_compute; reflexivity ].
Defined.

Lemma counters_account_for_every_task_witness :
  let runs : list (gmap string node * task) :=
    [(Sample.fs0, Sample.task_for "in/a.jpg" "skip");
     (Sample.fs0, Sample.task_for "in/missing.jpg" "skip")] in
  let arrived : list result :=
    [(process_single_file Sample.lib Sample.fs0
        (Sample.task_for "in/missing.jpg" "skip")).2;
     (process_single_file Sample.lib Sample.fs0
        (Sample.task_for "in/a.jpg" "skip")).2] in
  Forall (fun r : result => valid_status r.1) arrived /\
  (let c := (process_results false arrived 0).1 in
   processed_count c + skipped_exists_count c + failed_count c = length runs /\
   c = (process_results false
          ((fun run : gmap string node * task =>
              (process_single_file Sample.lib run.1 run.2).2) <$> runs) 0).1).
Proof.
  intros runs arrived.
  destruct (counters_account_for_every_task Sample.lib false 0 runs arrived) as (H1 & H2 & _).
  - apply perm_swap.
  - split; [exact H1 | exact H2].
Defined.

(** The scenario of the specification: [A] has a thumbnail, [B] has none,
    [C] is not an image; the template is [{Filename}-thumb] and the policy
    ["skip"]. One file is skipped by the scan, one is processed, one fails,
    and the only new file is [B-thumb.jpg]. *)
Example end_to_end_scenario :
  let fs : gmap string node :=
    <["in/A.jpg" := File [x02; x28; x1e; xaa]]>
      (<["in/B.jpg" := File Sample.picture]>
         (<["in/C.jpg" := File Sample.garbage]>
            (<["in" := Dir]> (<["out" := Dir]> ∅)))) in
  let walk := [("in", [], ["A.jpg"; "B.jpg"; "C.jpg"; "notes.txt"])] in
  let scanned :=
    scan Sample.lib fs walk "out" "{Filename}-thumb" "skip" "in" false in
  let run := run_single_process Sample.lib false fs scanned.1 scanned.2 in
  scanned.2 = 1 /\
  run.2.1 = {| processed_count := 1; skipped_exists_count := 0; failed_count := 1 |} /\
  run.2.2 = [Line "失败 (无法解码): C.jpg"; Summary 1 1 0 1] /\
  run.1 !! "out/./B-thumb.jpg" = Some (File [x02; x28; x1e; xaa; xbb; xcc]) /\
  filter (fun entry : string * node => fs !! entry.1 = None) (map_to_list run.1)
  = [("out/./B-thumb.jpg", File [x02; x28; x1e; xaa; xbb; xcc]); ("out/.", Dir)].
Proof. vm_compute. repeat split. Qed.

(** An exception inside the [try] block reaches the caller as a ["FAILURE"]
    tuple with its text. *)
Example missing_input_fails :
  process_single_file_try Sample.lib Sample.fs0
    (Sample.task_for "in/missing.jpg" "skip")
  = (Sample.fs0, inl "[Errno 2] No such file or directory: 'in/missing.jpg'") /\
  process_single_file Sample.lib Sample.fs0 (Sample.task_for "in/missing.jpg" "skip")
  = (Sample.fs0,
     (FAILURE,
      "失败: missing.jpg ([Errno 2] No such file or directory: 'in/missing.jpg')")).
Proof. split; vm_compute; reflexivity. Qed.

(** A write that the system refuses is an exception like the others: the
    task fails with its text and no file is written or replaced. *)
Example refused_write_fails :
  process_single_file Sample.lib_read_only Sample.fs0 (Sample.task_for "in/a.jpg" "skip")
  = (<["out/." := Dir]> Sample.fs0,
     (FAILURE, "失败: a.jpg ([Errno 13] Permission denied: 'out/./a-thumb.jpg')")) /\
  (process_single_file Sample.lib_read_only Sample.fs_taken
     ("in/a.jpg", "out", "{Filename}-thumb", "overwrite", "in", false)).1
  = Sample.fs_taken.
Proof. split; vm_compute; reflexivity. Qed.

(** A picture too flat for the thumbnail: the height rounds to 0 and
    [cv2.resize] refuses the size. *)
Example flat_picture_fails :
  thumbnail_size 200 1 = inr (160%Z, 0%Z) /\
  (process_single_file Sample.lib
     (<["in/f.jpg" := File [x01; xc8; x01]]> Sample.fs0)
     (Sample.task_for "in/f.jpg" "skip")).2
  = (FAILURE,
     "失败: f.jpg ((-215:Assertion failed) !dsize.empty() in function 'resize')").
Proof. split; vm_compute; reflexivity. Qed.


(** * Further properties of the program

    ** The worker: what a run changes and what it reports *)

Section WorkerProperties.

Variable L : library.

(** The path that is written is the computed one or a name that was free. *)
Lemma resolve_conflict_inr (fs1 : gmap string node) op nf pol target :
  resolve_conflict fs1 op nf pol = inr target ->
  target = op \/ fs1 !! target = None.
Proof.
  unfold resolve_conflict.
  destruct (os.path_exists fs1 op) eqn:E; [|intros [= <-]; by left].
  destruct (String.eqb pol "skip"); [discriminate|].
  destruct (String.eqb pol "rename"); [|intros [= <-]; by left].
  destruct (posixpath.splitext op) as [np ep].
  destruct (rename_loop _ fs1 np ep 2) as [p|] eqn:Hl; intros [= <-]; [|by left].
  right. by apply rename_loop_Some in Hl as (k & _ & -> & Hfree & _).
Qed.

(** What a run is made of, by its status. *)
Lemma process_single_file_cases fs full_path out_root fmt pol root show fs' status message :
  process_single_file L fs (full_path, out_root, fmt, pol, root, show)
  = (fs', (status, message)) ->
  let filename := posixpath.basename full_path in
  (exists fs1 ob nf op target,
      prepare_output L fs (full_path, out_root, fmt, pol, root, show)
      = (fs1, inr (inr (ob, nf, op))) /\
      resolve_conflict fs1 op nf pol = inr target /\
      fs' = <[target := File ob]> fs1 /\
      status = SUCCESS /\ message = success_message filename target) \/
  (exists fs1 ob nf op,
      prepare_output L fs (full_path, out_root, fmt, pol, root, show)
      = (fs1, inr (inr (ob, nf, op))) /\
      fs' = fs1 /\ pol = "skip" /\ is_Some (fs1 !! op) /\
      status = SKIPPED_EXISTS /\ message = "已跳过 (文件已存在): " +:+ nf) \/
  (status = FAILURE /\
   (fs' = fs \/ exists folder, fs !! folder = None /\ fs' = <[folder := Dir]> fs) /\
   (message = "失败 (无法解码): " +:+ filename \/
    message = "失败 (编码缩略图失败): " +:+ filename \/
    exists e, message = failure_message filename e)).
Proof.
  intros Hrun filename.
  destruct (prepare_output L fs (full_path, out_root, fmt, pol, root, show))
    as [fs1 res] eqn:Hprep.
  pose proof (prepare_output_fs L _ _ _ _ Hprep) as (_ & Hfs1 & Hsame).
  unfold process_single_file, process_single_file_try in Hrun.
  rewrite Hprep in Hrun. cbn [task_full_path fst] in Hrun.
  destruct res as [e|[[st msg]|[[ob nf] op]]].
  - injection Hrun as <- <- <-. right; right. split; [reflexivity|].
    split; [left; by apply Hsame|]. right; right. by exists e.
  - injection Hrun as <- <- <-. right; right.
    assert (Hmsg : st = FAILURE /\
              (msg = "失败 (无法解码): " +:+ filename \/
               msg = "失败 (编码缩略图失败): " +:+ filename)).
    { revert Hprep. unfold prepare_output; cbv beta iota zeta.
      destruct (os.read_file _ fs full_path) as [e|original]; [discriminate|].
      destruct (make_thumbnail L _ original) as [e|[early|tb]] eqn:E; try discriminate.
      - intros [= _ ->]. revert E. unfold make_thumbnail, bind_exn.
        destruct (cv2_imdecode L original) as [e|[img|]]; try discriminate.
        + destruct (thumbnail_size _ _) as [e|size]; try discriminate.
          destruct (cv2_resize L img size) as [e|thumb]; try discriminate.
          destruct (cv2_imencode L _ thumb) as [e|[success buf]]; try discriminate.
          destruct success; simpl; [discriminate|]. intros [= <- <-]. split; [done|by right].
        + intros [= <- <-]. split; [done|by left].
      - destruct (embed_thumbnail L original _ tb) as [e|outb]; try discriminate.
        destruct (output_folder L full_path out_root root) as [e|folder]; try discriminate.
        destruct (os.makedirs _ fs folder) as [e|fs2]; discriminate. }
    destruct Hmsg as [-> Hmsg]. split; [reflexivity|].
    split; [left; by apply Hsame|]. destruct Hmsg; auto.
  - unfold write_output in Hrun.
    destruct (resolve_conflict fs1 op nf pol) as [early|target] eqn:Hres.
    + injection Hrun as <- Hr. right; left.
      pose proof (resolve_conflict_early _ _ _ _ _ Hres) as (Hst & -> & Hex).
      rewrite (resolve_conflict_skip _ _ _ Hex) in Hres. injection Hres as <-.
      injection Hr as <- <-. exists fs1, ob, nf, op. done.
    + destruct (os.write_file _ fs1 target ob) as [e|fs2] eqn:Hw.
      * injection Hrun as <- <- <-. right; right. split; [reflexivity|].
        split; [exact Hfs1|]. right; right. by exists e.
      * apply write_file_inr in Hw as (-> & _ & _). injection Hrun as <- <- <-.
        left. exists fs1, ob, nf, op, target. done.
Qed.


(** X2: ["SKIPPED_EXISTS"] is the answer of the policy ["skip"] alone: under
    any other policy a run skips nothing, and every task is processed or
    failed. *)
Theorem nothing_skipped_without_skip_policy show_log fs tasks skipped_thumb_count :
  Forall (fun t => task_conflict_resolution t <> "skip") tasks ->
  let c := (run_single_process L show_log fs tasks skipped_thumb_count).2.1 in
  skipped_exists_count c = 0 /\ processed_count c + failed_count c = length tasks.
Proof.
  intros Hall. cbv zeta. unfold run_single_process.
  pose proof (run_tasks_valid L tasks fs) as [Hv Hlen].
  assert (Hno : count_status SKIPPED_EXISTS (run_tasks L fs tasks).2 = 0).
  { clear Hv Hlen. revert fs. induction Hall as [|t tasks Ht _ IH]; intros fs; [reflexivity|].
    cbn [run_tasks]. destruct (process_single_file L fs t) as [fs1 [st msg]] eqn:E.
    specialize (IH fs1). destruct (run_tasks L fs1 tasks) as [fs2 rs]. cbn [snd] in *.
    rewrite count_status_cons, IH. cbn [fst].
    destruct (decide (st = SKIPPED_EXISTS)) as [->|]; [|reflexivity]. exfalso.
    destruct t as [[[[[full_path out_root] fmt] pol] root] show].
    destruct (process_single_file_cases _ _ _ _ _ _ _ _ _ _ E)
      as [(? & ? & ? & ? & ? & _ & _ & _ & [=] & _)
         |[(? & ? & ? & ? & _ & _ & -> & _)|([=] & _)]].
    by apply Ht. }
  destruct (run_tasks L fs tasks) as [fs1 rs]. cbn [fst snd] in *.
  rewrite process_results_counters.
  cbn [processed_count skipped_exists_count failed_count].
  split; [exact Hno|]. pose proof (count_status_total rs Hv). lia.
Qed.

Lemma message_forms fs full_path out_root fmt pol root show fs' status message :
  process_single_file L fs (full_path, out_root, fmt, pol, root, show)
  = (fs', (status, message)) ->
  let filename := posixpath.basename full_path in
  (status = SUCCESS /\
   exists output_path output_bytes,
     fs' !! output_path = Some (File output_bytes) /\
     message = "已处理: " +:+ filename +:+ " -> " +:+ posixpath.basename output_path) \/
  (status = SKIPPED_EXISTS /\ pol = "skip" /\
   message = "已跳过 (文件已存在): " +:+ output_filename filename fmt) \/
  (status = FAILURE /\
   (message = "失败 (无法解码): " +:+ filename \/
    message = "失败 (编码缩略图失败): " +:+ filename \/
    exists e, message = "失败: " +:+ filename +:+ " (" +:+ e +:+ ")")).
Proof.
  intros Hrun filename.
  destruct (process_single_file_cases _ _ _ _ _ _ _ _ _ _ Hrun)
    as [(fs1 & ob & nf & op & target & Hprep & _ & -> & -> & ->)
       |[(fs1 & ob & nf & op & Hprep & -> & -> & _ & -> & ->)
        |(-> & _ & Hmsg)]].
  - left. split; [reflexivity|]. exists target, ob.
    split; [by rewrite lookup_insert_eq | reflexivity].
  - right; left. split; [reflexivity|]. split; [reflexivity|].
    destruct (prepare_output_inv L _ _ _ _ _ _ _ _ _ _ _ Hprep)
      as (_ & _ & _ & _ & _ & _ & _ & _ & -> & _). reflexivity.
  - right; right. split; [reflexivity|]. exact Hmsg.
Qed.

(** X3: the message of a result has one of five forms, fixed by the status:
    one for a success (it names the file written), one for a skip (it names
    the computed file name; the policy is then ["skip"]), three for a
    failure (not decodable, thumbnail not encodable, or the text of the
    exception). *)
Theorem result_message_forms fs full_path out_root fmt pol root show
    fs' status message :
  process_single_file L fs (full_path, out_root, fmt, pol, root, show)
  = (fs', (status, message)) ->
  let filename := posixpath.basename full_path in
  (status = SUCCESS /\
   exists output_path output_bytes,
     fs' !! output_path = Some (File output_bytes) /\
     message = "已处理: " +:+ filename +:+ " -> " +:+ posixpath.basename output_path) \/
  (status = SKIPPED_EXISTS /\ pol = "skip" /\
   message = "已跳过 (文件已存在): " +:+ output_filename filename fmt) \/
  (status = FAILURE /\
   (message = "失败 (无法解码): " +:+ filename \/
    message = "失败 (编码缩略图失败): " +:+ filename \/
    exists e, message = "失败: " +:+ filename +:+ " (" +:+ e +:+ ")")).
Proof. apply message_forms. Qed.

(** What [make_thumbnail] returns as a thumbnail went through the four calls
    of lines 36-46. *)
Lemma make_thumbnail_inv filename original_bytes thumb_buf :
  make_thumbnail L filename original_bytes = inr (inr thumb_buf) ->
  exists img size thumb,
    cv2_imdecode L original_bytes = inr (Some img) /\
    thumbnail_size (img_width img) (img_height img) = inr size /\
    cv2_resize L img size = inr thumb /\
    cv2_imencode L ".jpg" thumb = inr (true, thumb_buf).
Proof.
  unfold make_thumbnail, bind_exn.
  destruct (cv2_imdecode L original_bytes) as [e|[img|]] eqn:E1; try discriminate.
  destruct (thumbnail_size _ _) as [e|size] eqn:E2; try discriminate.
  destruct (cv2_resize L img size) as [e|thumb] eqn:E3; try discriminate.
  destruct (cv2_imencode L _ thumb) as [e|[success buf]] eqn:E4; try discriminate.
  destruct success; simpl; [|discriminate]. intros [= <-]. by exists img, size, thumb.
Qed.


End WorkerProperties.

(** ** The name of the output *)

Lemma rsplit_tail c s : forall l r,
  posixpath.rsplit c s = Some (l, r) -> posixpath.rsplit c r = None.
Proof.
  induction s as [|a s IH]; intros l r H; [discriminate|].
  simpl in H. destruct (posixpath.rsplit c s) as [[l' r']|] eqn:E.
  - injection H as _ <-. by eapply IH.
  - destruct (Ascii.eqb a c); [|discriminate]. by injection H as _ <-.
Qed.

Lemma rsplit_app_None c a b :
  posixpath.rsplit c a = None -> posixpath.rsplit c b = None ->
  posixpath.rsplit c (a +:+ b) = None.
Proof.
  intros Ha Hb. induction a as [|x a IH]; [exact Hb|].
  rewrite string_app_cons. simpl in *.
  destruct (posixpath.rsplit c a) as [[l r]|]; [discriminate|].
  rewrite IH by reflexivity. destruct (Ascii.eqb x c); [discriminate | reflexivity].
Qed.

Lemma rsplit_None_app c a b :
  posixpath.rsplit c (a +:+ b) = None ->
  posixpath.rsplit c a = None /\ posixpath.rsplit c b = None.
Proof.
  induction a as [|x a IH]; intros H; [by split|].
  rewrite string_app_cons in H. simpl in *.
  destruct (posixpath.rsplit c (a +:+ b)) as [[l r]|]; [discriminate|].
  destruct (IH eq_refl) as [-> ->].
  destruct (Ascii.eqb x c); [discriminate | by split].
Qed.

Lemma rsplit_build c l r :
  posixpath.rsplit c r = None -> posixpath.rsplit c (l +:+ String c r) = Some (l, r).
Proof.
  intros Hr. induction l as [|x l IH].
  - simpl. by rewrite Hr, Ascii.eqb_refl.
  - rewrite string_app_cons. simpl. by rewrite IH.
Qed.

(** A base name holds no separator. *)
Lemma basename_no_sep p : posixpath.rsplit posixpath.sep (posixpath.basename p) = None.
Proof.
  unfold posixpath.basename.
  destruct (posixpath.rsplit posixpath.sep p) as [[l r]|] eqn:E; [|exact E].
  by eapply rsplit_tail.
Qed.

(** [os.path.basename(os.path.join(a, b))] is [b] when [b] holds no
    separator. *)
Lemma basename_join a b :
  posixpath.rsplit posixpath.sep b = None ->
  posixpath.basename (posixpath.join a b) = b.
Proof.
  intros Hb. unfold posixpath.join.
  assert (Hs : pystr.startswith b "/" = false).
  { destruct b as [|x b]; [reflexivity|]. cbn [pystr.startswith].
    destruct (Ascii.eqb x "/") eqn:E; [|reflexivity]. apply Ascii.eqb_eq in E. subst x.
    simpl in Hb. destruct (posixpath.rsplit posixpath.sep b) as [[? ?]|]; discriminate. }
  rewrite Hs.
  assert (Hplain : posixpath.basename b = b).
  { unfold posixpath.basename. by rewrite Hb. }
  assert (Hsep : forall l, posixpath.basename (l +:+ "/" +:+ b) = b).
  { intros l. unfold posixpath.basename.
    change ("/" +:+ b) with (String posixpath.sep b). by rewrite rsplit_build. }
  destruct (String.eqb a "") eqn:Ea; cbn [orb].
  - apply String.eqb_eq in Ea. subst a. exact Hplain.
  - destruct (pystr.endswith a "/") eqn:Ee.
    + apply endswith_spec in Ee as [prefix ->]. rewrite string_app_assoc. apply Hsep.
    + apply Hsep.
Qed.

(** [s.replace(old, new)] is [s] when [old] does not occur in [s]. *)
Lemma replace_without s old new :
  pystr.contains s old = false -> pystr.replace s old new = s.
Proof.
  unfold pystr.replace. induction s as [|a s IH]; intros H; [reflexivity|].
  cbn [pystr.contains] in H. apply orb_false_iff in H as [H1 H2].
  cbn [pystr.replace_from]. rewrite H1. f_equal. by apply IH.
Qed.

Lemma default_format_name filename :
  output_filename filename "{Filename}-thumb"
  = (posixpath.splitext filename).1 +:+ "-thumb" +:+ (posixpath.splitext filename).2.
Proof.
  unfold output_filename. destruct (posixpath.splitext filename) as [name ext].
  cbn [fst snd]. change (pystr.replace "{Filename}-thumb" "{Filename}" name)
    with (name +:+ "-thumb"). by rewrite string_app_assoc.
Qed.

Section OutputName.

Variable L : library.

(** [prepare_output] leaves the input as it is. *)
Lemma prepare_output_keeps_input fs args fs1 r :
  prepare_output L fs args = (fs1, r) ->
  fs1 !! task_full_path args = fs !! task_full_path args.
Proof.
  intros H. pose proof (prepare_output_fs L _ _ _ _ H) as (Hsub & _ & Hsame).
  destruct r as [e|[early|x]]; try (rewrite Hsame; done).
  destruct (prepare_output_reads L _ _ _ _ H) as [ob Hob].
  rewrite Hob. by eapply lookup_weaken.
Qed.

(** A run whose output has another base name than its input leaves the
    input as it is, whatever the policy. *)
Lemma other_name_keeps_input fs full_path out_root fmt pol root show fs' r :
  let filename := posixpath.basename full_path in
  posixpath.rsplit posixpath.sep (output_filename filename fmt) = None ->
  output_filename filename fmt <> filename ->
  process_single_file L fs (full_path, out_root, fmt, pol, root, show) = (fs', r) ->
  fs' !! full_path = fs !! full_path.
Proof.
  intros filename Hsep Hne Hrun.
  destruct (prepare_output L fs (full_path, out_root, fmt, pol, root, show))
    as [fs1 res] eqn:Hprep.
  pose proof (prepare_output_keeps_input _ _ _ _ Hprep) as Hkeep.
  cbn [task_full_path fst] in Hkeep.
  destruct res as [e|[early|[[ob nf] op]]].
  - destruct (process_single_file_not_prepared L _ _ _ _ Hprep) as [m Hm]; [done|].
    rewrite Hm in Hrun. by injection Hrun as <- _.
  - destruct (process_single_file_not_prepared L _ _ _ _ Hprep) as [m Hm]; [done|].
    rewrite Hm in Hrun. by injection Hrun as <- _.
  - rewrite (process_single_file_prepared L _ _ _ _ _ _ _ _ _ _ _ Hprep) in Hrun.
    unfold write_output in Hrun.
    destruct (resolve_conflict fs1 op nf pol) as [early|target] eqn:Hres.
    { by injection Hrun as <- _. }
    destruct (os.write_file _ fs1 target ob) as [e|fs2] eqn:Hw.
    { by injection Hrun as <- _. }
    apply write_file_inr in Hw as (-> & _ & _). injection Hrun as <- _.
    rewrite <- Hkeep. apply lookup_insert_ne.
    destruct (prepare_output_reads L _ _ _ _ Hprep) as [original Hob].
    cbn [task_full_path fst] in Hob. rewrite <- Hkeep in Hob.
    destruct (resolve_conflict_inr _ _ _ _ _ Hres) as [->|Hfree].
    + destruct (prepare_output_inv L _ _ _ _ _ _ _ _ _ _ _ Hprep)
        as (_ & _ & folder & _ & _ & _ & _ & _ & -> & ->).
      intros Heq. apply Hne. fold filename in Heq |- *.
      rewrite <- (basename_join folder _ Hsep). by rewrite Heq.
    + intros ->. rewrite Hob in Hfree. discriminate.
Qed.


End OutputName.

(** X6: a file-name format in which [{Filename}] does not occur gives every
    input the same base: the output is called by the format followed by the
    extension of the input, so that the inputs of one folder that share an
    extension share their output name. *)
Theorem format_without_placeholder filename filename_format :
  pystr.contains filename_format "{Filename}" = false ->
  output_filename filename filename_format
  = filename_format +:+ (posixpath.splitext filename).2 /\
  forall other,
    (posixpath.splitext other).2 = (posixpath.splitext filename).2 ->
    output_filename other filename_format = output_filename filename filename_format.
Proof.
  intros H.
  assert (Hname : forall f, output_filename f filename_format
                            = filename_format +:+ (posixpath.splitext f).2).
  { intros f. unfold output_filename. destruct (posixpath.splitext f) as [name ext].
    by rewrite replace_without. }
  split; [apply Hname|]. intros other He. by rewrite !Hname, He.
Qed.

(** ** The size of the thumbnail *)

Section ThumbnailBox.

Import Float64 Float64Facts.
Local Open Scope Q_scope.

(** The computed dimensions, each within one below the exact scaled
    dimension. *)
Lemma thumbnail_size_near (w h : positive) :
  (Z.pos w < 2 ^ 31)%Z -> (Z.pos h < 2 ^ 31)%Z ->
  exists nw nh : Z,
    thumbnail_size (Npos w) (Npos h) = inr (nw, nh) /\
    let r := Qmin (160 # w) (120 # h) in
    (r == 160 # w \/ r == 120 # h) /\
    r <= 160 # w /\ r <= 120 # h /\
    inject_Z nw <= inject_Z (Z.pos w) * r /\ inject_Z (Z.pos w) * r <= inject_Z nw + 1 /\
    inject_Z nh <= inject_Z (Z.pos h) * r /\ inject_Z (Z.pos h) * r <= inject_Z nh + 1.
Proof.
  intros Hw Hh. eexists _, _. split; [reflexivity|].
  destruct (ratio_spec w h) as (Hr & R1 & R2).
  set (r := Qmin (160 # w) (120 # h)) in *. cbv zeta.
  change (Z.of_N target_width # w) with (160 # w).
  change (Z.of_N target_height # h) with (120 # h).
  set (ratio := Float64.min (round (160 # w)) (round (120 # h))) in *.
  change (Z.of_N (N.pos w)) with (Z.pos w). change (Z.of_N (N.pos h)) with (Z.pos h).
  assert (Ea : inject_Z (Z.pos w) * (160 # w) == 160).
  { unfold Qeq, Qmult, inject_Z; simpl. lia. }
  assert (Eb : inject_Z (Z.pos h) * (120 # h) == 120).
  { unfold Qeq, Qmult, inject_Z; simpl. lia. }
  assert (Eab : inject_Z (Z.pos w) * (120 # h) == (Z.pos w * 120) # h).
  { unfold Qeq, Qmult, inject_Z; simpl. lia. }
  assert (Eba : inject_Z (Z.pos h) * (160 # w) == (Z.pos h * 160) # w).
  { unfold Qeq, Qmult, inject_Z; simpl. lia. }
  pose proof (Q.le_min_l (160 # w) (120 # h)) as L1.
  pose proof (Q.le_min_r (160 # w) (120 # h)) as L2. fold r in L1, L2.
  assert (Pw : 0 < inject_Z (Z.pos w)) by reflexivity.
  assert (Ph : 0 < inject_Z (Z.pos h)) by reflexivity.
  assert (Tw : inject_Z (Z.pos w) * r <= 160) by (rewrite <- Ea; nra).
  assert (Th : inject_Z (Z.pos h) * r <= 120) by (rewrite <- Eb; nra).
  assert (Hr' : r == (160 # w) \/ r == (120 # h)).
  { unfold r. destruct (Q.min_spec (160 # w) (120 # h)) as [[_ E]|[_ E]]; auto. }
  assert (Dw : exists N D, inject_Z (Z.pos w) * r == N # D /\ (Z.pos D <= 2147483648)%Z).
  { destruct Hr' as [E|E].
    - exists 160%Z, 1%positive. split; [rewrite E; exact Ea | lia].
    - exists (Z.pos w * 120)%Z, h. split; [rewrite E; exact Eab | lia]. }
  assert (Dh : exists N D, inject_Z (Z.pos h) * r == N # D /\ (Z.pos D <= 2147483648)%Z).
  { destruct Hr' as [E|E].
    - exists (Z.pos h * 160)%Z, w. split; [rewrite E; exact Eba | lia].
    - exists 120%Z, 1%positive. split; [rewrite E; exact Eb | lia]. }
  destruct Dw as (Nw & Dw & Ew & HDw). destruct Dh as (Nh & Dh & Eh & HDh).
  assert (Th' : inject_Z (Z.pos h) * r <= 160) by lra.
  destruct (scaled_dimension (Z.pos w) r ratio Nw Dw eq_refl Hr R1 R2 Tw Ew HDw) as [W1 W2].
  destruct (scaled_dimension (Z.pos h) r ratio Nh Dh eq_refl Hr R1 R2 Th' Eh HDh) as [H1 H2].
  repeat split; assumption.
Qed.

Lemma inject_Z_lt_1 (v : Z) (t : Q) : inject_Z v <= t -> t < 1 -> (v <= 0)%Z.
Proof.
  intros H1 H2. assert (H : inject_Z v < inject_Z 1) by (change (inject_Z 1) with 1; lra).
  rewrite <- Zlt_Qlt in H. lia.
Qed.

Lemma inject_Z_ge (v k : Z) (t : Q) :
  t <= inject_Z v + 1 -> inject_Z k < t -> (k <= v)%Z.
Proof.
  intros H1 H2. assert (H : inject_Z k < inject_Z (v + 1)).
  { rewrite inject_Z_plus. change (inject_Z 1) with 1. lra. }
  rewrite <- Zlt_Qlt in H. lia.
Qed.

(** X7: the thumbnail is scaled to the box, up as well as down: whatever
    the size of the picture (below 2^31 a side), the computed size is inside
    160 by 120 and reaches it in one dimension, but for the pixel that the
    rounding of the product can take: the width is 159 or 160, or the height
    is 119 or 120. A picture smaller than the box is enlarged. *)
Theorem thumbnail_fills_the_box (w h : positive) :
  (Z.pos w < 2 ^ 31)%Z -> (Z.pos h < 2 ^ 31)%Z ->
  exists nw nh : Z,
    thumbnail_size (Npos w) (Npos h) = inr (nw, nh) /\
    (0 <= nw <= 160)%Z /\ (0 <= nh <= 120)%Z /\
    (159 <= nw \/ 119 <= nh)%Z.
Proof.
  intros Hw Hh.
  destruct (thumbnail_size_near w h Hw Hh)
    as (nw & nh & Hsize & Hr & L1 & L2 & W1 & W2 & H1 & H2).
  exists nw, nh. split; [exact Hsize|]. cbv zeta in *.
  set (r := Qmin (160 # w) (120 # h)) in *.
  assert (Ea : inject_Z (Z.pos w) * (160 # w) == 160).
  { unfold Qeq, Qmult, inject_Z; simpl. lia. }
  assert (Eb : inject_Z (Z.pos h) * (120 # h) == 120).
  { unfold Qeq, Qmult, inject_Z; simpl. lia. }
  assert (Pw : 0 < inject_Z (Z.pos w)) by reflexivity.
  assert (Ph : 0 < inject_Z (Z.pos h)) by reflexivity.
  assert (Hpos : 0 < r).
  { destruct Hr as [E|E]; rewrite E; reflexivity. }
  assert (Tw : inject_Z (Z.pos w) * r <= 160) by (rewrite <- Ea; nra).
  assert (Th : inject_Z (Z.pos h) * r <= 120) by (rewrite <- Eb; nra).
  assert (Nw0 : (0 <= nw)%Z).
  { apply (inject_Z_ge nw 0 _ W2). change (inject_Z 0) with 0. nra. }
  assert (Nh0 : (0 <= nh)%Z).
  { apply (inject_Z_ge nh 0 _ H2). change (inject_Z 0) with 0. nra. }
  assert (Nw160 : (nw <= 160)%Z).
  { rewrite Zle_Qle. change (inject_Z 160) with 160. lra. }
  assert (Nh120 : (nh <= 120)%Z).
  { rewrite Zle_Qle. change (inject_Z 120) with 120. lra. }
  split; [lia|]. split; [lia|].
  destruct Hr as [E|E].
  - left. apply (inject_Z_ge nw 159 _ W2). rewrite E, Ea. reflexivity.
  - right. apply (inject_Z_ge nh 119 _ H2). rewrite E, Eb. reflexivity.
Qed.

(** X8: a picture more than 160 times as wide as it is high gets a
    thumbnail of height 0, one more than 120 times as high as it is wide a
    thumbnail of width 0: the size then given to [cv2.resize] is empty. When
    the width is at most 80 times the height and the height at most 60 times
    the width, both dimensions are at least 1. *)
Theorem thumbnail_side_can_be_zero (w h : positive) :
  (Z.pos w < 2 ^ 31)%Z -> (Z.pos h < 2 ^ 31)%Z ->
  exists nw nh : Z,
    thumbnail_size (Npos w) (Npos h) = inr (nw, nh) /\
    ((160 * Z.pos h < Z.pos w)%Z -> nh = 0%Z) /\
    ((120 * Z.pos w < Z.pos h)%Z -> nw = 0%Z) /\
    ((Z.pos w <= 80 * Z.pos h)%Z -> (Z.pos h <= 60 * Z.pos w)%Z ->
     (1 <= nw)%Z /\ (1 <= nh)%Z).
Proof.
  intros Hw Hh.
  destruct (thumbnail_size_near w h Hw Hh)
    as (nw & nh & Hsize & Hr & L1 & L2 & W1 & W2 & H1 & H2).
  exists nw, nh. split; [exact Hsize|]. cbv zeta in *.
  set (r := Qmin (160 # w) (120 # h)) in *.
  assert (Ea : inject_Z (Z.pos w) * (160 # w) == 160).
  { unfold Qeq, Qmult, inject_Z; simpl. lia. }
  assert (Eb : inject_Z (Z.pos h) * (120 # h) == 120).
  { unfold Qeq, Qmult, inject_Z; simpl. lia. }
  assert (Eab : inject_Z (Z.pos w) * (120 # h) == (Z.pos w * 120) # h).
  { unfold Qeq, Qmult, inject_Z; simpl. lia. }
  assert (Eba : inject_Z (Z.pos h) * (160 # w) == (Z.pos h * 160) # w).
  { unfold Qeq, Qmult, inject_Z; simpl. lia. }
  assert (Pw : 0 < inject_Z (Z.pos w)) by reflexivity.
  assert (Ph : 0 < inject_Z (Z.pos h)) by reflexivity.
  assert (Hpos : 0 < r).
  { destruct Hr as [E|E]; rewrite E; reflexivity. }
  assert (Nw0 : (0 <= nw)%Z).
  { apply (inject_Z_ge nw 0 _ W2). change (inject_Z 0) with 0. nra. }
  assert (Nh0 : (0 <= nh)%Z).
  { apply (inject_Z_ge nh 0 _ H2). change (inject_Z 0) with 0. nra. }
  split; [|split].
  - intros Hflat. cut (nh <= 0)%Z; [lia|].
    apply (inject_Z_lt_1 nh _ H1).
    assert (Hlt : (Z.pos h * 160) # w < 1).
    { unfold Qlt; simpl. lia. }
    assert (Hle : inject_Z (Z.pos h) * r <= inject_Z (Z.pos h) * (160 # w)) by nra.
    rewrite Eba in Hle. lra.
  - intros Htall. cut (nw <= 0)%Z; [lia|].
    apply (inject_Z_lt_1 nw _ W1).
    assert (Hlt : (Z.pos w * 120) # h < 1).
    { unfold Qlt; simpl. lia. }
    assert (Hle : inject_Z (Z.pos w) * r <= inject_Z (Z.pos w) * (120 # h)) by nra.
    rewrite Eab in Hle. lra.
  - intros Hw80 Hh60.
    assert (G1 : 2 <= (Z.pos h * 160) # w).
    { unfold Qle; simpl. lia. }
    assert (G2 : 2 <= (Z.pos w * 120) # h).
    { unfold Qle; simpl. lia. }
    assert (Gw : 2 <= inject_Z (Z.pos w) * r).
    { destruct Hr as [E|E]; rewrite E; [rewrite Ea | rewrite Eab]; [discriminate | exact G2]. }
    assert (Gh : 2 <= inject_Z (Z.pos h) * r).
    { destruct Hr as [E|E]; rewrite E; [rewrite Eba | rewrite Eb]; [exact G1 | discriminate]. }
    split.
    + apply (inject_Z_ge nw 1 _ W2). change (inject_Z 1) with 1. lra.
    + apply (inject_Z_ge nh 1 _ H2). change (inject_Z 1) with 1. lra.
Qed.

End ThumbnailBox.

(** ** The results and the log *)

Lemma fold_count_result_queue show rs : forall c q,
  (fold_left (count_result show) rs (c, q)).2
  = (q ++ map (fun r : result => Line r.2)
            (List.filter (fun r : result => show || String.eqb r.1 "FAILURE") rs))%list.
Proof.
  induction rs as [|[status message] rs IH]; intros c q.
  - cbn. by rewrite app_nil_r.
  - cbn [fold_left List.filter]. unfold count_result at 2. cbn [fst snd].
    rewrite IH. destruct (show || String.eqb status "FAILURE").
    + cbn [map]. by rewrite <- app_assoc.
    + reflexivity.
Qed.

Lemma process_results_queue show_log results skipped_thumb_count :
  (process_results show_log results skipped_thumb_count).2
  = (map (fun r : result => Line r.2)
         (List.filter (fun r : result => show_log || String.eqb r.1 "FAILURE") results)
     ++ [Summary (count_status SUCCESS results) skipped_thumb_count
                 (count_status SKIPPED_EXISTS results)
                 (count_status FAILURE results)])%list.
Proof.
  pose proof (process_results_counters show_log results skipped_thumb_count) as Hc.
  unfold process_results in *.
  pose proof (fold_count_result_queue show_log results
    {| processed_count := 0; skipped_exists_count := 0; failed_count := 0 |} []) as Hq.
  destruct (fold_left _ _ _) as [c q]. cbn [fst snd] in *. subst c q. reflexivity.
Qed.

(** X9: [process_results] puts the message of every failure on the queue,
    the other messages only when the log is switched on, in the order in
    which the results arrive, and after them one summary with the three
    counts and the count of the scan. *)
Theorem failures_are_always_logged show_log results skipped_thumb_count :
  (process_results show_log results skipped_thumb_count).2
  = (map (fun r : result => Line r.2)
         (List.filter (fun r : result => show_log || String.eqb r.1 "FAILURE") results)
     ++ [Summary (count_status SUCCESS results) skipped_thumb_count
                 (count_status SKIPPED_EXISTS results)
                 (count_status FAILURE results)])%list.
Proof. apply process_results_queue. Qed.

(** ** The queue and the log window *)

Lemma startswith_spec s p : pystr.startswith s p = true <-> exists r, s = p +:+ r.
Proof.
  revert s. induction p as [|b p IH]; intros s.
  - destruct s; cbn; split; eauto.
  - destruct s as [|a s]; cbn [pystr.startswith].
    + split; [discriminate|]. intros [r H]. discriminate.
    + rewrite andb_true_iff, Ascii.eqb_eq, IH. split.
      * intros [-> [r ->]]. by exists r.
      * intros [r H]. rewrite string_app_cons in H. injection H as -> ->. eauto.
Qed.

Lemma contains_spec s sub :
  pystr.contains s sub = true <-> exists l r, s = l +:+ sub +:+ r.
Proof.
  induction s as [|a s IH]; cbn [pystr.contains].
  - rewrite orb_false_r, startswith_spec. split.
    + intros [r H]. by exists "", r.
    + intros ([|x l] & r & H); [by exists r | discriminate].
  - rewrite orb_true_iff, startswith_spec, IH. split.
    + intros [[r H] | (l & r & ->)]; [by exists "", r | by exists (String a l), r].
    + intros ([|x l] & r & H); [left; by exists r|]. right.
      rewrite string_app_cons in H. injection H as _ ->. by exists l, r.
Qed.

Lemma contains_app l s r sub :
  pystr.contains s sub = true -> pystr.contains (l +:+ s +:+ r) sub = true.
Proof.
  rewrite !contains_spec. intros (l' & r' & ->). exists (l +:+ l'), (r' +:+ r).
  by rewrite !string_app_assoc.
Qed.

Lemma check_queue_empty a : status_queue a = [] -> check_queue a = a.
Proof. intros H. unfold check_queue. by rewrite H. Qed.

Lemma check_queue_cons a message queue :
  status_queue a = message :: queue ->
  status_queue (check_queue a) = queue /\
  status_text (check_queue a) = status_text a +:+ message +:+ newline /\
  start_button_state (check_queue a)
  = (if ends_run message then NORMAL else start_button_state a) /\
  start_button_text (check_queue a)
  = (if ends_run message then "开始处理" else start_button_text a).
Proof.
  intros H. unfold check_queue. rewrite H. fold (ends_run message).
  by destruct (ends_run message).
Qed.

Lemma ticks_S n a : ticks (S n) a = ticks n (check_queue a).
Proof. unfold ticks. apply Nat.iter_succ_r. Qed.

Lemma string_app_nil_r (s : string) : s +:+ "" = s.
Proof. induction s as [|x s IH]; [reflexivity|]. rewrite string_app_cons. by f_equal. Qed.

Lemma ticks_spec (n : nat) (a : App) :
  let shown := take n (status_queue a) in
  status_queue (ticks n a) = drop n (status_queue a) /\
  status_text (ticks n a) = status_text a +:+ log_lines shown /\
  start_button_state (ticks n a)
  = (if existsb ends_run shown then NORMAL else start_button_state a) /\
  start_button_text (ticks n a)
  = (if existsb ends_run shown then "开始处理" else start_button_text a).
Proof.
  revert a. induction n as [|n IH]; intros a.
  - cbn. by rewrite string_app_nil_r.
  - rewrite ticks_S. destruct (status_queue a) as [|message queue] eqn:Hq.
    + rewrite check_queue_empty by exact Hq. specialize (IH a). rewrite Hq in IH.
      cbv zeta in *. rewrite take_nil, drop_nil in *. exact IH.
    + destruct (check_queue_cons a message queue Hq) as (Q & T & S1 & S2).
      specialize (IH (check_queue a)). cbv zeta in *. rewrite Q, T, S1, S2 in IH.
      destruct IH as (I1 & I2 & I3 & I4).
      cbn [take drop existsb log_lines fold_right].
      fold (log_lines (take n queue)).
      split; [exact I1|]. split; [by rewrite I2, !string_app_assoc|].
      rewrite I3, I4. by destruct (ends_run message), (existsb ends_run (take n queue)).
Qed.

(** X10: the timer shows the messages in the order in which they were put,
    one at each run of [check_queue], each followed by a newline, after what
    the window showed before; a run on an empty queue changes nothing. The
    button is put back to [开始处理], enabled, as soon as one of the messages
    shown passes the test of line 278, and is left as it was until then. *)
Theorem check_queue_shows_in_order (n : nat) (a : App) :
  let shown := take n (status_queue a) in
  status_queue (ticks n a) = drop n (status_queue a) /\
  status_text (ticks n a) = status_text a +:+ log_lines shown /\
  start_button_state (ticks n a)
  = (if existsb ends_run shown then NORMAL else start_button_state a) /\
  start_button_text (ticks n a)
  = (if existsb ends_run shown then "开始处理" else start_button_text a).
Proof. apply ticks_spec. Qed.

(** The three messages that end a run pass the test of line 278. *)
Lemma ends_run_summary duration processed skipped_thumb skipped_exists failed :
  ends_run (summary_text duration processed skipped_thumb skipped_exists failed) = true.
Proof.
  unfold ends_run. apply orb_true_iff; left. apply orb_true_iff; left.
  unfold summary_text.
  change "--- 所有文件处理完毕 ---" with ("--- " +:+ "所有文件处理完毕" +:+ " ---").
  apply contains_spec. exists (newline +:+ "--- "). eexists.
  rewrite !string_app_assoc. reflexivity.
Qed.

Lemma ends_run_pool_error e : ends_run ("!!! 多进程错误: " +:+ e +:+ " !!!") = true.
Proof. unfold ends_run. apply orb_true_iff; left. apply orb_true_iff; right. reflexivity. Qed.

Lemma ends_run_folder_error : ends_run "错误: 请输入有效的输入和输出文件夹路径。" = true.
Proof. reflexivity. Qed.

(** ** The window *)

Lemma failure_message_contains filename e sub :
  pystr.contains filename sub = true ->
  pystr.contains (failure_message filename e) sub = true.
Proof.
  intros H. unfold failure_message.
  apply (contains_app "失败: " filename (" (" +:+ e +:+ ")") sub H).
Qed.

(** X11: the test of line 278 looks for its marker anywhere in a message,
    and the lines of the worker carry the name of the file: the line of a
    processed or failed file whose name contains the marker of the summary
    puts the button back as the summary does, with the rest of the queue
    still to be shown. *)
Theorem file_name_can_end_the_run L fs full_path out_root fmt pol root show
    fs' status message a queue :
  process_single_file L fs (full_path, out_root, fmt, pol, root, show)
  = (fs', (status, message)) ->
  status <> SKIPPED_EXISTS ->
  pystr.contains (posixpath.basename full_path) "所有文件处理完毕" = true ->
  status_queue a = message :: queue ->
  ends_run message = true /\
  status_queue (check_queue a) = queue /\
  start_button_state (check_queue a) = NORMAL /\
  start_button_text (check_queue a) = "开始处理".
Proof.
  intros Hrun Hst Hname Hq.
  assert (Hends : ends_run message = true).
  { unfold ends_run. apply orb_true_iff; left. apply orb_true_iff; left.
    destruct (message_forms L _ _ _ _ _ _ _ _ _ _ Hrun)
      as [(_ & op & ob & _ & ->)|[(-> & _)|(_ & [->|[->|[e ->]]])]].
    - apply (contains_app "已处理: " _ (" -> " +:+ posixpath.basename op) _ Hname).
    - done.
    - rewrite <- (string_app_nil_r (posixpath.basename full_path)).
      apply (contains_app "失败 (无法解码): " _ "" _ Hname).
    - rewrite <- (string_app_nil_r (posixpath.basename full_path)).
      apply (contains_app "失败 (编码缩略图失败): " _ "" _ Hname).
    - apply (failure_message_contains _ e _ Hname). }
  split; [exact Hends|].
  destruct (check_queue_cons a message queue Hq) as (Q & _ & S1 & S2).
  rewrite Hends in S1, S2. done.
Qed.

Lemma put_all_fields duration messages : forall a,
  let a' := fold_left (fun a m => put (message_text duration m) a) messages a in
  status_queue a' = (status_queue a ++ map (message_text duration) messages)%list /\
  status_text a' = status_text a /\
  start_button_state a' = start_button_state a /\
  start_button_text a' = start_button_text a.
Proof.
  induction messages as [|m messages IH]; intros a.
  - cbn. by rewrite app_nil_r.
  - cbn [fold_left map]. specialize (IH (put (message_text duration m) a)).
    cbv zeta in *. destruct IH as (I1 & I2 & I3 & I4).
    rewrite I1, I2, I3, I4. cbn. by rewrite <- app_assoc.
Qed.

Section WindowProperties.

Variable L : library.

(** X12: pressing the button while one of the two labels names no
    directory (the text [尚未选择] of a fresh window, for one) puts the one
    error message and nothing else happens: no scan, no task, no change to
    the file system, the log is not cleared; and when that message is shown
    the button is enabled. *)
Theorem invalid_folder_only_reports walk pool_error schedule duration fs a :
  os.isdir fs (input_path_label a) = false \/ os.isdir fs (output_path_label a) = false ->
  let error := "错误: 请输入有效的输入和输出文件夹路径。" in
  forall fs' a',
  start_processing L walk pool_error schedule duration fs a = (fs', a') ->
  fs' = fs /\
  status_queue a' = (status_queue a ++ [error])%list /\
  status_text a' = status_text a /\
  start_button_state a' = start_button_state a /\
  let shown := ticks (length (status_queue a')) a' in
  status_queue shown = [] /\
  status_text shown = status_text a +:+ log_lines (status_queue a ++ [error]) /\
  start_button_state shown = NORMAL /\
  start_button_text shown = "开始处理".
Proof.
  intros Hdir error. unfold start_processing.
  assert (Hb : negb (os.isdir fs (input_path_label a))
               || negb (os.isdir fs (output_path_label a)) = true).
  { destruct Hdir as [-> | ->]; [reflexivity | apply orb_true_r]. }
  rewrite Hb. intros fs' a' [= <- <-].
  split; [reflexivity|]. split; [reflexivity|]. split; [reflexivity|].
  split; [reflexivity|]. cbv zeta.
  destruct (ticks_spec
              (length (status_queue (put error a))) (put error a)) as (Q & T & S1 & S2).
  cbv zeta in *. rewrite firstn_all in *. rewrite drop_all in Q.
  change (status_queue (put error a)) with (status_queue a ++ [error])%list in *.
  assert (He : existsb ends_run (status_queue a ++ [error]) = true).
  { rewrite existsb_app. apply orb_true_iff; right. reflexivity. }
  rewrite He in S1, S2. done.
Qed.

(** X13: a run through [run_single_process], from the press of the button
    to the last message: the file system is the one the tasks of the scan
    leave, run one after the other; the queue receives the report of the
    scan, the lines of the results and, last, the summary; the four counts
    of the summary add up to the number of walked files with a JPG name;
    and once the timer has shown the queue the log holds exactly these
    messages (what it held before was cleared), and the button is enabled
    again. *)
Theorem single_process_run_accounts walk pool_error schedule duration fs a :
  os.isdir fs (input_path_label a) = true ->
  os.isdir fs (output_path_label a) = true ->
  use_multiprocessing_var a = false ->
  status_queue a = [] ->
  let scanned :=
    scan L fs walk (output_path_label a) (filename_format_entry a)
         (conflict_resolution_var a) (input_path_label a) (show_log_var a) in
  let run := run_single_process L (show_log_var a) fs scanned.1 scanned.2 in
  let c := run.2.1 in
  let summary :=
    summary_text duration (processed_count c) scanned.2 (skipped_exists_count c)
                 (failed_count c) in
  forall fs' a',
  start_processing L walk pool_error schedule duration fs a = (fs', a') ->
  fs' = run.1 /\
  status_queue a'
  = scan_report (length scanned.1) scanned.2 :: map (message_text duration) run.2.2 /\
  last (status_queue a') = Some summary /\
  processed_count c + scanned.2 + skipped_exists_count c + failed_count c
  = length (List.filter (fun entry : string * string => is_jpg_name entry.2)
                        (walk_files walk)) /\
  let shown := ticks (length (status_queue a')) a' in
  status_queue shown = [] /\
  status_text shown = log_lines (status_queue a') /\
  start_button_state shown = NORMAL /\
  start_button_text shown = "开始处理".
Proof.
  intros Hin Hout Hmp Hq scanned run c summary.
  unfold start_processing. rewrite Hin, Hout. cbn [negb orb].
  fold scanned. destruct scanned as [tasks skipped_thumb_count] eqn:Hscan.
  cbn [fst snd] in *.
  change (use_multiprocessing_var (set_start_button_text _ _))
    with (use_multiprocessing_var a).
  change (show_log_var (set_start_button_text _ _)) with (show_log_var a).
  rewrite Hmp. fold run.
  destruct run as [fs1 [c1 messages]] eqn:Hrun. cbn [fst snd] in *. subst c.
  intros fs' a' [= <- <-].
  match goal with
  | |- context [fold_left ?f messages ?a0] =>
      destruct (put_all_fields duration messages a0) as (Q & T & S1 & S2);
      set (a' := fold_left f messages a0) in *
  end.
  cbv zeta in Q, T, S1, S2. cbn in Q, T, S1, S2. rewrite Hq in Q. cbn in Q.
  assert (Hmessages : messages
            = (map (fun r : result => Line r.2)
                 (List.filter (fun r : result => show_log_var a || String.eqb r.1 "FAILURE")
                    (run_tasks L fs tasks).2)
               ++ [Summary (processed_count c1) skipped_thumb_count
                           (skipped_exists_count c1) (failed_count c1)])%list
            /\ processed_count c1 + skipped_exists_count c1 + failed_count c1
               = length tasks).
  { unfold run, run_single_process in Hrun.
    pose proof (run_tasks_valid L tasks fs) as [Hv Hlen].
    destruct (run_tasks L fs tasks) as [fs2 rs]. cbn [fst snd] in *.
    injection Hrun as _ Hpr.
    pose proof (f_equal fst Hpr) as Hc. pose proof (f_equal snd Hpr) as Hm.
    cbn [fst snd] in Hc, Hm.
    rewrite process_results_queue in Hm.
    rewrite process_results_counters in Hc. subst c1 messages.
    cbn [processed_count skipped_exists_count failed_count].
    split; [reflexivity|]. by rewrite count_status_total. }
  destruct Hmessages as [Hm Hcount].
  split; [reflexivity|]. split; [exact Q|]. split; [|split].
  - rewrite Q, Hm, map_app. cbn [map message_text].
    rewrite app_comm_cons, last_snoc. reflexivity.
  - unfold scanned in Hscan. rewrite scan_spec in Hscan. injection Hscan as Ht Hs.
    rewrite <- Hs. assert (Hl : length tasks = length (List.filter
              (fun entry : string * string => is_jpg_name entry.2 &&
                 needs_thumbnail L fs (posixpath.join entry.1 entry.2)) (walk_files walk))).
    { by rewrite <- Ht, length_map. }
    transitivity (length tasks + length (List.filter
              (fun entry : string * string => is_jpg_name entry.2 &&
                 negb (needs_thumbnail L fs (posixpath.join entry.1 entry.2)))
              (walk_files walk))); [lia|].
    rewrite Hl. generalize (walk_files walk). intros l.
    induction l as [|[folder f] l IH]; [reflexivity|].
    cbn [List.filter fst snd]. destruct (is_jpg_name f); cbn [andb]; [|exact IH].
    destruct (needs_thumbnail L fs (posixpath.join folder f)); cbn [negb length]; lia.
  - destruct (ticks_spec (length (status_queue a')) a')
      as (Q' & T' & S1' & S2').
    cbv zeta in *. rewrite firstn_all in *. rewrite drop_all in Q'.
    rewrite T in T'. cbn in T'.
    assert (He : existsb ends_run (status_queue a') = true).
    { rewrite Q, Hm, map_app. cbn [existsb map message_text].
      rewrite existsb_app. cbn [existsb]. rewrite ends_run_summary.
      rewrite orb_true_r. apply orb_true_r. }
    rewrite He in S1', S2'. done.
Qed.

End WindowProperties.

(** X14: a fresh window asks for between one and eight processes, within
    the range of its slider, whatever [os.cpu_count()] returns; the slider
    is enabled and the policy is ["skip"]. *)
Theorem fresh_window_defaults (cpu_count : option N) :
  let a := init cpu_count in
  (1 <= cpu_count_var a <= 8)%Z /\ (cpu_count_var a <= cpu_scaler_to a)%Z /\
  (cpu_scaler_to a = match cpu_count with
                     | Some n => Z.max 1 (Z.of_N n)
                     | None => 1%Z
                     end) /\
  cpu_scaler_state a = NORMAL /\
  start_button_state a = NORMAL /\ status_queue a = [].
Proof.
  destruct cpu_count as [n|]; cbn; [|repeat split; lia].
  destruct (N.eqb_spec n 0) as [->|Hn]; cbn; repeat split; lia.
Qed.

(** ** The process pool: one process between two calls *)

Section WorkerSteps.

Variable L : library.

Lemma rename_loop_is_Some fuel (fs : gmap string node) np ep counter :
  size fs < fuel -> is_Some (rename_loop fuel fs np ep counter).
Proof. intros H. apply (rename_loop_finds _ fs fs); auto. Qed.

Lemma rename_loop_unfold fuel (fs : gmap string node) np ep counter :
  rename_loop (S fuel) fs np ep counter
  = if negb (os.path_exists fs (candidate np ep counter))
    then Some (candidate np ep counter)
    else rename_loop fuel fs np ep (counter + 1).
Proof. reflexivity. Qed.

(** Past a name that is taken, the loop finds what it finds from the next
    counter on. *)
Lemma rename_loop_next (fs : gmap string node) np ep counter :
  is_Some (fs !! candidate np ep counter) ->
  rename_loop (S (size fs)) fs np ep counter
  = rename_loop (S (size fs)) fs np ep (counter + 1).
Proof.
  intros Hex. rewrite (rename_loop_unfold (size fs)).
  rewrite (proj2 (path_exists_true _ _) Hex). cbn [negb].
  assert (Hs : is_Some (rename_loop (size fs) fs np ep (counter + 1))).
  { apply (rename_loop_finds _ fs (delete (candidate np ep counter) fs)).
    - intros j Hj Hfs. rewrite lookup_delete_ne; [done|].
      intros Heq. apply candidate_inj in Heq. lia.
    - rewrite map_size_delete_Some by done.
      pose proof (map_size_ne_0_lookup_2 fs _ Hex). lia. }
  destruct Hs as [p Hp]. rewrite Hp. symmetry.
  eapply rename_loop_more_fuel; [exact Hp | lia].
Qed.

(** A move of a process does not change what the process returns when it is
    left to run alone from there. *)
Lemma worker_step_finish fs w :
  worker_finish L (worker_step L fs w).1 (worker_step L fs w).2 = worker_finish L fs w.
Proof.
  destruct w as [args|args ob nf folder|args ob nf op|args ob np ep counter|args ob op|r].
  - destruct args as [[[[[full_path out_root] fmt] pol] root] show].
    cbn [worker_step worker_finish].
    unfold process_single_file, process_single_file_try, prepare_output, failed.
    cbn [task_full_path fst].
    destruct (os.read_file _ fs full_path) as [e|original]; [reflexivity|].
    destruct (make_thumbnail L _ original) as [e|[early|tb]]; try reflexivity.
    destruct (embed_thumbnail L original _ tb) as [e|outb]; try reflexivity.
    destruct (output_folder L full_path out_root root) as [e|folder]; try reflexivity.
    cbn [fst snd worker_finish].
    destruct (os.makedirs _ fs folder) as [e|fs1]; reflexivity.
  - cbn [worker_step worker_finish]. unfold failed.
    destruct (os.makedirs _ fs folder) as [e|fs1]; reflexivity.
  - cbn [worker_step worker_finish].
    unfold check_and_return, write_output, resolve_conflict.
    assert (Hwrite : forall p,
      worker_finish L fs (AtWrite args ob p)
      = (let (fs', s) :=
           match os.write_file (os_refuses_write L fs p) fs p ob with
           | inl e => (fs, inl e)
           | inr fs2 =>
               (fs2, inr (SUCCESS,
                          success_message
                            (posixpath.basename (task_full_path args)) p))
           end in
         match s with
         | inl e =>
             (fs', (FAILURE,
                    failure_message (posixpath.basename (task_full_path args)) e))
         | inr r => (fs', r)
         end)).
    { intros p. cbn [worker_finish]. unfold write_and_return.
      destruct (os.write_file _ fs p ob); reflexivity. }
    destruct (os.path_exists fs op); [|apply Hwrite].
    destruct (String.eqb (task_conflict_resolution args) "skip"); [reflexivity|].
    destruct (String.eqb (task_conflict_resolution args) "rename"); [|apply Hwrite].
    destruct (posixpath.splitext op) as [np ep]. cbn [fst snd worker_finish].
    destruct (rename_loop_is_Some (S (size fs)) fs np ep 2) as [p Hp]; [lia|].
    rewrite Hp. apply Hwrite.
  - cbn [worker_step worker_finish].
    destruct (os.path_exists fs (candidate np ep counter)) eqn:E; cbn [negb fst snd].
    + apply path_exists_true in E. cbn [worker_finish].
      rewrite (rename_loop_next fs np ep counter E).
      destruct (rename_loop_is_Some (S (size fs)) fs np ep (counter + 1)) as [p Hp]; [lia|].
      by rewrite Hp.
    + cbn [worker_finish]. rewrite rename_loop_unfold, E. reflexivity.
  - cbn [worker_step worker_finish]. unfold write_and_return, failed.
    destruct (os.write_file _ fs op ob) as [e|fs2]; reflexivity.
  - reflexivity.
Qed.

(** A process returns one of the three statuses. *)
Lemma worker_step_status fs w :
  (forall r, w = Returned r -> valid_status r.1) ->
  forall r, (worker_step L fs w).2 = Returned r -> valid_status r.1.
Proof.
  intros Hw r.
  destruct w as [args|args ob nf folder|args ob nf op|args ob np ep counter|args ob op|r0].
  - destruct args as [[[[[full_path out_root] fmt] pol] root] show].
    cbn [worker_step]. unfold failed.
    destruct (os.read_file _ fs full_path) as [e|original];
      [intros [= <-]; right; right; reflexivity|].
    destruct (make_thumbnail L _ original) as [e|[early|tb]] eqn:E.
    + intros [= <-]; right; right; reflexivity.
    + intros [= <-]. right; right. by eapply make_thumbnail_early.
    + destruct (embed_thumbnail L original _ tb) as [e|outb];
        [intros [= <-]; right; right; reflexivity|].
      destruct (output_folder L full_path out_root root) as [e|folder];
        [intros [= <-]; right; right; reflexivity | discriminate].
  - cbn [worker_step]. unfold failed.
    destruct (os.makedirs _ fs folder) as [e|fs1];
      [intros [= <-]; right; right; reflexivity | discriminate].
  - cbn [worker_step].
    destruct (os.path_exists fs op); [|discriminate].
    destruct (String.eqb (task_conflict_resolution args) "skip");
      [intros [= <-]; right; left; reflexivity|].
    destruct (String.eqb (task_conflict_resolution args) "rename"); [|discriminate].
    destruct (posixpath.splitext op) as [np ep]. discriminate.
  - cbn [worker_step]. destruct (negb _); discriminate.
  - cbn [worker_step]. unfold failed.
    destruct (os.write_file _ fs op ob) as [e|fs2]; intros [= <-];
      [right; right; reflexivity | left; reflexivity].
  - cbn [worker_step]. intros [= <-]. by apply Hw.
Qed.

(** From the read to the conflict check, two moves with nothing between
    them are [prepare_output]. *)
Lemma prepared_steps fs args fs1 ob nf op :
  prepare_output L fs args = (fs1, inr (inr (ob, nf, op))) ->
  exists folder,
    worker_step L fs (AtRead args) = (fs, AtMakedirs args ob nf folder) /\
    worker_step L fs (AtMakedirs args ob nf folder) = (fs1, AtExists args ob nf op).
Proof.
  destruct args as [[[[[full_path out_root] fmt] pol] root] show].
  unfold prepare_output; cbv beta iota zeta. cbn [worker_step].
  destruct (os.read_file _ fs full_path) as [e|original]; [discriminate|].
  destruct (make_thumbnail L _ original) as [e|[early|tb]]; try discriminate.
  destruct (embed_thumbnail L original _ tb) as [e|outb]; try discriminate.
  destruct (output_folder L full_path out_root root) as [e|folder]; try discriminate.
  destruct (os.makedirs _ fs folder) as [e|fs2] eqn:E; try discriminate.
  intros [= <- <- <- <-]. exists folder. split; [reflexivity|].
  cbn [worker_step]. by rewrite E.
Qed.

End WorkerSteps.

(** ** The process pool: the schedule *)

Section PoolFacts.

Variable L : library.

Lemma pool_run_cons i schedule st :
  pool_run L (i :: schedule) st = pool_run L schedule (pool_step L i st).
Proof. reflexivity. Qed.

Lemma pool_run_app s1 s2 st :
  pool_run L (s1 ++ s2) st = pool_run L s2 (pool_run L s1 st).
Proof. unfold pool_run. apply fold_left_app. Qed.

(** What holds of the pool and the file system before a schedule and is
    kept by the three kinds of move holds after it. *)
Lemma pool_run_invariant (I : filesystem -> pool -> Prop) :
  (forall fs p i task tasks',
      processes p !! i = Some None -> pending p = task :: tasks' -> I fs p ->
      I fs {| pending := tasks';
              processes := <[i := Some (AtRead task)]> (processes p);
              delivered := delivered p |}) ->
  (forall fs p i r,
      processes p !! i = Some (Some (Returned r)) -> I fs p ->
      I fs {| pending := pending p;
              processes := <[i := None]> (processes p);
              delivered := (delivered p ++ [r])%list |}) ->
  (forall fs p i w,
      processes p !! i = Some (Some w) -> (forall r, w <> Returned r) -> I fs p ->
      I (worker_step L fs w).1
        {| pending := pending p;
           processes := <[i := Some (worker_step L fs w).2]> (processes p);
           delivered := delivered p |}) ->
  forall schedule fs p,
    I fs p -> I (pool_run L schedule (fs, p)).1 (pool_run L schedule (fs, p)).2.
Proof.
  intros Htake Hgive Hmove.
  assert (Hstep : forall i fs p, I fs p ->
            I (pool_step L i (fs, p)).1 (pool_step L i (fs, p)).2).
  { intros i fs p HI. unfold pool_step.
    destruct (processes p !! i) as [[w|]|] eqn:Hi; [| |exact HI].
    - assert (Hw : (forall r, w <> Returned r) ->
                I (worker_step L fs w).1
                  {| pending := pending p;
                     processes := <[i := Some (worker_step L fs w).2]> (processes p);
                     delivered := delivered p |}) by (intros; by eapply Hmove).
      destruct w; try (destruct (worker_step L fs _) as [fs' w'] eqn:E;
                       cbn [fst snd] in *; by apply Hw).
      by eapply Hgive.
    - destruct (pending p) as [|task tasks'] eqn:Hp; [exact HI|].
      by eapply Htake. }
  induction schedule as [|i schedule IH]; intros fs p HI; [exact HI|].
  rewrite pool_run_cons. specialize (Hstep i fs p HI).
  destruct (pool_step L i (fs, p)) as [fs1 p1]. by apply IH.
Qed.

(** The number of busy processes. *)
Lemma busy_insert (l : list (option worker)) i old new :
  l !! i = Some old ->
  length (List.filter busy (<[i := new]> l)) + (if busy old then 1 else 0)
  = length (List.filter busy l) + (if busy new then 1 else 0).
Proof.
  revert i. induction l as [|x l IH]; intros i H; [discriminate|].
  destruct i as [|i]; cbn in H.
  - injection H as ->. cbn [List.filter].
    change (<[0 := new]> (old :: l)) with (new :: l). cbn [List.filter].
    destruct (busy old), (busy new); cbn [length]; lia.
  - change (<[S i := new]> (x :: l)) with (x :: <[i := new]> l).
    cbn [List.filter]. specialize (IH i H).
    destruct (busy x); cbn [length]; lia.
Qed.

Lemma pool_finished_spec p :
  pool_finished p = true <->
  pending p = [] /\ Forall (fun process => process = None) (processes p).
Proof.
  unfold pool_finished. destruct (pending p) as [|t ts].
  - rewrite forallb_forall, Forall_forall. split.
    + intros H. split; [reflexivity|]. intros x Hx.
      apply list_elem_of_In in Hx. specialize (H x Hx). by destruct x.
    + intros [_ H] x Hx. apply list_elem_of_In in Hx. by rewrite (H x Hx).
  - split; [discriminate | by intros [? _]].
Qed.

Lemma no_busy_when_idle (l : list (option worker)) :
  Forall (fun process => process = None) l -> length (List.filter busy l) = 0.
Proof. induction 1 as [|x l -> _ IH]; [reflexivity | exact IH]. Qed.

Lemma pool_results_complete schedule show_log fs tasks
    skipped_thumb_count num_processes fs' p :
  pool_run L schedule (fs, pool_start num_processes tasks) = (fs', p) ->
  pool_finished p = true ->
  length (delivered p) = length tasks /\
  Forall (fun r : result => valid_status r.1) (delivered p) /\
  (0 < num_processes ->
   run_multiprocessing L None schedule show_log fs tasks skipped_thumb_count
                       (Z.of_nat num_processes)
   = (fs', (process_results show_log (delivered p) skipped_thumb_count).2)) /\
  let c := (process_results show_log (delivered p) skipped_thumb_count).1 in
  processed_count c + skipped_exists_count c + failed_count c = length tasks /\
  last (process_results show_log (delivered p) skipped_thumb_count).2
  = Some (Summary (processed_count c) skipped_thumb_count (skipped_exists_count c)
                  (failed_count c)).
Proof.
  pose (I := fun (_ : filesystem) (q : pool) =>
    length (pending q) + length (List.filter busy (processes q)) + length (delivered q)
    = length tasks /\
    Forall (fun r : result => valid_status r.1) (delivered q) /\
    Forall (fun process : option worker =>
              forall r, process = Some (Returned r) -> valid_status r.1)
           (processes q)).
  assert (HI : I (pool_run L schedule (fs, pool_start num_processes tasks)).1
                 (pool_run L schedule (fs, pool_start num_processes tasks)).2).
  { apply pool_run_invariant.
    - intros fs0 q i task tasks' Hi Hp (I1 & I2 & I3). unfold I; cbn [pending processes delivered].
      pose proof (busy_insert _ i None (Some (AtRead task)) Hi) as Hb. cbn [busy] in Hb.
      rewrite Hp in I1. cbn [length] in I1. split; [lia|]. split; [exact I2|].
      apply Forall_insert; [exact I3 | discriminate].
    - intros fs0 q i r Hi (I1 & I2 & I3). unfold I; cbn [pending processes delivered].
      pose proof (busy_insert _ i (Some (Returned r)) None Hi) as Hb. cbn [busy] in Hb.
      rewrite length_app. cbn [length]. split; [lia|]. split.
      + apply Forall_app. split; [exact I2|]. constructor; [|constructor].
        by apply (Forall_lookup_1 _ _ _ _ I3 Hi).
      + apply Forall_insert; [exact I3 | discriminate].
    - intros fs0 q i w Hi Hw (I1 & I2 & I3). unfold I; cbn [pending processes delivered].
      pose proof (busy_insert _ i (Some w) (Some (worker_step L fs0 w).2) Hi) as Hb.
      cbn [busy] in Hb. split; [lia|]. split; [exact I2|].
      apply Forall_insert; [exact I3|]. intros r [= Hr].
      eapply worker_step_status; [|exact Hr]. intros r0 ->. by destruct (Hw r0).
    - unfold I, pool_start; cbn [pending processes delivered]. split; [|split].
      + assert (Hidle : length (List.filter busy (replicate num_processes None)) = 0).
        { apply no_busy_when_idle. apply Forall_replicate. reflexivity. }
        cbn [length]. lia.
      + constructor.
      + apply Forall_replicate. discriminate. }
  intros Hrun Hfin. rewrite Hrun in HI.
  cbn [fst snd] in HI. destruct HI as (I1 & I2 & I3).
  pose proof Hfin as Hfin'. apply pool_finished_spec in Hfin' as [Hp Hidle].
  rewrite Hp, (no_busy_when_idle _ Hidle) in I1. cbn [length] in I1.
  split; [lia|]. split; [exact I2|]. split; [|split].
  - intros Hn. unfold run_multiprocessing.
    assert (Hlt : (Z.of_nat num_processes <? 1)%Z = false) by (apply Z.ltb_ge; lia).
    rewrite Hlt, Nat2Z.id, Hrun, Hfin. reflexivity.
  - rewrite process_results_counters.
    cbn [processed_count skipped_exists_count failed_count].
    rewrite count_status_total by exact I2. lia.
  - rewrite process_results_queue, process_results_counters.
    cbn [processed_count skipped_exists_count failed_count]. apply last_snoc.
Qed.

(** X15: whatever the number of processes and the order in which they move,
    when the iterator is exhausted it has yielded one result for each task,
    each with one of the three statuses, so that the three counts add up to
    the number of tasks and the summary is the last message put. *)
Theorem pool_accounts_for_every_task schedule show_log fs tasks
    skipped_thumb_count num_processes fs' p :
  pool_run L schedule (fs, pool_start num_processes tasks) = (fs', p) ->
  pool_finished p = true ->
  length (delivered p) = length tasks /\
  Forall (fun r : result => valid_status r.1) (delivered p) /\
  (0 < num_processes ->
   run_multiprocessing L None schedule show_log fs tasks skipped_thumb_count
                       (Z.of_nat num_processes)
   = (fs', (process_results show_log (delivered p) skipped_thumb_count).2)) /\
  let c := (process_results show_log (delivered p) skipped_thumb_count).1 in
  processed_count c + skipped_exists_count c + failed_count c = length tasks /\
  last (process_results show_log (delivered p) skipped_thumb_count).2
  = Some (Summary (processed_count c) skipped_thumb_count (skipped_exists_count c)
                  (failed_count c)).
Proof. apply pool_results_complete. Qed.

End PoolFacts.

(** ** The process pool: what holds under every schedule, and what does not *)

Section PoolSafety.

Variable L : library.

Lemma pool_run_keeps schedule fs tasks num_processes :
  Forall careful tasks ->
  fs ⊆ (pool_run L schedule (fs, pool_start num_processes tasks)).1.
Proof.
  intros Hcareful.
  pose (safe := fun process : option worker =>
    match process with
    | None | Some (Returned _) => True
    | Some (AtRead a) | Some (AtMakedirs a _ _ _) | Some (AtExists a _ _ _)
    | Some (AtRenameExists a _ _ _ _) => careful a
    | Some (AtWrite _ _ output_path) => fs !! output_path = None
    end).
  pose (Inv := fun (fs' : filesystem) (q : pool) =>
    fs ⊆ fs' /\ Forall careful (pending q) /\ Forall safe (processes q)).
  cut (Inv (pool_run L schedule (fs, pool_start num_processes tasks)).1
         (pool_run L schedule (fs, pool_start num_processes tasks)).2).
  { by intros [? _]. }
  apply pool_run_invariant.
  - intros fs' q i task tasks' Hi Hp (I1 & I2 & I3).
    unfold Inv; cbn [pending processes]. rewrite Hp in I2.
    apply Forall_cons in I2 as [Ht I2]. split; [exact I1|]. split; [exact I2|].
    apply Forall_insert; [exact I3 | exact Ht].
  - intros fs' q i r Hi (I1 & I2 & I3). unfold Inv; cbn [pending processes].
    split; [exact I1|]. split; [exact I2|]. apply Forall_insert; [exact I3 | exact I].
  - intros fs' q i w Hi Hw (I1 & I2 & I3). unfold Inv; cbn [pending processes].
    pose proof (Forall_lookup_1 _ _ _ _ I3 Hi) as Hsafe.
    cut (fs ⊆ (worker_step L fs' w).1 /\ safe (Some (worker_step L fs' w).2)).
    { intros [? ?]. split; [done|]. split; [exact I2|]. by apply Forall_insert. }
    destruct w as [args|args ob nf folder|args ob nf op|args ob np ep counter|args ob op|r];
      cbn [safe] in Hsafe.
    + destruct args as [[[[[full_path out_root] fmt] pol] root] show].
      cbn [worker_step]. unfold failed.
      destruct (os.read_file _ fs' full_path) as [e|original]; [done|].
      destruct (make_thumbnail L _ original) as [e|[early|tb]]; try done.
      destruct (embed_thumbnail L original _ tb) as [e|outb]; try done.
      destruct (output_folder L full_path out_root root) as [e|folder]; done.
    + cbn [worker_step]. unfold failed.
      destruct (os.makedirs _ fs' folder) as [e|fs1] eqn:E; [done|].
      apply makedirs_inr in E as (Hsub & _). cbn [fst snd safe]. split; [by etrans | done].
    + cbn [worker_step].
      destruct (os.path_exists fs' op) eqn:E.
      * destruct Hsafe as [Hpol|Hpol]; rewrite Hpol; cbn; [done|].
        destruct (posixpath.splitext op) as [np ep]. cbn [fst snd safe]. split; [done|].
        by right.
      * apply path_exists_false in E. cbn [fst snd safe]. split; [done|].
        by eapply lookup_weaken_None.
    + cbn [worker_step].
      destruct (os.path_exists fs' (candidate np ep counter)) eqn:E; cbn [negb fst snd safe].
      * done.
      * apply path_exists_false in E. split; [done|]. by eapply lookup_weaken_None.
    + cbn [worker_step]. unfold failed.
      destruct (os.write_file _ fs' op ob) as [e|fs2] eqn:E; [done|].
      apply write_file_inr in E as (-> & _ & _). cbn [fst snd safe]. split; [|done].
      by apply insert_subseteq_r.
    + by destruct (Hw r).
  - unfold Inv, pool_start; cbn [pending processes]. split; [done|]. split; [exact Hcareful|].
    apply Forall_replicate. exact I.
Qed.

(** X16: under ["skip"] and ["rename"] the pool changes nothing that was
    there when it started, whatever the number of processes, the order of
    their moves and the point at which it is looked at: a process writes
    only to a name that it saw free, and no name is ever freed. *)
Theorem pool_keeps_what_existed schedule fs tasks num_processes :
  Forall careful tasks ->
  fs ⊆ (pool_run L schedule (fs, pool_start num_processes tasks)).1.
Proof. apply pool_run_keeps. Qed.

(** ** One process *)

Lemma pool_step_move i fs pnd procs dlv w :
  procs !! i = Some (Some w) -> (forall r, w <> Returned r) ->
  pool_step L i (fs, {| pending := pnd; processes := procs; delivered := dlv |})
  = ((worker_step L fs w).1,
     {| pending := pnd; processes := <[i := Some (worker_step L fs w).2]> procs;
        delivered := dlv |}).
Proof.
  intros Hi Hw. unfold pool_step. cbn [processes pending delivered]. rewrite Hi.
  destruct w; try (destruct (worker_step L fs _); reflexivity). by destruct (Hw r).
Qed.

Lemma pool_step_give i fs pnd procs dlv r :
  procs !! i = Some (Some (Returned r)) ->
  pool_step L i (fs, {| pending := pnd; processes := procs; delivered := dlv |})
  = (fs, {| pending := pnd; processes := <[i := None]> procs;
            delivered := (dlv ++ [r])%list |}).
Proof. intros Hi. unfold pool_step. cbn [processes pending delivered]. by rewrite Hi. Qed.

Lemma pool_step_take i fs task pnd procs dlv :
  procs !! i = Some None ->
  pool_step L i (fs, {| pending := task :: pnd; processes := procs; delivered := dlv |})
  = (fs, {| pending := pnd; processes := <[i := Some (AtRead task)]> procs;
            delivered := dlv |}).
Proof. intros Hi. unfold pool_step. cbn [processes pending delivered]. by rewrite Hi. Qed.

(** A process that moves alone returns, and returns what [worker_finish]
    says. *)
Lemma alone_returns w : forall fs pnd dlv,
  exists k,
    pool_run L (replicate k 0)
      (fs, {| pending := pnd; processes := [Some w]; delivered := dlv |})
    = ((worker_finish L fs w).1,
       {| pending := pnd; processes := [None];
          delivered := (dlv ++ [(worker_finish L fs w).2])%list |}).
Proof.
  pose (Q := fun fs w => forall pnd dlv,
    exists k,
      pool_run L (replicate k 0)
        (fs, {| pending := pnd; processes := [Some w]; delivered := dlv |})
      = ((worker_finish L fs w).1,
         {| pending := pnd; processes := [None];
            delivered := (dlv ++ [(worker_finish L fs w).2])%list |})).
  assert (Hret : forall fs r, Q fs (Returned r)).
  { intros fs r pnd dlv. exists 1. cbn [replicate]. rewrite pool_run_cons.
    rewrite (pool_step_give 0 fs pnd [Some (Returned r)] dlv r) by reflexivity.
    reflexivity. }
  assert (Hstep : forall fs w0, (forall r, w0 <> Returned r) ->
            Q (worker_step L fs w0).1 (worker_step L fs w0).2 -> Q fs w0).
  { intros fs w0 Hw HQ pnd dlv.
    destruct (HQ pnd dlv) as [k Hk].
    exists (S k). cbn [replicate]. rewrite pool_run_cons.
    rewrite (pool_step_move 0 fs pnd [Some w0] dlv w0) by done.
    change (<[0 := Some (worker_step L fs w0).2]> [Some w0])
      with [Some (worker_step L fs w0).2].
    rewrite Hk, worker_step_finish. reflexivity. }
  assert (Hwrite : forall fs args ob op, Q fs (AtWrite args ob op)).
  { intros fs args ob op. apply Hstep; [discriminate|].
    cbn [worker_step]. unfold failed.
    destruct (os.write_file _ fs op ob); apply Hret. }
  assert (Hrename : forall fs args ob np ep counter,
            Q fs (AtRenameExists args ob np ep counter)).
  { intros fs args ob np ep counter.
    destruct (rename_loop_is_Some (S (size fs)) fs np ep counter) as [p Hp]; [lia|].
    revert counter Hp. generalize (S (size fs)) as fuel.
    induction fuel as [|fuel IH]; intros counter Hp; [discriminate|].
    apply Hstep; [discriminate|]. cbn [worker_step].
    rewrite rename_loop_unfold in Hp.
    destruct (negb (os.path_exists fs (candidate np ep counter))); cbn [fst snd].
    - apply Hwrite.
    - by apply IH. }
  assert (Hexists : forall fs args ob nf op, Q fs (AtExists args ob nf op)).
  { intros fs args ob nf op. apply Hstep; [discriminate|]. cbn [worker_step].
    destruct (os.path_exists fs op); [|apply Hwrite].
    destruct (String.eqb (task_conflict_resolution args) "skip"); [apply Hret|].
    destruct (String.eqb (task_conflict_resolution args) "rename"); [|apply Hwrite].
    destruct (posixpath.splitext op) as [np ep]. apply Hrename. }
  assert (Hmakedirs : forall fs args ob nf folder, Q fs (AtMakedirs args ob nf folder)).
  { intros fs args ob nf folder. apply Hstep; [discriminate|]. cbn [worker_step].
    unfold failed. destruct (os.makedirs _ fs folder); [apply Hret | apply Hexists]. }
  intros fs.
  destruct w as [args|args ob nf folder|args ob nf op|args ob np ep counter|args ob op|r].
  - apply Hstep; [discriminate|].
    destruct args as [[[[[full_path out_root] fmt] pol] root] show].
    cbn [worker_step]. unfold failed.
    destruct (os.read_file _ fs full_path) as [e|original]; [apply Hret|].
    destruct (make_thumbnail L _ original) as [e|[early|tb]]; try apply Hret.
    destruct (embed_thumbnail L original _ tb) as [e|outb]; try apply Hret.
    destruct (output_folder L full_path out_root root) as [e|folder];
      [apply Hret | apply Hmakedirs].
  - apply Hmakedirs.
  - apply Hexists.
  - apply Hrename.
  - apply Hwrite.
  - apply Hret.
Qed.

(** With one process every list of tasks is worked off. *)
Lemma one_process_finishes tasks : forall fs dlv,
  exists k fs' dlv',
    pool_run L (replicate k 0)
      (fs, {| pending := tasks; processes := [None]; delivered := dlv |})
    = (fs', {| pending := []; processes := [None]; delivered := dlv' |}).
Proof.
  induction tasks as [|t tasks IH]; intros fs dlv.
  - by exists 0, fs, dlv.
  - destruct (alone_returns (AtRead t) fs tasks dlv) as [k1 H1].
    destruct (IH (worker_finish L fs (AtRead t)).1
                 (dlv ++ [(worker_finish L fs (AtRead t)).2])%list)
      as (k2 & fs' & dlv' & H2).
    exists (S (k1 + k2)), fs', dlv'. cbn [replicate]. rewrite pool_run_cons.
    rewrite (pool_step_take 0 fs t tasks [None] dlv) by reflexivity.
    change (<[0 := Some (AtRead t)]> [None]) with [Some (AtRead t)].
    rewrite replicate_add, pool_run_app, H1. exact H2.
Qed.

(** X17: a pool of one process is the sequential run. Its only process
    works the tasks off in their order, so that every schedule that exhausts
    the iterator (and there is one) leaves the file system and yields the
    results of [run_single_process], in the same order, and the same
    messages are put. *)
Theorem one_process_is_the_sequential_run tasks show_log fs skipped_thumb_count :
  (exists schedule,
      pool_finished (pool_run L schedule (fs, pool_start 1 tasks)).2 = true) /\
  forall schedule,
    pool_finished (pool_run L schedule (fs, pool_start 1 tasks)).2 = true ->
    (pool_run L schedule (fs, pool_start 1 tasks)).1 = (run_tasks L fs tasks).1 /\
    delivered (pool_run L schedule (fs, pool_start 1 tasks)).2
    = (run_tasks L fs tasks).2 /\
    run_multiprocessing L None schedule show_log fs tasks skipped_thumb_count 1
    = ((run_single_process L show_log fs tasks skipped_thumb_count).1,
       (run_single_process L show_log fs tasks skipped_thumb_count).2.2).
Proof.
  split.
  - destruct (one_process_finishes tasks fs []) as (k & fs' & dlv' & Hk).
    exists (replicate k 0). unfold pool_start. cbn [replicate]. by rewrite Hk.
  - intros schedule Hfin.
    pose (continue := fun (fs1 : filesystem) (q : pool) =>
      match processes q with
      | [process] =>
          let '(fs2, dlv) :=
            match process with
            | None => (fs1, delivered q)
            | Some w =>
                ((worker_finish L fs1 w).1,
                 (delivered q ++ [(worker_finish L fs1 w).2])%list)
            end in
          Some ((run_tasks L fs2 (pending q)).1,
                (dlv ++ (run_tasks L fs2 (pending q)).2)%list)
      | _ => None
      end).
    pose (Inv := fun (fs1 : filesystem) (q : pool) =>
      continue fs1 q = Some (run_tasks L fs tasks)).
    assert (HI : Inv (pool_run L schedule (fs, pool_start 1 tasks)).1
                     (pool_run L schedule (fs, pool_start 1 tasks)).2).
    { apply pool_run_invariant.
      - intros fs1 q i task tasks' Hi Hp HI. unfold Inv, continue in *.
        cbn [pending processes delivered].
        destruct (processes q) as [|process [|? ?]] eqn:Hq; try discriminate.
        destruct i as [|i]; [|discriminate]. injection Hi as ->.
        change (<[0 := Some (AtRead task)]> [None]) with [Some (AtRead task)].
        rewrite Hp in HI. cbn [run_tasks worker_finish] in *.
        destruct (process_single_file L fs1 task) as [fs2 r]. cbn [fst snd] in *.
        destruct (run_tasks L fs2 tasks') as [fs3 rs]. cbn [fst snd] in *.
        by rewrite <- app_assoc.
      - intros fs1 q i r Hi HI. unfold Inv, continue in *.
        cbn [pending processes delivered].
        destruct (processes q) as [|process [|? ?]] eqn:Hq; try discriminate.
        destruct i as [|i]; [|discriminate]. injection Hi as ->.
        change (<[0 := None]> [Some (Returned r)]) with [@None worker].
        exact HI.
      - intros fs1 q i w Hi Hw HI. unfold Inv, continue in *.
        cbn [pending processes delivered].
        destruct (processes q) as [|process [|? ?]] eqn:Hq; try discriminate.
        destruct i as [|i]; [|discriminate]. injection Hi as ->.
        change (<[0 := Some (worker_step L fs1 w).2]> [Some w])
          with [Some (worker_step L fs1 w).2].
        cbv beta iota zeta. rewrite worker_step_finish. exact HI.
      - unfold Inv, continue, pool_start. cbn [pending processes delivered replicate].
        by destruct (run_tasks L fs tasks). }
    destruct (pool_run L schedule (fs, pool_start 1 tasks)) as [fs' p] eqn:Hrun.
    cbn [fst snd] in *. pose proof Hfin as Hfin'.
    apply pool_finished_spec in Hfin' as [Hp Hidle].
    unfold Inv, continue in HI. rewrite Hp in HI.
    destruct (processes p) as [|process [|? ?]]; try discriminate.
    apply Forall_cons in Hidle as [-> _]. cbn [run_tasks fst snd] in HI.
    rewrite app_nil_r in HI. injection HI as HI.
    rewrite <- HI. cbn [fst snd]. split; [reflexivity|]. split; [reflexivity|].
    unfold run_multiprocessing, run_single_process.
    change (1 <? 1)%Z with false. cbv iota. change (Z.to_nat 1) with 1.
    rewrite Hrun, Hfin, <- HI. reflexivity.
Qed.

End PoolSafety.

(** ** Two processes and one destination *)

Section PoolRace.

Variable L : library.

(** X18: the check of line 72 and the write of line 85 are two calls, and
    another process can move between them. Two tasks with the same
    destination, free at the start, handed to two processes: when both
    processes pass the check before either writes, both write the
    destination and both report success, under any policy, ["skip"] and
    ["rename"] included; one file is left, with the bytes of the one that
    wrote last. *)
Theorem two_processes_can_write_one_name fs t1 t2 fs1 fs2 ob1 ob2 nf1 nf2 op :
  prepare_output L fs t1 = (fs1, inr (inr (ob1, nf1, op))) ->
  prepare_output L fs1 t2 = (fs2, inr (inr (ob2, nf2, op))) ->
  fs2 !! op = None ->
  os_refuses_write L fs2 op = None ->
  os_refuses_write L (<[op := File ob1]> fs2) op = None ->
  pool_run L [0; 0; 0; 1; 1; 1; 0; 1; 0; 1; 0; 1] (fs, pool_start 2 [t1; t2])
  = (<[op := File ob2]> fs2,
     {| pending := [];
        processes := [None; None];
        delivered :=
          [(SUCCESS, success_message (posixpath.basename (task_full_path t1)) op);
           (SUCCESS, success_message (posixpath.basename (task_full_path t2)) op)] |}).
Proof.
  intros Hp1 Hp2 Hfree Hw1 Hw2.
  destruct (prepared_steps L _ _ _ _ _ _ Hp1) as (folder1 & R1 & M1).
  destruct (prepared_steps L _ _ _ _ _ _ Hp2) as (folder2 & R2 & M2).
  assert (Hcheck : forall args ob nf,
            worker_step L fs2 (AtExists args ob nf op) = (fs2, AtWrite args ob op)).
  { intros args ob nf. cbn [worker_step].
    by rewrite (proj2 (path_exists_false _ _) Hfree). }
  assert (Hwrite1 : worker_step L fs2 (AtWrite t1 ob1 op)
            = (<[op := File ob1]> fs2,
               Returned (SUCCESS,
                         success_message (posixpath.basename (task_full_path t1)) op))).
  { cbn [worker_step]. rewrite Hw1, write_file_ok; [reflexivity|]. by rewrite Hfree. }
  assert (Hwrite2 : worker_step L (<[op := File ob1]> fs2) (AtWrite t2 ob2 op)
            = (<[op := File ob2]> fs2,
               Returned (SUCCESS,
                         success_message (posixpath.basename (task_full_path t2)) op))).
  { cbn [worker_step]. rewrite Hw2, write_file_ok.
    - by rewrite insert_insert_eq.
    - by rewrite lookup_insert_eq. }
  unfold pool_start. cbn [replicate].
  rewrite pool_run_cons, (pool_step_take L 0) by reflexivity.
  rewrite pool_run_cons, (pool_step_move L 0 _ _ _ _ (AtRead t1)) by done.
  rewrite R1. cbn [fst snd].
  rewrite pool_run_cons, (pool_step_move L 0 _ _ _ _ (AtMakedirs t1 ob1 nf1 folder1)) by done.
  rewrite M1. cbn [fst snd].
  rewrite pool_run_cons, (pool_step_take L 1) by reflexivity.
  rewrite pool_run_cons, (pool_step_move L 1 _ _ _ _ (AtRead t2)) by done.
  rewrite R2. cbn [fst snd].
  rewrite pool_run_cons, (pool_step_move L 1 _ _ _ _ (AtMakedirs t2 ob2 nf2 folder2)) by done.
  rewrite M2. cbn [fst snd].
  rewrite pool_run_cons, (pool_step_move L 0 _ _ _ _ (AtExists t1 ob1 nf1 op)) by done.
  rewrite Hcheck. cbn [fst snd].
  rewrite pool_run_cons, (pool_step_move L 1 _ _ _ _ (AtExists t2 ob2 nf2 op)) by done.
  rewrite Hcheck. cbn [fst snd].
  rewrite pool_run_cons, (pool_step_move L 0 _ _ _ _ (AtWrite t1 ob1 op)) by done.
  rewrite Hwrite1. cbn [fst snd].
  rewrite pool_run_cons, (pool_step_move L 1 _ _ _ _ (AtWrite t2 ob2 op)) by done.
  rewrite Hwrite2. cbn [fst snd].
  rewrite pool_run_cons. erewrite (pool_step_give L 0) by reflexivity.
  rewrite pool_run_cons. erewrite (pool_step_give L 1) by reflexivity.
  reflexivity.
Qed.

End PoolRace.

(** ** The window and the pool *)

Section WindowAndPool.

Variable L : library.

(** The tasks of the scan carry the policy chosen in the window. *)
Lemma scan_tasks_policy fs walk output_path filename_format conflict_resolution
    input_path show_log :
  Forall (fun t => task_conflict_resolution t = conflict_resolution)
         (scan L fs walk output_path filename_format conflict_resolution input_path
               show_log).1.
Proof.
  rewrite scan_spec. cbn [fst]. apply Forall_forall. intros t Ht.
  apply list_elem_of_In, in_map_iff in Ht as (entry & <- & _). reflexivity.
Qed.

(** The walked files with a JPG name are the tasks and the files that the
    scan skipped. *)
Lemma scan_counts fs walk output_path filename_format conflict_resolution
    input_path show_log :
  let scanned := scan L fs walk output_path filename_format conflict_resolution
                      input_path show_log in
  length scanned.1 + scanned.2
  = length (List.filter (fun entry : string * string => is_jpg_name entry.2)
                        (walk_files walk)).
Proof.
  cbv zeta. rewrite scan_spec. cbn [fst snd]. rewrite length_map.
  generalize (walk_files walk). intros l.
  induction l as [|[folder f] l IH]; [reflexivity|].
  cbn [List.filter fst snd]. destruct (is_jpg_name f); cbn [andb]; [|exact IH].
  destruct (needs_thumbnail L fs (posixpath.join folder f)); cbn [negb length]; lia.
Qed.

(** [start_processing] between two directories: the log is cleared, the
    report of the scan is put, then the messages of the run. *)
Lemma start_processing_valid walk pool_error schedule duration fs a fs' a' :
  os.isdir fs (input_path_label a) = true ->
  os.isdir fs (output_path_label a) = true ->
  start_processing L walk pool_error schedule duration fs a = (fs', a') ->
  let scanned :=
    scan L fs walk (output_path_label a) (filename_format_entry a)
         (conflict_resolution_var a) (input_path_label a) (show_log_var a) in
  let run :=
    if use_multiprocessing_var a then
      run_multiprocessing L pool_error schedule (show_log_var a) fs scanned.1
                          scanned.2 (cpu_count_var a)
    else
      ((run_single_process L (show_log_var a) fs scanned.1 scanned.2).1,
       (run_single_process L (show_log_var a) fs scanned.1 scanned.2).2.2) in
  fs' = run.1 /\
  status_queue a'
  = (status_queue a ++ scan_report (length scanned.1) scanned.2
                       :: map (message_text duration) run.2)%list /\
  status_text a' = "" /\
  start_button_state a' = DISABLED.
Proof.
  intros Hin Hout. unfold start_processing. rewrite Hin, Hout. cbn [negb orb].
  destruct (scan L fs walk _ _ _ _ _) as [tasks skipped_thumb_count].
  cbv zeta. cbn [fst snd].
  change (use_multiprocessing_var (set_start_button_text _ _))
    with (use_multiprocessing_var a).
  change (show_log_var (set_start_button_text _ _)) with (show_log_var a).
  change (cpu_count_var (set_start_button_text _ _)) with (cpu_count_var a).
  assert (Hput : forall (fs1 : filesystem) messages,
    (fs1, fold_left (fun a m => put (message_text duration m) a) messages
            (set_start_button_text "正在处理中..."
               (put (scan_report (length tasks) skipped_thumb_count)
                  (set_status_text ""
                     (set_start_button DISABLED "正在扫描文件..." a))))) = (fs', a') ->
    fs' = fs1 /\
    status_queue a'
    = (status_queue a ++ scan_report (length tasks) skipped_thumb_count
                         :: map (message_text duration) messages)%list /\
    status_text a' = "" /\ start_button_state a' = DISABLED).
  { intros fs1 messages [= <- <-].
    match goal with
    | |- context [fold_left ?f messages ?a0] =>
        destruct (put_all_fields duration messages a0) as (Q & T & S1 & _)
    end.
    cbv zeta in Q, T, S1. rewrite Q, T, S1. cbn. by rewrite <- app_assoc. }
  destruct (use_multiprocessing_var a).
  - destruct (run_multiprocessing L _ _ _ fs tasks _ _) as [fs1 messages].
    apply Hput.
  - destruct (run_single_process L _ fs tasks _) as [fs1 [c messages]].
    apply Hput.
Qed.

(** Once the timer has shown a queue whose last message ends the run, the
    button is back. *)
Lemma shown_to_the_end a queue final :
  status_queue a = (queue ++ [final])%list -> ends_run final = true ->
  let shown := ticks (length (status_queue a)) a in
  status_queue shown = [] /\
  status_text shown = status_text a +:+ log_lines (status_queue a) /\
  start_button_state shown = NORMAL /\
  start_button_text shown = "开始处理".
Proof.
  intros Hq Hfinal. destruct (ticks_spec (length (status_queue a)) a) as (Q & T & S1 & S2).
  cbv zeta in *. rewrite firstn_all in *. rewrite drop_all in Q.
  assert (He : existsb ends_run (status_queue a) = true).
  { rewrite Hq, existsb_app. cbn [existsb]. rewrite Hfinal. apply orb_true_r. }
  rewrite He in S1, S2. done.
Qed.

(** X19: when the pool cannot be made (its creation raises, or the number
    of processes is below one) no task runs and the file system is as it
    was; after the report of the scan the queue gets the one message of
    line 264 and no summary, and showing that message enables the button
    again. *)
Theorem pool_failure_reports_and_stops walk pool_error schedule duration fs a e
    fs' a' :
  os.isdir fs (input_path_label a) = true ->
  os.isdir fs (output_path_label a) = true ->
  use_multiprocessing_var a = true ->
  status_queue a = [] ->
  ((cpu_count_var a < 1)%Z /\ e = "Number of processes must be at least 1") \/
  ((1 <= cpu_count_var a)%Z /\ pool_error = Some e) ->
  start_processing L walk pool_error schedule duration fs a = (fs', a') ->
  let scanned :=
    scan L fs walk (output_path_label a) (filename_format_entry a)
         (conflict_resolution_var a) (input_path_label a) (show_log_var a) in
  fs' = fs /\
  status_queue a'
  = [scan_report (length scanned.1) scanned.2; "!!! 多进程错误: " +:+ e +:+ " !!!"] /\
  let shown := ticks 2 a' in
  status_queue shown = [] /\
  status_text shown = log_lines (status_queue a') /\
  start_button_state shown = NORMAL /\
  start_button_text shown = "开始处理".
Proof.
  intros Hin Hout Hmp Hq He Hstart scanned.
  destruct (start_processing_valid _ _ _ _ _ _ _ _ Hin Hout Hstart) as (Hfs & Q & T & _).
  cbv zeta in Hfs, Q. fold scanned in Hfs, Q. rewrite Hmp, Hq in *.
  assert (Hrun : run_multiprocessing L pool_error schedule (show_log_var a) fs
                   scanned.1 scanned.2 (cpu_count_var a)
                 = (fs, [Line ("!!! 多进程错误: " +:+ e +:+ " !!!")])).
  { unfold run_multiprocessing. destruct He as [[Hlt ->]|[Hge ->]].
    - by rewrite (proj2 (Z.ltb_lt _ _) Hlt).
    - by rewrite (proj2 (Z.ltb_ge _ _) Hge). }
  rewrite Hrun in Hfs, Q. cbn in Hfs, Q. split; [exact Hfs|]. split; [exact Q|].
  destruct (shown_to_the_end a' [scan_report (length scanned.1) scanned.2]
              ("!!! 多进程错误: " +:+ e +:+ " !!!") Q (ends_run_pool_error e))
    as (S0 & S1 & S2 & S3).
  rewrite Q in S0, S1, S2, S3. cbn [length] in *. rewrite T in S1. rewrite Q.
  done.
Qed.

(** X20: a run through the pool, from the press of the button to the last
    message, for a schedule that exhausts the iterator: the queue receives
    the report of the scan, the lines of the results in the order in which
    the processes hand them over and, last, the summary; the four counts of
    the summary add up to the number of walked files with a JPG name; under
    ["skip"] and ["rename"] nothing that existed is changed; and once the
    timer has shown the queue the button is enabled again. *)
Theorem pool_run_accounts walk schedule duration fs a fs' a' :
  os.isdir fs (input_path_label a) = true ->
  os.isdir fs (output_path_label a) = true ->
  use_multiprocessing_var a = true ->
  (1 <= cpu_count_var a)%Z ->
  status_queue a = [] ->
  let scanned :=
    scan L fs walk (output_path_label a) (filename_format_entry a)
         (conflict_resolution_var a) (input_path_label a) (show_log_var a) in
  let pool_end :=
    pool_run L schedule (fs, pool_start (Z.to_nat (cpu_count_var a)) scanned.1) in
  let results := delivered pool_end.2 in
  let c := (process_results (show_log_var a) results scanned.2).1 in
  pool_finished pool_end.2 = true ->
  start_processing L walk None schedule duration fs a = (fs', a') ->
  fs' = pool_end.1 /\
  length results = length scanned.1 /\
  status_queue a'
  = scan_report (length scanned.1) scanned.2
    :: map (message_text duration)
           (process_results (show_log_var a) results scanned.2).2 /\
  last (status_queue a')
  = Some (summary_text duration (processed_count c) scanned.2
                       (skipped_exists_count c) (failed_count c)) /\
  processed_count c + scanned.2 + skipped_exists_count c + failed_count c
  = length (List.filter (fun entry : string * string => is_jpg_name entry.2)
                        (walk_files walk)) /\
  (conflict_resolution_var a = "skip" \/ conflict_resolution_var a = "rename" ->
   fs ⊆ fs') /\
  let shown := ticks (length (status_queue a')) a' in
  status_queue shown = [] /\
  status_text shown = log_lines (status_queue a') /\
  start_button_state shown = NORMAL /\
  start_button_text shown = "开始处理".
Proof.
  intros Hin Hout Hmp Hcpu Hq scanned pool_end results c Hfin Hstart.
  destruct (start_processing_valid _ _ _ _ _ _ _ _ Hin Hout Hstart) as (Hfs & Q & T & _).
  cbv zeta in Hfs, Q. fold scanned in Hfs, Q. rewrite Hmp, Hq in *.
  destruct pool_end as [fs1 p] eqn:Hpool. cbn [fst snd] in *.
  destruct (pool_results_complete L schedule (show_log_var a) fs scanned.1 scanned.2
              (Z.to_nat (cpu_count_var a)) fs1 p Hpool Hfin)
    as (Hlen & Hvalid & Hrun & Hsum & Hlast).
  rewrite Z2Nat.id in Hrun by lia. rewrite Hrun in Hfs, Q by lia.
  cbn [fst snd List.app] in Hfs, Q. fold results in Hlen, Hvalid, Hsum, Hlast, Hfs, Q.
  cbv zeta in Hsum, Hlast. fold c in Hsum, Hlast.
  assert (Hlast' : last (status_queue a')
            = Some (summary_text duration (processed_count c) scanned.2
                                 (skipped_exists_count c) (failed_count c))).
  { rewrite Q. subst c.
    destruct (process_results (show_log_var a) results scanned.2) as [c0 msgs].
    cbn [fst snd] in *.
    apply last_Some in Hlast as [l' Hl].
    rewrite Hl, map_app. cbn [map message_text].
    by rewrite app_comm_cons, last_snoc. }
  split; [exact Hfs|]. split; [exact Hlen|]. split; [exact Q|]. split; [exact Hlast'|].
  split; [|split].
  - pose proof (scan_counts fs walk (output_path_label a) (filename_format_entry a)
                  (conflict_resolution_var a) (input_path_label a) (show_log_var a)) as Hc.
    cbv zeta in Hc. fold scanned in Hc. lia.
  - intros Hpol. rewrite Hfs.
    pose proof (pool_run_keeps L schedule fs scanned.1 (Z.to_nat (cpu_count_var a))) as Hk.
    unfold pool_end in Hpool. rewrite Hpool in Hk. apply Hk.
    eapply Forall_impl; [apply scan_tasks_policy|]. cbn beta. intros t Ht. unfold careful. rewrite Ht. exact Hpol.
  - apply last_Some in Hlast' as [queue Hqueue].
    destruct (shown_to_the_end a' queue _ Hqueue (ends_run_summary _ _ _ _ _))
      as (S0 & S1 & S2 & S3).
    rewrite T in S1. done.
Qed.

End WindowAndPool.

(** ** The messages that do not end a run *)

Lemma startswith_app_agree t s m :
  pystr.startswith (t +:+ s) m = true -> agree t m = true.
Proof.
  unfold agree. revert m. induction t as [|x t IH]; intros m H.
  - destruct m; [reflexivity|]. apply orb_true_r.
  - destruct m as [|y m]; [reflexivity|].
    rewrite string_app_cons in H. cbn [pystr.startswith] in *.
    apply andb_true_iff in H as [Hxy H]. pose proof Hxy as Hyx.
    apply Ascii.eqb_eq in Hyx. subst y. rewrite Ascii.eqb_refl. cbn [andb].
    by apply IH.
Qed.

Lemma contains_clear_prefix c s m :
  clear_of c m = true -> pystr.contains (c +:+ s) m = pystr.contains s m.
Proof.
  induction c as [|x c IH]; intros H; [reflexivity|].
  cbn [clear_of] in H. apply andb_true_iff in H as [Hx Hc].
  rewrite string_app_cons. cbn [pystr.contains].
  rewrite <- string_app_cons. rewrite IH by exact Hc.
  destruct (pystr.startswith (String x c +:+ s) m) eqn:E; [|reflexivity].
  apply startswith_app_agree in E. rewrite E in Hx. discriminate.
Qed.

Lemma ascii_only_clear v y m :
  (128 <= N_of_ascii y)%N -> ascii_only v = true -> clear_of v (String y m) = true.
Proof.
  intros Hy. induction v as [|x v IH]; intros H; [reflexivity|].
  cbn [ascii_only] in H. apply andb_true_iff in H as [Hx Hv].
  cbn [clear_of]. rewrite IH by exact Hv. rewrite andb_true_r.
  unfold agree. cbn [pystr.startswith].
  assert (Hne : Ascii.eqb x y = false).
  { apply Ascii.eqb_neq. intros ->. apply N.ltb_lt in Hx. lia. }
  rewrite Hne. rewrite (Ascii.eqb_sym y x), Hne. reflexivity.
Qed.

Lemma ascii_only_app a b :
  ascii_only a = true -> ascii_only b = true -> ascii_only (a +:+ b) = true.
Proof.
  intros Ha Hb. induction a as [|x a IH]; [exact Hb|].
  rewrite string_app_cons. cbn [ascii_only] in *.
  apply andb_true_iff in Ha as [-> Ha]. by apply IH.
Qed.

Lemma pretty_N_char_ascii x : (N_of_ascii (pretty_N_char x) <? 128)%N = true.
Proof.
  destruct x as [|p]; [reflexivity|].
  destruct p as [p|p|]; try reflexivity;
    destruct p as [p|p|]; try reflexivity;
      destruct p as [p|p|]; try reflexivity;
        destruct p as [p|p|]; reflexivity.
Qed.

Lemma pretty_N_go_ascii x : forall s,
  ascii_only s = true -> ascii_only (pretty_N_go x s) = true.
Proof.
  induction (N.lt_wf_0 x) as [x _ IH]. intros s Hs.
  destruct (decide (x = 0)%N) as [->|Hx].
  - by rewrite pretty_N_go_0.
  - rewrite pretty_N_go_step by lia. apply IH.
    + apply N.div_lt; lia.
    + cbn [ascii_only]. by rewrite pretty_N_char_ascii, Hs.
Qed.

(** A count is printed in digits. *)
Lemma pretty_nat_ascii (n : nat) : ascii_only (pretty n) = true.
Proof.
  unfold pretty, pretty_nat, pretty, pretty_N.
  destruct (decide (N.of_nat n = 0)%N); [reflexivity|]. by apply pretty_N_go_ascii.
Qed.

Local Ltac pass_ascii H :=
  rewrite contains_clear_prefix
    by (apply ascii_only_clear; [vm_compute; discriminate | exact H]).

Local Ltac pass_text :=
  rewrite contains_clear_prefix by (vm_compute; reflexivity).

(** X21: of the messages the program puts, the test of line 278 passes the
    summary and the two error messages only, as long as file names and
    exception texts are ASCII: it fails on the report of the scan, whatever
    the counts, and on the line of a result, whatever its status. Until one
    of the three is shown the button stays as [start_processing] left it. *)
Theorem other_messages_do_not_end_the_run :
  (forall tasks skipped_thumb_count,
      ends_run (scan_report tasks skipped_thumb_count) = false) /\
  (forall filename,
      ascii_only filename = true ->
      ends_run ("失败 (无法解码): " +:+ filename) = false /\
      ends_run ("失败 (编码缩略图失败): " +:+ filename) = false /\
      ends_run ("已跳过 (文件已存在): " +:+ filename) = false /\
      (forall e, ascii_only e = true ->
                 ends_run (failure_message filename e) = false) /\
      (forall output_path,
          ascii_only (posixpath.basename output_path) = true ->
          ends_run (success_message filename output_path) = false)) /\
  (forall duration processed skipped_thumb skipped_exists failed,
      ends_run (summary_text duration processed skipped_thumb skipped_exists failed)
      = true) /\
  (forall e, ends_run ("!!! 多进程错误: " +:+ e +:+ " !!!") = true) /\
  ends_run "错误: 请输入有效的输入和输出文件夹路径。" = true.
Proof.
  split; [|split; [|split; [|split]]].
  - intros tasks skipped. unfold ends_run, scan_report.
    change (pystr.startswith _ "!!!") with false.
    change (pystr.startswith _ "错误:") with false. rewrite !orb_false_r.
    pass_text. pass_ascii (pretty_nat_ascii tasks).
    pass_text. pass_ascii (pretty_nat_ascii skipped). reflexivity.
  - intros filename Hf. unfold ends_run, failure_message, success_message.
    repeat split; try intros ? ?;
      change (pystr.startswith _ "!!!") with false;
      change (pystr.startswith _ "错误:") with false; rewrite !orb_false_r.
    + pass_text. rewrite <- (string_app_nil_r filename). pass_ascii Hf. reflexivity.
    + pass_text. rewrite <- (string_app_nil_r filename). pass_ascii Hf. reflexivity.
    + pass_text. rewrite <- (string_app_nil_r filename). pass_ascii Hf. reflexivity.
    + pass_text. pass_ascii Hf. pass_text. pass_ascii H. reflexivity.
    + pass_text. pass_ascii Hf. pass_text.
      rewrite <- (string_app_nil_r (posixpath.basename _)). pass_ascii H. reflexivity.
  - apply ends_run_summary.
  - apply ends_run_pool_error.
  - reflexivity.
Qed.

(** ** The button pressed twice *)

Section SecondPress.

Variable L : library.

Lemma settings_put message a : settings (put message a) = settings a.
Proof. reflexivity. Qed.

Lemma settings_check_queue a : settings (check_queue a) = settings a.
Proof.
  unfold check_queue. destruct (status_queue a) as [|message queue]; [reflexivity|].
  by destruct (_ || _).
Qed.

Lemma settings_ticks n a : settings (ticks n a) = settings a.
Proof.
  revert a. induction n as [|n IH]; intros a; [reflexivity|].
  by rewrite ticks_S, IH, settings_check_queue.
Qed.

Lemma settings_put_all duration messages : forall a,
  settings (fold_left (fun a m => put (message_text duration m) a) messages a)
  = settings a.
Proof.
  induction messages as [|m messages IH]; intros a; [reflexivity|].
  cbn [fold_left]. by rewrite IH.
Qed.

(** Neither a run nor the timer changes what the user has set. *)
Lemma settings_start_processing walk pool_error schedule duration fs a :
  settings (start_processing L walk pool_error schedule duration fs a).2 = settings a.
Proof.
  unfold start_processing.
  destruct (negb _ || negb _); [reflexivity|].
  destruct (scan L fs walk _ _ _ _ _) as [tasks skipped_thumb_count].
  cbv zeta.
  destruct (if use_multiprocessing_var _ then _ else _) as [fs1 messages].
  cbn [snd]. by rewrite settings_put_all.
Qed.

Lemma isdir_mono (fs fs1 : gmap string node) p :
  fs ⊆ fs1 -> os.isdir fs p = true -> os.isdir fs1 p = true.
Proof.
  intros Hsub. unfold os.isdir. destruct (fs !! p) as [[c|]|] eqn:E; try discriminate.
  by rewrite (lookup_weaken _ _ _ _ E Hsub).
Qed.

(** The scan reads: it finds the same in a file system that has grown, for
    the files that were there. *)
Lemma scan_mono (fs fs1 : gmap string node) walk output_path filename_format
    conflict_resolution input_path show_log :
  os_never_refuses L -> fs ⊆ fs1 ->
  (forall folder filename,
      In (folder, filename) (walk_files walk) -> is_jpg_name filename = true ->
      is_Some (fs !! posixpath.join folder filename)) ->
  scan L fs1 walk output_path filename_format conflict_resolution input_path show_log
  = scan L fs walk output_path filename_format conflict_resolution input_path show_log.
Proof.
  intros Hos Hsub Hthere. rewrite !scan_spec.
  assert (Hsame : forall entry : string * string,
            In entry (walk_files walk) -> is_jpg_name entry.2 = true ->
            needs_thumbnail L fs1 (posixpath.join entry.1 entry.2)
            = needs_thumbnail L fs (posixpath.join entry.1 entry.2)).
  { intros [folder f] Hin Hjpg. cbn [fst snd] in *.
    unfold needs_thumbnail, scan_load.
    rewrite !(proj1 (Hos _ _)).
    by rewrite (read_file_mono None fs fs1 _ (Hthere folder f Hin Hjpg) Hsub). }
  f_equal.
  - f_equal. apply filter_ext_in. intros entry Hin.
    destruct (is_jpg_name entry.2) eqn:E; [|reflexivity]. cbn [andb]. by apply Hsame.
  - f_equal. apply filter_ext_in. intros entry Hin.
    destruct (is_jpg_name entry.2) eqn:E; [|reflexivity]. cbn [andb]. f_equal.
    by apply Hsame.
Qed.

(** The tasks of the scan are files of the walk with a JPG name. *)
Lemma scan_tasks_walked fs walk output_path filename_format conflict_resolution
    input_path show_log t :
  In t (scan L fs walk output_path filename_format conflict_resolution input_path
             show_log).1 ->
  exists folder filename,
    In (folder, filename) (walk_files walk) /\ is_jpg_name filename = true /\
    task_full_path t = posixpath.join folder filename.
Proof.
  rewrite scan_spec. cbn [fst]. intros Ht.
  apply in_map_iff in Ht as ([folder f] & <- & Hin).
  apply filter_In in Hin as [Hin Hb]. apply andb_true_iff in Hb as [Hjpg _].
  by exists folder, f.
Qed.


End SecondPress.

(** ** Concrete runs of the further properties *)


Lemma nothing_skipped_without_skip_policy_witness :
  let c := (run_single_process Sample.lib false Sample.fs_taken
              [Sample.task_for "in/a.jpg" "rename"; Sample.task_for "in/a.jpg" "overwrite"]
              0).2.1 in
  skipped_exists_count c = 0 /\ processed_count c + failed_count c = 2.
Proof.
  apply (nothing_skipped_without_skip_policy Sample.lib false Sample.fs_taken
           [Sample.task_for "in/a.jpg" "rename"; Sample.task_for "in/a.jpg" "overwrite"] 0).
  repeat constructor; discriminate.
Defined.

Lemma result_message_forms_witness :
  let filename := posixpath.basename "in/a.jpg" in
  (SKIPPED_EXISTS = SUCCESS /\
   exists output_path output_bytes,
     Sample.fs_taken !! output_path = Some (File output_bytes) /\
     "已跳过 (文件已存在): a-thumb.jpg"
     = "已处理: " +:+ filename +:+ " -> " +:+ posixpath.basename output_path) \/
  (SKIPPED_EXISTS = SKIPPED_EXISTS /\ "skip" = "skip" /\
   "已跳过 (文件已存在): a-thumb.jpg"
   = "已跳过 (文件已存在): " +:+ output_filename filename "{Filename}-thumb") \/
  (SKIPPED_EXISTS = FAILURE /\
   ("已跳过 (文件已存在): a-thumb.jpg" = "失败 (无法解码): " +:+ filename \/
    "已跳过 (文件已存在): a-thumb.jpg" = "失败 (编码缩略图失败): " +:+ filename \/
    exists e, "已跳过 (文件已存在): a-thumb.jpg"
              = "失败: " +:+ filename +:+ " (" +:+ e +:+ ")")).
Proof.
  apply (result_message_forms Sample.lib Sample.fs_taken
           "in/a.jpg" "out" "{Filename}-thumb" "skip" "in" false Sample.fs_taken).
  vm_compute. reflexivity.
Defined.


Lemma format_without_placeholder_witness :
  output_filename "IMG_1.JPG" "thumb" = "thumb" +:+ (posixpath.splitext "IMG_1.JPG").2 /\
  forall other,
    (posixpath.splitext other).2 = (posixpath.splitext "IMG_1.JPG").2 ->
    output_filename other "thumb" = output_filename "IMG_1.JPG" "thumb".
Proof. apply (format_without_placeholder "IMG_1.JPG" "thumb"). reflexivity. Defined.

Lemma thumbnail_fills_the_box_witness :
  exists nw nh : Z,
    thumbnail_size 40 30 = inr (nw, nh) /\
    (0 <= nw <= 160)%Z /\ (0 <= nh <= 120)%Z /\ (159 <= nw \/ 119 <= nh)%Z.
Proof. apply (thumbnail_fills_the_box 40 30); reflexivity. Defined.

Lemma thumbnail_side_can_be_zero_witness :
  exists nw nh : Z,
    thumbnail_size 200 1 = inr (nw, nh) /\
    ((160 * 1 < 200)%Z -> nh = 0%Z) /\
    ((120 * 200 < 1)%Z -> nw = 0%Z) /\
    ((200 <= 80 * 1)%Z -> (1 <= 60 * 200)%Z -> (1 <= nw)%Z /\ (1 <= nh)%Z).
Proof. apply (thumbnail_side_can_be_zero 200 1); reflexivity. Defined.

Lemma file_name_can_end_the_run_witness :
  let message :=
    "失败: 所有文件处理完毕.jpg ([Errno 2] No such file or directory: 'in/所有文件处理完毕.jpg')" in
  let a := put "later" (put message Sample.window_single) in
  ends_run message = true /\
  status_queue (check_queue a) = ["later"] /\
  start_button_state (check_queue a) = NORMAL /\
  start_button_text (check_queue a) = "开始处理".
Proof.
  apply (file_name_can_end_the_run Sample.lib Sample.fs0
           "in/所有文件处理完毕.jpg" "out" "{Filename}-thumb" "skip" "in" false
           Sample.fs0 FAILURE);
    first [ discriminate | vm_compute; reflexivity ].
Defined.

Lemma invalid_folder_only_reports_witness :
  let error := "错误: 请输入有效的输入和输出文件夹路径。" in
  let a := init (Some 4%N) in
  let pressed := start_processing Sample.lib Sample.walk None [] "0.001" Sample.fs0 a in
  pressed.1 = Sample.fs0 /\
  status_queue pressed.2 = (status_queue a ++ [error])%list /\
  status_text pressed.2 = status_text a /\
  start_button_state pressed.2 = start_button_state a /\
  let shown := ticks (length (status_queue pressed.2)) pressed.2 in
  status_queue shown = [] /\
  status_text shown = status_text a +:+ log_lines (status_queue a ++ [error]) /\
  start_button_state shown = NORMAL /\
  start_button_text shown = "开始处理".
Proof.
  intros error a pressed.
  apply (invalid_folder_only_reports Sample.lib Sample.walk None [] "0.001"
           Sample.fs0 a).
  - left. reflexivity.
  - apply surjective_pairing.
Defined.

Lemma single_process_run_accounts_witness :
  let pressed :=
    start_processing Sample.lib Sample.walk None [] "0.001" Sample.fs0
                     Sample.window_single in
  length (status_queue pressed.2) = 2 /\
  last (status_queue pressed.2) = Some (summary_text "0.001" 3 0 0 0) /\
  start_button_state (ticks 2 pressed.2) = NORMAL /\
  status_queue (ticks 2 pressed.2) = [].
Proof.
  intros pressed.
  destruct (single_process_run_accounts Sample.lib Sample.walk None [] "0.001"
              Sample.fs0 Sample.window_single eq_refl eq_refl eq_refl eq_refl
              pressed.1 pressed.2 (surjective_pairing _))
    as (_ & Hq & Hlast & _ & Hs0 & _ & Hs1 & _).
  assert (Hlen : length (status_queue pressed.2) = 2) by (vm_compute; reflexivity).
  rewrite Hlen in Hs0, Hs1.
  split; [exact Hlen|]. split; [|split; [exact Hs1 | exact Hs0]].
  rewrite Hlast. vm_compute. reflexivity.
Defined.

Lemma pool_accounts_for_every_task_witness :
  let tasks := [Sample.task_for "in/a.jpg" "skip"; Sample.task_for "in/b.jpg" "skip";
                Sample.task_for "in/c.jpg" "skip"] in
  let pool_end := pool_run Sample.lib Sample.in_turn (Sample.fs0, pool_start 2 tasks) in
  length (delivered pool_end.2) = 3 /\
  Forall (fun r : result => valid_status r.1) (delivered pool_end.2).
Proof.
  intros tasks pool_end.
  destruct (pool_accounts_for_every_task Sample.lib Sample.in_turn false Sample.fs0
              tasks 0 2 pool_end.1 pool_end.2 (surjective_pairing _))
    as (H1 & H2 & _).
  - vm_compute. reflexivity.
  - split; [exact H1 | exact H2].
Defined.

Lemma pool_keeps_what_existed_witness :
  Sample.fs_taken
  ⊆ (pool_run Sample.lib Sample.in_turn
       (Sample.fs_taken,
        pool_start 2 [Sample.task_for "in/a.jpg" "rename";
                      Sample.task_for "in/a.jpg" "skip"])).1.
Proof.
  apply (pool_keeps_what_existed Sample.lib).
  constructor; [by right|]. constructor; [by left|]. constructor.
Defined.

Lemma two_processes_can_write_one_name_witness :
  pool_run Sample.lib [0; 0; 0; 1; 1; 1; 0; 1; 0; 1; 0; 1]
    (Sample.fs0,
     pool_start 2 [("in/a.jpg", "out", "thumb", "rename", "in", false);
                   ("in/b.jpg", "out", "thumb", "rename", "in", false)])
  = (<["out/./thumb.jpg" := File [x02; x28; x1e; xaa; xbb; xcc]]>
       (<["out/." := Dir]> Sample.fs0),
     {| pending := [];
        processes := [None; None];
        delivered :=
          [(SUCCESS, success_message (posixpath.basename "in/a.jpg") "out/./thumb.jpg");
           (SUCCESS, success_message (posixpath.basename "in/b.jpg") "out/./thumb.jpg")] |}).
Proof.
  apply (two_processes_can_write_one_name Sample.lib Sample.fs0
           ("in/a.jpg", "out", "thumb", "rename", "in", false)
           ("in/b.jpg", "out", "thumb", "rename", "in", false)
           (<["out/." := Dir]> Sample.fs0) (<["out/." := Dir]> Sample.fs0)
           [x02; x28; x1e; xaa; xbb; xcc] [x02; x28; x1e; xaa; xbb; xcc]
           "thumb.jpg" "thumb.jpg" "out/./thumb.jpg");
    vm_compute; reflexivity.
Defined.

Lemma pool_failure_reports_and_stops_witness :
  let e := "[Errno 12] Cannot allocate memory" in
  let pressed :=
    start_processing Sample.lib Sample.walk (Some e) [] "0.001" Sample.fs0
                     Sample.window_pool in
  pressed.1 = Sample.fs0 /\
  status_queue pressed.2 = [scan_report 3 0; "!!! 多进程错误: " +:+ e +:+ " !!!"] /\
  start_button_state (ticks 2 pressed.2) = NORMAL.
Proof.
  intros e pressed.
  destruct (pool_failure_reports_and_stops Sample.lib Sample.walk (Some e) [] "0.001"
              Sample.fs0 Sample.window_pool e pressed.1 pressed.2
              eq_refl eq_refl eq_refl eq_refl)
    as (H1 & H2 & _ & _ & H3 & _).
  - right. split; [vm_compute; discriminate | reflexivity].
  - apply surjective_pairing.
  - split; [exact H1|]. split; [exact H2 | exact H3].
Defined.

Lemma pool_run_accounts_witness :
  let pressed :=
    start_processing Sample.lib Sample.walk None Sample.in_turn "0.001" Sample.fs0
                     Sample.window_pool in
  last (status_queue pressed.2) = Some (summary_text "0.001" 3 0 0 0) /\
  Sample.fs0 ⊆ pressed.1.
Proof.
  intros pressed.
  destruct (pool_run_accounts Sample.lib Sample.walk Sample.in_turn "0.001"
              Sample.fs0 Sample.window_pool pressed.1 pressed.2
              eq_refl eq_refl eq_refl)
    as (_ & _ & _ & Hlast & _ & Hkeep & _).
  - vm_compute. discriminate.
  - reflexivity.
  - vm_compute. reflexivity.
  - apply surjective_pairing.
  - split; [|apply Hkeep; by left].
    rewrite Hlast. vm_compute. reflexivity.
Defined.

